(** * yacm: a shallow embedding of the resolver pipeline

    The development follows the Go packages of the repository:
    - [GoStrings]  the fragments of [strings], [strconv] and [path/filepath]
                   the program calls, over byte strings;
    - [Version]    resolver.go: [normalizeVersion], [compareVersions],
                   [satisfiesOne], [satisfies];
    - [Snapshot]   the Carton v1.0 emitter and parser;
    - [Extractor]  metadata selection, the configure step, [flattenPrereqs];
    - [Downloader] [downloadOne] over an explicit file system and request log;
    - [Resolver]   [resolveOne] and [Resolve] over the collaborators' interfaces;
    - [Cpanfile]   the cpanfile parser with its three regular expressions;
    - [Index]      [parseCache] and [Lookup] of the CPAN index;
    - [Main]       the glue of [runSnapshot]: the merged requirement list and
                   the deduplication by pathname.

    Go strings are byte sequences; they are modelled by [string], whose
    characters are the 256 byte values. *)

From Stdlib Require Import ZArith Ascii String List Lia Bool.
From Stdlib Require Import Sorting.Sorted Permutation.
From Stdlib Require Import Numbers.DecimalString.
From stdpp Require Import base gmap strings list fin_maps.

Local Open Scope Z_scope.

(* ===================================================================== *)
(** ** Go's string library, as far as the program uses it                *)
(* ===================================================================== *)

Module GoStrings.

(** [s[n:]] *)
Fixpoint sliceFrom (n : nat) (s : string) {struct n} : string :=
  match n, s with
  | O, _ => s
  | S k, String _ r => sliceFrom k r
  | S _, EmptyString => EmptyString
  end.

(** [s[:n]] *)
Fixpoint sliceTo (n : nat) (s : string) {struct n} : string :=
  match n, s with
  | O, _ => EmptyString
  | S k, String c r => String c (sliceTo k r)
  | S _, EmptyString => EmptyString
  end.

(** [strings.HasPrefix(s, prefix)] *)
Fixpoint HasPrefix (s p : string) {struct p} : bool :=
  match p, s with
  | EmptyString, _ => true
  | String a p', String b s' => Ascii.eqb a b && HasPrefix s' p'
  | String _ _, EmptyString => false
  end.

(** [strings.TrimPrefix(s, prefix)] *)
Definition TrimPrefix (s p : string) : string :=
  if HasPrefix s p then sliceFrom (String.length p) s else s.

(** [strings.HasSuffix(s, suffix)] *)
Definition HasSuffix (s p : string) : bool :=
  HasPrefix (String.rev s) (String.rev p).

(** [strings.TrimSuffix(s, suffix)] *)
Definition TrimSuffix (s p : string) : string :=
  if HasSuffix s p then sliceTo (String.length s - String.length p) s else s.

(** [strings.Index(s, substr)]: the byte offset of the first occurrence,
    [None] for Go's [-1]. *)
Fixpoint Index (s sub : string) : option nat :=
  if HasPrefix s sub then Some O
  else match s with
       | EmptyString => None
       | String _ r => S <$> Index r sub
       end.

(** [strings.Split(s, sep)] for a one-byte separator [sep]; the program
    only splits on [","], ["."] and ["/"].  The result is never empty. *)
Fixpoint splitGo (sep : ascii) (cur : string) (s : string) : list string :=
  match s with
  | EmptyString => [String.rev cur]
  | String c r =>
      if Ascii.eqb c sep then String.rev cur :: splitGo sep EmptyString r
      else splitGo sep (String c cur) r
  end.
Definition Split (s : string) (sep : ascii) : list string :=
  splitGo sep EmptyString s.

(** *** [strings.TrimSpace]

    Go trims every leading and trailing rune with [unicode.IsSpace]:
    the ASCII bytes [\t \n \v \f \r] and space, U+0085, U+00A0 and the
    other White_Space code points.  A code point is recognised through
    its UTF-8 encoding; an invalid byte decodes to U+FFFD, which is
    not a space. *)

Definition byte (c : ascii) : Z := Z.of_N (N_of_ascii c).

Definition asciiSpace (c : ascii) : bool :=
  let b := byte c in
  ((9 <=? b) && (b <=? 13)) || (b =? 32).

(** Third byte of a White_Space rune encoded [E2 80 xx]:
    U+2000..U+200A, U+2028, U+2029, U+202F. *)
Definition e280Space (b : Z) : bool :=
  ((128 <=? b) && (b <=? 138)) || (b =? 168) || (b =? 169) || (b =? 175).

(** [leadingSpace s]: the rest of [s] after one leading white-space
    rune, if [s] starts with one. *)
Definition leadingSpace (s : string) : option string :=
  match s with
  | EmptyString => None
  | String c r =>
      if asciiSpace c then Some r
      else match r with
           | EmptyString => None
           | String d r1 =>
               if (byte c =? 194) && ((byte d =? 133) || (byte d =? 160))
               then Some r1
               else match r1 with
                    | EmptyString => None
                    | String e r2 =>
                        if ((byte c =? 225) && (byte d =? 154) && (byte e =? 128))
                           || ((byte c =? 226) && (byte d =? 128) && e280Space (byte e))
                           || ((byte c =? 226) && (byte d =? 129) && (byte e =? 159))
                           || ((byte c =? 227) && (byte d =? 128) && (byte e =? 128))
                        then Some r2 else None
                    end
           end
  end.

(** [trailingSpaceRev t]: the same test on the reversed string [t], as
    [utf8.DecodeLastRuneInString] walks back from the end: the rest of
    [t] after the (reversed) encoding of one white-space rune. *)
Definition trailingSpaceRev (t : string) : option string :=
  match t with
  | EmptyString => None
  | String c r =>
      if asciiSpace c then Some r
      else match r with
           | EmptyString => None
           | String d r1 =>
               if (byte d =? 194) && ((byte c =? 133) || (byte c =? 160))
               then Some r1
               else match r1 with
                    | EmptyString => None
                    | String e r2 =>
                        if ((byte e =? 225) && (byte d =? 154) && (byte c =? 128))
                           || ((byte e =? 226) && (byte d =? 128) && e280Space (byte c))
                           || ((byte e =? 226) && (byte d =? 129) && (byte c =? 159))
                           || ((byte e =? 227) && (byte d =? 128) && (byte c =? 128))
                        then Some r2 else None
                    end
           end
  end.

(** Repeat a one-rune trimming step; the length of the string bounds
    the number of steps. *)
Fixpoint trimLoop (step : string -> option string) (fuel : nat) (s : string) : string :=
  match fuel with
  | O => s
  | S k => match step s with
           | Some r => trimLoop step k r
           | None => s
           end
  end.

Definition TrimLeftSpace (s : string) : string :=
  trimLoop leadingSpace (String.length s) s.

Definition TrimRightSpace (s : string) : string :=
  String.rev (trimLoop trailingSpaceRev (String.length s) (String.rev s)).

Definition TrimSpace (s : string) : string :=
  TrimRightSpace (TrimLeftSpace s).

(** *** [strconv.Atoi], with its error result dropped ([n, _ := ...])

    A syntax error yields 0; a value outside [int64] yields the nearest
    bound.  [ParseUint] reports the overflow at the digit where it
    happens, before looking at the bytes that follow. *)

Definition maxUint64 : Z := 18446744073709551615.
Definition maxInt64 : Z := 9223372036854775807.
Definition minInt64 : Z := -9223372036854775808.

Inductive uparse := USyntax | URange | UVal (n : Z).

Definition digitOf (c : ascii) : option Z :=
  let b := byte c in
  if (48 <=? b) && (b <=? 57) then Some (b - 48) else None.

Fixpoint parseUintFrom (acc : Z) (s : string) : uparse :=
  match s with
  | EmptyString => UVal acc
  | String c r =>
      match digitOf c with
      | None => USyntax
      | Some d =>
          if maxUint64 <? acc * 10 + d then URange
          else parseUintFrom (acc * 10 + d) r
      end
  end.

Definition ParseUint (s : string) : uparse :=
  match s with
  | EmptyString => USyntax
  | _ => parseUintFrom 0 s
  end.

Definition Atoi (s : string) : Z :=
  let '(neg, body) :=
    match s with
    | String c r =>
        if Ascii.eqb c "+" then (false, r)
        else if Ascii.eqb c "-" then (true, r)
        else (false, s)
    | EmptyString => (false, s)
    end in
  match ParseUint body with
  | USyntax => 0
  | URange => if neg then minInt64 else maxInt64
  | UVal n =>
      if neg then (if maxInt64 + 1 <? n then minInt64 else - n)
      else (if maxInt64 <? n then maxInt64 else n)
  end.

(** [fmt.Sprintf("%d", n)] *)
Definition formatInt (n : Z) : string :=
  NilZero.string_of_int (Z.to_int n).

(** [filepath.Base] on a Unix path. *)
Fixpoint stripTrailingSlashesRev (t : string) : string :=
  match t with
  | String c r => if Ascii.eqb c "/" then stripTrailingSlashesRev r else t
  | EmptyString => EmptyString
  end.

Fixpoint lastElementRev (t : string) : string :=
  match t with
  | String c r => if Ascii.eqb c "/" then EmptyString else String c (lastElementRev r)
  | EmptyString => EmptyString
  end.

Definition Base (path : string) : string :=
  match path with
  | EmptyString => "."
  | _ =>
      let t := stripTrailingSlashesRev (String.rev path) in
      let e := String.rev (lastElementRev t) in
      match e with
      | EmptyString => "/"
      | _ => e
      end
  end.

(** [sort.Strings] order: bytewise lexicographic. *)
Definition strLt (a b : string) : bool := String.ltb a b.

(** Vocabulary for statements: no byte of [s] equals [c]. *)
Fixpoint free (c : ascii) (s : string) : bool :=
  match s with
  | EmptyString => true
  | String d r => negb (Ascii.eqb d c) && free c r
  end.

End GoStrings.

Import GoStrings.
(* ===================================================================== *)
(** ** internal/resolver/resolver.go: the version algebra                *)
(* ===================================================================== *)

Module Version.

(** The decimal-format loop of [normalizeVersion]:
    [for len(frac) > 0 { chunk := frac; if len(chunk) > 3 { chunk =
    frac[:3]; frac = frac[3:] } else { frac = "" }; ... }].
    Every round shortens [frac], so [String.length frac] rounds suffice. *)
Fixpoint chunkLoop (fuel : nat) (frac : string) : list Z :=
  match fuel with
  | O => []
  | S k =>
      if (0 <? String.length frac)%nat then
        if (3 <? String.length frac)%nat
        then Atoi (sliceTo 3 frac) :: chunkLoop k (sliceFrom 3 frac)
        else [Atoi frac]
      else []
  end.

Definition normalizeVersion (v : string) : list Z :=
  let v := TrimPrefix v "v" in
  if String.eqb v "" then [0]
  else
    let parts := Split v "." in
    match parts with
    | [p] => [Atoi p]
    | [major; frac] =>
        if (3 <? String.length frac)%nat
        then Atoi major :: chunkLoop (String.length frac) frac
        else map Atoi parts
    | _ => map Atoi parts
    end.

(** The body of [for i := 0; i < maxLen; i++], with [n = maxLen - i]
    rounds left. *)
Fixpoint compareLoop (n i : nat) (aParts bParts : list Z) : Z :=
  match n with
  | O => 0
  | S k =>
      let aVal := if (i <? length aParts)%nat then nth i aParts 0 else 0 in
      let bVal := if (i <? length bParts)%nat then nth i bParts 0 else 0 in
      if aVal <? bVal then -1
      else if bVal <? aVal then 1
      else compareLoop k (S i) aParts bParts
  end.

Definition compareVersions (a b : string) : Z :=
  let aParts := normalizeVersion a in
  let bParts := normalizeVersion b in
  let maxLen := if (length aParts <? length bParts)%nat
                then length bParts else length aParts in
  compareLoop maxLen 0 aParts bParts.

Definition satisfiesOne (have want : string) : bool :=
  let want := TrimSpace want in
  if String.eqb want "" || String.eqb want "0" then true
  else
    let cmp w := compareVersions have w in
    if HasPrefix want ">=" then 0 <=? cmp (TrimSpace (sliceFrom 2 want))
    else if HasPrefix want "<=" then cmp (TrimSpace (sliceFrom 2 want)) <=? 0
    else if HasPrefix want "!=" then negb (cmp (TrimSpace (sliceFrom 2 want)) =? 0)
    else if HasPrefix want ">" then 0 <? cmp (TrimSpace (sliceFrom 1 want))
    else if HasPrefix want "<" then cmp (TrimSpace (sliceFrom 1 want)) <? 0
    else if HasPrefix want "==" then cmp (TrimSpace (sliceFrom 2 want)) =? 0
    else 0 <=? cmp want.

Definition satisfies (have want : string) : bool :=
  if String.eqb want "" || String.eqb want "0" then true
  else if String.eqb have "undef" then true
  else
    let have := if String.eqb have "" then "0" else have in
    forallb (fun c => satisfiesOne have (TrimSpace c)) (Split want ",").

(** *** The comparison the specification words describe

    Both sequences are padded with zeros to a common length and then
    compared lexicographically. *)

Definition padTo (n : nat) (l : list Z) : list Z :=
  l ++ repeat 0 (n - length l).

Fixpoint lexCompare (a b : list Z) : Z :=
  match a, b with
  | x :: a', y :: b' =>
      if x <? y then -1 else if y <? x then 1 else lexCompare a' b'
  | _, _ => 0
  end.

(** Left-to-right groups of three bytes; the last group keeps what is
    left (one to three bytes). *)
Fixpoint groups3 (fuel : nat) (s : string) : list string :=
  match fuel with
  | O => []
  | S k =>
      match s with
      | EmptyString => []
      | _ => if (3 <? String.length s)%nat
             then sliceTo 3 s :: groups3 k (sliceFrom 3 s)
             else [s]
      end
  end.

End Version.

Import Version.

(* ===================================================================== *)
(** ** internal/dist/dist.go                                             *)
(* ===================================================================== *)

(** [dist.Dist].  A Go [map[string]string] is a finite map; a [nil] map
    and an empty map hold the same entries and are both [∅]. *)
Record Dist := mkDist {
  Name : string;
  Pathname : string;
  Provides : gmap string string;
  Requirements : gmap string string;
  Source : string
}.

(** [dist.VersionReq] *)
Record VersionReq := mkReq { Module_ : string; Version_ : string }.

(** [m[k]] on a Go map: the zero value for an absent key. *)
Definition goIndex (m : gmap string string) (k : string) : string :=
  default "" (m !! k).

(* ===================================================================== *)
(** ** internal/snapshot: emitter and parser                             *)
(* ===================================================================== *)

Module Snapshot.

Definition nl : string := String "010" "".

Definition header : string := "# carton snapshot format: version 1.0" +:+ nl.

(** [normalizeVersion] of the emitter (not the resolver's function of
    the same name). *)
Definition normalizeVersion (v : string) : string :=
  let v := TrimSpace v in
  if String.eqb v "" then "0"
  else
    let v := match Index v "," with
             | Some idx => TrimSpace (sliceTo idx v)
             | None => v
             end in
    let v := TrimPrefix v ">=" in
    let v := TrimPrefix v ">" in
    let v := TrimPrefix v "==" in
    let v := TrimPrefix v "=" in
    let v := TrimSpace v in
    if String.eqb v "" then "0" else v.

(** The insertion sort that [sort.Slice] and [sort.Strings] run on
    slices of up to twelve elements: every element moves left while it is
    less than its left neighbour.  [racc] is the sorted prefix, right end
    first.  On longer slices Go runs a pattern-defeating quicksort, which
    returns the same slice whenever the keys are pairwise distinct or the
    slice is in order already; the statements below stay within these
    cases. *)
Fixpoint insertRev {A} (less : A -> A -> bool) (x : A) (racc : list A) : list A :=
  match racc with
  | [] => [x]
  | y :: r => if less x y then y :: insertRev less x r else x :: racc
  end.

Definition insertionSort {A} (less : A -> A -> bool) (l : list A) : list A :=
  rev (fold_left (fun racc x => insertRev less x racc) l []).

(** [sortedKeys]: the keys of a map are pairwise distinct, so the result
    does not depend on the order in which [range] yields them, nor on
    the sorting algorithm. *)
Definition sortedKeys (m : gmap string string) : list string :=
  insertionSort strLt (map fst (map_to_list m)).

Definition providesLine (m : gmap string string) (mod_ : string) : string :=
  let ver := goIndex m mod_ in
  let ver := if String.eqb ver "" then "undef" else ver in
  "      " +:+ mod_ +:+ " " +:+ ver +:+ nl.

Definition requirementsLine (m : gmap string string) (mod_ : string) : string :=
  let ver := normalizeVersion (goIndex m mod_) in
  "      " +:+ mod_ +:+ " " +:+ ver +:+ nl.

Definition concatStrings (l : list string) : string :=
  fold_right String.append "" l.

(** [emitDist]: the text written for one distribution.  The writer is
    taken to accept every write. *)
Definition emitDist (d : Dist) : string :=
  ("  " +:+ Name d +:+ nl)
  +:+ ("    pathname: " +:+ Pathname d +:+ nl)
  +:+ (if (0 <? size (Provides d))%nat
       then ("    provides:" +:+ nl)
            +:+ concatStrings (map (providesLine (Provides d)) (sortedKeys (Provides d)))
       else "")
  +:+ (if (0 <? size (Requirements d))%nat
       then ("    requirements:" +:+ nl)
            +:+ concatStrings (map (requirementsLine (Requirements d))
                                 (sortedKeys (Requirements d)))
       else "").

(** [Emitter.Emit]: sorts a copy of the slice by name and writes it. *)
Definition Emit (dists : list Dist) : string :=
  let sorted := insertionSort (fun a b => strLt (Name a) (Name b)) dists in
  header +:+ ("DISTRIBUTIONS" +:+ nl) +:+ concatStrings (map emitDist sorted).

(** *** The parser *)

(** [bufio.Scanner] with [ScanLines]: lines end at ["\n"], one trailing
    ["\r"] is dropped, a last line without ["\n"] counts when it is not
    empty, and a line of 65536 bytes or more does not fit the buffer
    ([bufio.ErrTooLong]). *)
Definition maxLine : Z := 65535.

Definition dropCRRev (rline : string) : string :=
  match rline with
  | String c r => if Ascii.eqb c "013" then String.rev r else String.rev rline
  | EmptyString => EmptyString
  end.

Fixpoint scanGo (cur : string) (s : string) : option (list string) :=
  match s with
  | EmptyString =>
      match cur with
      | EmptyString => Some []
      | _ => if maxLine <? Z.of_nat (String.length cur) then None
             else Some [dropCRRev cur]
      end
  | String c r =>
      if Ascii.eqb c "010" then
        if maxLine <? Z.of_nat (String.length cur) then None
        else cons (dropCRRev cur) <$> scanGo EmptyString r
      else scanGo (String c cur) r
  end.

Definition scanLines (input : string) : option (list string) :=
  scanGo EmptyString input.

(** The character class [\S] of Go's regexp: everything but
    [\t \n \f \r] and space. *)
Definition nonSpace (c : ascii) : bool :=
  let b := byte c in
  negb ((b =? 9) || (b =? 10) || (b =? 12) || (b =? 13) || (b =? 32)).

Fixpoint allNonSpace (s : string) : bool :=
  match s with
  | EmptyString => true
  | String c r => nonSpace c && allNonSpace r
  end.

(** [.+]: one or more bytes other than ["\n"]. *)
Definition dotPlus (s : string) : bool :=
  negb (String.eqb s "") && free "010" s.

(** The longest prefix of [\S] bytes and what follows it. *)
Fixpoint spanNonSpace (s : string) : string * string :=
  match s with
  | String c r =>
      if nonSpace c then let '(a, b) := spanNonSpace r in (String c a, b)
      else (EmptyString, s)
  | EmptyString => (EmptyString, EmptyString)
  end.

(** [distNameRe = ^  (\S+)$] *)
Definition distNameRe (line : string) : option string :=
  if HasPrefix line "  " then
    let name := sliceFrom 2 line in
    if negb (String.eqb name "") && allNonSpace name then Some name else None
  else None.

(** [pathnameRe = ^    pathname: (.+)$] *)
Definition pathnameRe (line : string) : option string :=
  if HasPrefix line "    pathname: " then
    let v := sliceFrom 14 line in
    if dotPlus v then Some v else None
  else None.

(** [providesRe = ^    provides:$] and [requiresRe = ^    requirements:$] *)
Definition providesRe (line : string) : bool := String.eqb line "    provides:".
Definition requiresRe (line : string) : bool := String.eqb line "    requirements:".

(** [moduleVerRe = ^      (\S+) (.+)$]: [\S+] cannot cross the space
    that must follow it, so the module is the longest run of [\S]. *)
Definition moduleVerRe (line : string) : option (string * string) :=
  if HasPrefix line "      " then
    let '(module, rest) := spanNonSpace (sliceFrom 6 line) in
    match module, rest with
    | String _ _, String c version =>
        if Ascii.eqb c " " && dotPlus version then Some (module, version) else None
    | _, _ => None
    end
  else None.

Record pstate := mkPstate {
  dists : list Dist;
  current : option Dist;
  inProvides : bool;
  inRequirements : bool
}.

Definition setPathname (d : Dist) (p : string) : Dist :=
  mkDist (Name d) p (Provides d) (Requirements d) (Source d).
Definition setProvides (d : Dist) (k v : string) : Dist :=
  mkDist (Name d) (Pathname d) (<[k := v]> (Provides d)) (Requirements d) (Source d).
Definition setRequirements (d : Dist) (k v : string) : Dist :=
  mkDist (Name d) (Pathname d) (Provides d) (<[k := v]> (Requirements d)) (Source d).

Definition flush (st : pstate) : list Dist :=
  match current st with
  | Some c => dists st ++ [c]
  | None => dists st
  end.

(** One round of the [for scanner.Scan()] loop. *)
Definition parseLine (st : pstate) (line : string) : pstate :=
  if HasPrefix line "#" || String.eqb line "DISTRIBUTIONS" then st
  else if String.eqb line "" then st
  else
    match distNameRe line with
    | Some name =>
        mkPstate (flush st) (Some (mkDist name "" ∅ ∅ "")) false false
    | None =>
        match current st with
        | None => st
        | Some cur =>
            match pathnameRe line with
            | Some p =>
                mkPstate (dists st) (Some (setPathname cur p))
                         (inProvides st) (inRequirements st)
            | None =>
                if providesRe line then mkPstate (dists st) (current st) true false
                else if requiresRe line then mkPstate (dists st) (current st) false true
                else
                  match moduleVerRe line with
                  | Some (module, version) =>
                      if inProvides st then
                        mkPstate (dists st) (Some (setProvides cur module version))
                                 (inProvides st) (inRequirements st)
                      else if inRequirements st then
                        mkPstate (dists st) (Some (setRequirements cur module version))
                                 (inProvides st) (inRequirements st)
                      else st
                  | None => st
                  end
            end
        end
    end.

(** [Parser.Parse]; [None] is the scanner's error. *)
Definition Parse (input : string) : option (list Dist) :=
  match scanLines input with
  | None => None
  | Some lines =>
      Some (flush (fold_left parseLine lines (mkPstate [] None false false)))
  end.

(** *** The constraint normalisation as the specification words it *)

Definition beforeComma (v : string) : string :=
  match Index v "," with
  | Some idx => sliceTo idx v
  | None => v
  end.

(** One leading operator out of [>=], [>], [==], [=]. *)
Definition stripOneOperator (v : string) : string :=
  if HasPrefix v ">=" then sliceFrom 2 v
  else if HasPrefix v ">" then sliceFrom 1 v
  else if HasPrefix v "==" then sliceFrom 2 v
  else if HasPrefix v "=" then sliceFrom 1 v
  else v.

Definition orZero (v : string) : string :=
  if String.eqb v "" then "0" else v.

Definition normalizedConstraint (C : string) : string :=
  orZero (TrimSpace (stripOneOperator (beforeComma (TrimSpace C)))).

(** The four prefixes removed one after the other, as the code does. *)
Definition stripOperators (v : string) : string :=
  TrimPrefix (TrimPrefix (TrimPrefix (TrimPrefix v ">=") ">") "==") "=".

Definition normalizedConstraintSeq (C : string) : string :=
  orZero (TrimSpace (stripOperators (beforeComma (TrimSpace C)))).

(** *** Well-formed snapshots *)

Definition endsWithCR (s : string) : bool := HasPrefix (String.rev s) (String "013" "").

(** A value that survives a line of the format: not empty, no line
    break inside, no carriage return at the end. *)
Definition valueOK (v : string) : bool :=
  negb (String.eqb v "") && free "010" v && negb (endsWithCR v).

(** A name or module key: not empty and free of [\s]. *)
Definition tokenOK (k : string) : bool :=
  negb (String.eqb k "") && allNonSpace k.

Definition providesOK (k v : string) : bool :=
  tokenOK k && valueOK v && (Z.of_nat (7 + String.length k + String.length v) <=? maxLine).

Definition requirementsOK (k c : string) : bool :=
  tokenOK k && valueOK c && String.eqb (normalizeVersion c) c
  && (Z.of_nat (7 + String.length k + String.length c) <=? maxLine).

Definition mapAll (P : string -> string -> bool) (m : gmap string string) : bool :=
  forallb (fun kv => P kv.1 kv.2) (map_to_list m).

(** A pathname that survives its line: no line break inside, no
    carriage return at the end.  It may be empty: no pattern of the
    parser matches the line of an empty pathname, and the field of the
    record stays empty. *)
Definition pathOK (p : string) : bool :=
  free "010" p && negb (endsWithCR p).

Definition distOK (d : Dist) : bool :=
  tokenOK (Name d) && (Z.of_nat (2 + String.length (Name d)) <=? maxLine)
  && pathOK (Pathname d) && (Z.of_nat (14 + String.length (Pathname d)) <=? maxLine)
  && mapAll providesOK (Provides d)
  && mapAll requirementsOK (Requirements d).

(** The record without its source tag, which the format does not hold. *)
Definition clearSource (d : Dist) : Dist :=
  mkDist (Name d) (Pathname d) (Provides d) (Requirements d) "".

(** Canonical order: names ascending. *)
Fixpoint sortedByName (l : list Dist) : bool :=
  match l with
  | a :: (b :: _) as t => negb (strLt (Name b) (Name a)) && sortedByName t
  | _ => true
  end.

(** *** The emitted text, line by line *)

Definition unlines (ls : list string) : string :=
  concatStrings (map (fun l => l +:+ nl) ls).

Definition providesValue (m : gmap string string) (k : string) : string :=
  let ver := goIndex m k in if String.eqb ver "" then "undef" else ver.

Definition sectionLines (title : string) (value : string -> string)
           (m : gmap string string) : list string :=
  if (0 <? size m)%nat
  then title :: map (fun k => "      " +:+ k +:+ " " +:+ value k) (sortedKeys m)
  else [].

Definition distLines (d : Dist) : list string :=
  ("  " +:+ Name d) :: ("    pathname: " +:+ Pathname d)
  :: sectionLines "    provides:" (providesValue (Provides d)) (Provides d)
  ++ sectionLines "    requirements:"
       (fun k => normalizeVersion (goIndex (Requirements d) k)) (Requirements d).

(** *** What the parser reads from the emitted text *)

(** A line as the scanner hands it back: one carriage return at the end
    is dropped. *)
Definition dropCR (l : string) : string := dropCRRev (String.rev l).

Definition fits (l : string) : bool := Z.of_nat (String.length l) <=? maxLine.

(** The value read from an entry line: nothing when only the key and
    the space are left of the line. *)
Definition readValue (v : string) : option string :=
  let v := dropCR v in
  if String.eqb v "" then None else Some v.

Definition readEntry (raw : string -> string) (acc : gmap string string) (k : string) :
  gmap string string :=
  match readValue (raw k) with
  | Some v => <[k := v]> acc
  | None => acc
  end.

(** The map read from a section that was written with [raw k] as the
    value of the key [k]. *)
Definition readSection (raw : string -> string) (m : gmap string string) :
  gmap string string :=
  fold_left (readEntry raw) (sortedKeys m) ∅.

(** The record read from the lines written for [d]. *)
Definition readBack (d : Dist) : Dist :=
  mkDist (Name d) (dropCR (Pathname d))
         (readSection (providesValue (Provides d)) (Provides d))
         (readSection (fun k => normalizeVersion (goIndex (Requirements d) k))
                      (Requirements d))
         "".

End Snapshot.

(* ===================================================================== *)
(** ** internal/extractor: metadata selection and flattening             *)
(* ===================================================================== *)

Module Extractor.

(** A value decoded into [interface{}].  A [float64] is carried as the
    text [fmt.Sprintf("%g", f)] gives for it; [VOther] stands for [nil],
    booleans, lists and nested maps. *)
Inductive value :=
| VString (s : string)
| VFloat64 (g : string)
| VInt (n : Z)
| VOther.

Definition versionString (v : value) : string :=
  match v with
  | VString val => val
  | VFloat64 g => g
  | VInt val => formatInt val
  | VOther => "0"
  end.

(** [phaseReqs[depType]]: only a map passes the type assertion
    [deps.(map[string]interface{})]. *)
Inductive deps :=
| DepMap (reqMap : gmap string value)
| DepOther.

Record ProvidesEntry := mkProvidesEntry { File : string; EntryVersion : string }.

(** [MetaFile]; [FlexVersion] fields hold the string they decode to. *)
Record MetaFile := mkMetaFile {
  Name : string;
  Version : string;
  Provides : gmap string ProvidesEntry;
  Prereqs : gmap string (gmap string deps);
  Requirements : gmap string string;
  AlienShare : gmap string value;
  AlienSystem : gmap string value;
  Requires : gmap string value;
  BuildRequires : gmap string value;
  ConfigureRequires : gmap string value
}.

(** *** [flattenPrereqs] *)

(** The body of every [for mod, ver := range ...] loop. *)
Definition rangeStep (reqs : gmap string string) (kv : string * value) : gmap string string :=
  if String.eqb (goIndex reqs kv.1) "" then <[kv.1 := versionString kv.2]> reqs
  else reqs.

(** One [range] loop; [seq] lists the entries in the order in which
    [range] yields them, which Go leaves unspecified. *)
Definition rangeInto (reqs : gmap string string) (seq : list (string * value)) :
  gmap string string :=
  fold_left rangeStep seq reqs.

Definition phases : list string := ["runtime"; "configure"; "build"].
Definition depTypes : list string := ["requires"; "recommends"; "suggests"].

(** The maps the nested [prereqs] loops range over, in program order. *)
Definition prereqMaps (meta : MetaFile) : list (gmap string value) :=
  flat_map (fun phase =>
              match Prereqs meta !! phase with
              | Some phaseReqs =>
                  flat_map (fun depType =>
                              match phaseReqs !! depType with
                              | Some (DepMap reqMap) => [reqMap]
                              | _ => []
                              end) depTypes
              | None => []
              end) phases.

(** All maps [flattenPrereqs] ranges over, in program order. *)
Definition sources (meta : MetaFile) : list (gmap string value) :=
  prereqMaps meta
  ++ [Requires meta; BuildRequires meta; ConfigureRequires meta;
      AlienShare meta; AlienSystem meta].

(** The loops run over the entry sequences [seqs], one per source. *)
Definition flattenSeqs (seqs : list (list (string * value))) : gmap string string :=
  fold_left rangeInto seqs ∅.

Definition setRequirements (meta : MetaFile) (reqs : gmap string string) : MetaFile :=
  mkMetaFile (Name meta) (Version meta) (Provides meta) (Prereqs meta) reqs
             (AlienShare meta) (AlienSystem meta)
             (Requires meta) (BuildRequires meta) (ConfigureRequires meta).

(** [flattenPrereqs], given the order [range] picks for each map. *)
Definition flattenPrereqs (range : gmap string value -> list (string * value))
           (meta : MetaFile) : MetaFile :=
  setRequirements meta (flattenSeqs (map range (sources meta))).

(** *** The flattening as the specification words it *)

(** Union of the rendered sources, the first writer of a key winning. *)
Definition unionFirstWriter (meta : MetaFile) : gmap string string :=
  ⋃ (map (fun m : gmap string value => versionString <$> m) (sources meta)).

(** What the sources write for [mod_], in program order. *)
Definition writes (mod_ : string) (srcs : list (gmap string value)) : list string :=
  omap (fun m => versionString <$> m !! mod_) srcs.

Definition nonEmpty (s : string) : bool := negb (String.eqb s "").

(** The first non-empty value written, ["" ] if every written value is
    empty, nothing if no source has the key. *)
Definition firstNonEmpty (ws : list string) : option string :=
  match ws with
  | [] => None
  | _ => Some (hd "" (List.filter nonEmpty ws))
  end.

(** No source writes an empty version string. *)
Definition noEmptyWrites (meta : MetaFile) : bool :=
  forallb (fun m : gmap string value =>
             forallb (fun kv => nonEmpty (versionString kv.2)) (map_to_list m))
          (sources meta).

(** *** Reading the tarball *)

Inductive result (A : Type) :=
| Ok (a : A)
| Err (msg : string).
Arguments Ok {A} a.
Arguments Err {A} msg.

(** One tar entry: the header name and what [io.ReadAll] returns for
    its content ([None]: the read fails). *)
Record TarEntry := mkEntry { EntryName : string; EntryData : option string }.

(** How [tarReader.Next] ends: [io.EOF] or another error. *)
Inductive TarEnd := TarEOF | TarBroken.

Record Scan := mkScan {
  metaJSON : option string;
  metaYML : option string;
  mymetaJSON : option string;
  mymetaYML : option string;
  hasMakefilePL : bool;
  hasBuildPL : bool
}.

Definition emptyScan : Scan := mkScan None None None None false false.

(** One round of the scanning loop of [extractMeta]. *)
Definition scanEntry (sc : Scan) (e : TarEntry) : result Scan :=
  let name := Base (EntryName e) in
  let parts := Split (EntryName e) "/" in
  if negb (length parts =? 2)%nat then Ok sc
  else if String.eqb name "META.json" then
    match EntryData e with
    | Some data => Ok (mkScan (Some data) (metaYML sc) (mymetaJSON sc) (mymetaYML sc)
                              (hasMakefilePL sc) (hasBuildPL sc))
    | None => Err "reading META.json"
    end
  else if String.eqb name "META.yml" then
    match EntryData e with
    | Some data => Ok (mkScan (metaJSON sc) (Some data) (mymetaJSON sc) (mymetaYML sc)
                              (hasMakefilePL sc) (hasBuildPL sc))
    | None => Err "reading META.yml"
    end
  else if String.eqb name "MYMETA.json" then
    match EntryData e with
    | Some data => Ok (mkScan (metaJSON sc) (metaYML sc) (Some data) (mymetaYML sc)
                              (hasMakefilePL sc) (hasBuildPL sc))
    | None => Err "reading MYMETA.json"
    end
  else if String.eqb name "MYMETA.yml" then
    match EntryData e with
    | Some data => Ok (mkScan (metaJSON sc) (metaYML sc) (mymetaJSON sc) (Some data)
                              (hasMakefilePL sc) (hasBuildPL sc))
    | None => Err "reading MYMETA.yml"
    end
  else if String.eqb name "Makefile.PL" then
    Ok (mkScan (metaJSON sc) (metaYML sc) (mymetaJSON sc) (mymetaYML sc)
               true (hasBuildPL sc))
  else if String.eqb name "Build.PL" then
    Ok (mkScan (metaJSON sc) (metaYML sc) (mymetaJSON sc) (mymetaYML sc)
               (hasMakefilePL sc) true)
  else Ok sc.

Fixpoint scanEntries (sc : Scan) (entries : list TarEntry) (fin : TarEnd) : result Scan :=
  match entries with
  | [] => match fin with
          | TarEOF => Ok sc
          | TarBroken => Err "reading tarball"
          end
  | e :: rest =>
      match scanEntry sc e with
      | Ok sc' => scanEntries sc' rest fin
      | Err msg => Err msg
      end
  end.

(** *** The configure step *)

(** An [exec.Cmd]: program, arguments, working directory. *)
Record Cmd := mkCmd { Path : string; Args : list string; Dir : string }.

(** The extractor's surroundings: the file system, the two decoders and
    the subprocess. *)
Record World := mkWorld {
  (** [os.Open] and [gzip.NewReader] on the tarball, then its entries *)
  openTarball : string -> result (list TarEntry * TarEnd);
  (** [json.Unmarshal] / [yaml.Unmarshal] into a [MetaFile] *)
  unmarshalJSON : string -> option MetaFile;
  unmarshalYAML : string -> option MetaFile;
  (** the order of the [range] loops *)
  range : gmap string value -> list (string * value);
  (** [os.MkdirTemp] *)
  mkdirTemp : option string;
  (** [extractTarball tarballPath destDir]: the unpacked directory *)
  extractTarball : string -> string -> option string;
  (** [cmd.Run] succeeds *)
  run : Cmd -> bool;
  (** [os.ReadFile(filepath.Join(dir, name))] *)
  readFile : string -> string -> option string
}.

(** [Extractor]: the Docker image, empty for the host. *)
Record Extractor := mkExtractor { dockerImage : string }.

Definition parseJSON (w : World) (data : string) : result MetaFile :=
  match unmarshalJSON w data with
  | Some meta => Ok (flattenPrereqs (range w) meta)
  | None => Err "parsing META.json"
  end.

Definition parseYAML (w : World) (data : string) : result MetaFile :=
  match unmarshalYAML w data with
  | Some meta => Ok (flattenPrereqs (range w) meta)
  | None => Err "parsing META.yml"
  end.

Definition configScriptFor (hasMakefilePL : bool) : string :=
  if hasMakefilePL then "Makefile.PL" else "Build.PL".

Definition configureCmd (e : Extractor) (distDir configScript : string) : Cmd :=
  if negb (String.eqb (dockerImage e) "") then
    mkCmd "docker" ["run"; "--rm"; "-v"; distDir +:+ ":/work"; "-w"; "/work";
                    dockerImage e; "perl"; configScript] ""
  else mkCmd "perl" [configScript] distDir.

(** [runConfigure]: the result and the commands that were run. *)
Definition runConfigure (w : World) (e : Extractor) (tarballPath : string)
           (hasMakefilePL : bool) : result MetaFile * list Cmd :=
  match mkdirTemp w with
  | None => (Err "creating temp dir", [])
  | Some tmpDir =>
      match extractTarball w tarballPath tmpDir with
      | None => (Err "extracting tarball", [])
      | Some distDir =>
          let configScript := configScriptFor hasMakefilePL in
          let cmd := configureCmd e distDir configScript in
          if negb (run w cmd) then (Err "running configure", [cmd])
          else
            match readFile w distDir "MYMETA.json" with
            | Some data => (parseJSON w data, [cmd])
            | None =>
                match readFile w distDir "MYMETA.yml" with
                | Some data => (parseYAML w data, [cmd])
                | None => (Err "no MYMETA file generated", [cmd])
                end
            end
      end
  end.

(** The fallback of [extractMeta]: META.json, then META.yml. *)
Definition staticMeta (w : World) (sc : Scan) : result MetaFile :=
  match metaJSON sc with
  | Some data => parseJSON w data
  | None =>
      match metaYML sc with
      | Some data => parseYAML w data
      | None => Err "no META.json or META.yml found in tarball"
      end
  end.

(** [extractMeta]: the result and the commands that were run. *)
Definition extractMeta (w : World) (e : Extractor) (tarballPath : string)
           (withConfigure : bool) : result MetaFile * list Cmd :=
  match openTarball w tarballPath with
  | Err msg => (Err msg, [])
  | Ok (entries, fin) =>
      match scanEntries emptyScan entries fin with
      | Err msg => (Err msg, [])
      | Ok sc =>
          if withConfigure then
            match mymetaJSON sc with
            | Some data => (parseJSON w data, [])
            | None =>
                match mymetaYML sc with
                | Some data => (parseYAML w data, [])
                | None =>
                    if hasMakefilePL sc || hasBuildPL sc then
                      match runConfigure w e tarballPath (hasMakefilePL sc) with
                      | (Ok meta, cmds) => (Ok meta, cmds)
                      | (Err _, cmds) => (staticMeta w sc, cmds)
                      end
                    else (staticMeta w sc, [])
                end
            end
          else (staticMeta w sc, [])
      end
  end.

Definition Extract (w : World) (e : Extractor) (tarballPath : string) :=
  extractMeta w e tarballPath false.

Definition ExtractWithConfigure (w : World) (e : Extractor) (tarballPath : string) :=
  extractMeta w e tarballPath true.

(** The tarball holds a top-level file [name]: an entry one directory
    deep whose base name is [name]. *)
Definition topLevel (name : string) (e : TarEntry) : bool :=
  (length (Split (EntryName e) "/") =? 2)%nat && String.eqb (Base (EntryName e)) name.

Definition contains (entries : list TarEntry) (name : string) : bool :=
  existsb (topLevel name) entries.

Definition present (o : option string) : bool :=
  match o with Some _ => true | None => false end.

(** The script a configure command runs: its last argument. *)
Definition scriptOf (c : Cmd) : string := List.last (Args c) "".

End Extractor.

(* ===================================================================== *)
(** ** internal/downloader: [downloadOne]                                *)
(* ===================================================================== *)

Module Downloader.

Record Job := mkJob { URL : string; DestPath : string; Source : string }.

(** What a download can change: the regular files on disk, by path, and
    the HTTP requests issued so far, oldest first. *)
Record State := mkState {
  files : gmap string string;
  requests : list string
}.

(** The answer of [client.Get]: a transport error, or a response with
    its status and body; [copied] tells whether [io.Copy] of the body to
    the temporary file succeeds. *)
Inductive Response :=
| TransportError
| Reply (status : Z) (body : string) (copied : bool).

(** The surroundings: existing directories, the server, and which file
    operations succeed. *)
Record World := mkWorld {
  isDir : string -> bool;
  (** [os.MkdirAll(filepath.Dir(dest), 0755)] succeeds for [dest] *)
  mkdirAllParent : string -> bool;
  (** [client.Get url], after the requests made so far *)
  get : list string -> string -> Response;
  (** [os.Create path] succeeds *)
  create : string -> bool;
  (** [os.Rename old new] succeeds *)
  rename : string -> string -> bool
}.

(** [os.Stat path] returns no error: a file or a directory is there. *)
Definition statOK (w : World) (st : State) (path : string) : bool :=
  match files st !! path with
  | Some _ => true
  | None => isDir w path
  end.

(** [downloadOne]: the error ([None] for [nil]) and the state after. *)
Definition downloadOne (w : World) (st : State) (job : Job) : option string * State :=
  if statOK w st (DestPath job) then (None, st)
  else if negb (mkdirAllParent w (DestPath job)) then (Some "creating directory", st)
  else
    let st1 := mkState (files st) (requests st ++ [URL job]) in
    match get w (requests st) (URL job) with
    | TransportError => (Some "downloading", st1)
    | Reply status body copied =>
        if negb (status =? 200) then (Some "downloading: HTTP status", st1)
        else
          let tmpPath := DestPath job +:+ ".tmp" in
          if negb (create w tmpPath) then (Some "creating file", st1)
          else if negb copied then
            (Some "writing file", mkState (delete tmpPath (files st1)) (requests st1))
          else if negb (rename w tmpPath (DestPath job)) then
            (Some "renaming file", mkState (delete tmpPath (files st1)) (requests st1))
          else
            (None, mkState (<[DestPath job := body]> (delete tmpPath (files st1)))
                           (requests st1))
    end.

End Downloader.

(* ===================================================================== *)
(** ** internal/resolver/resolver.go: the resolver                       *)
(* ===================================================================== *)

Module Resolver.

(** [dist.CPANIndex], an entry of 02packages.details.txt *)
Record CPANIndex := mkCPANIndex {
  IndexModule : string;
  IndexVersion : string;
  IndexPathname : string
}.

(** [index.BackPANResult] *)
Record BackPANResult := mkBackPANResult {
  DownloadURL : string;
  ResultVersion : string;
  Status : string
}.

(** The keys of [coreModules]. *)
Definition coreModules : list string :=
  [
    "perl"; "strict"; "warnings"; "utf8"; "base"; "parent"; "constant";
    "overload"; "lib"; "vars"; "integer"; "bytes"; "feature"; "if"; "mro";
    "re"; "locale"; "open"; "subs"; "fields"; "bignum"; "bigint"; "bigrat";
    "AnyDBM_File"; "AutoLoader"; "AutoSplit"; "B"; "B::Deparse";
    "Benchmark"; "Carp"; "Carp::Heavy"; "Class::Struct"; "Config";
    "Config::Extensions"; "Cwd"; "DB"; "DBM_Filter"; "Data::Dumper";
    "Devel::Peek"; "Devel::SelfStubber"; "Digest"; "Digest::MD5";
    "DirHandle"; "Dumpvalue"; "DynaLoader"; "Encode"; "Encode::Alias";
    "Encode::Config"; "Encode::Encoding"; "Encode::Guess";
    "Encode::MIME::Header"; "English"; "Env"; "Errno"; "Exporter";
    "Exporter::Heavy"; "ExtUtils::Constant"; "ExtUtils::Embed";
    "ExtUtils::Install"; "ExtUtils::Installed"; "ExtUtils::Liblist";
    "ExtUtils::MM"; "ExtUtils::MM_Any"; "ExtUtils::MM_Unix"; "ExtUtils::MY";
    "ExtUtils::Manifest"; "ExtUtils::Miniperl"; "ExtUtils::Mkbootstrap";
    "ExtUtils::Mksymlists"; "ExtUtils::Packlist"; "ExtUtils::testlib";
    "Fcntl"; "File::Basename"; "File::Compare"; "File::Copy";
    "File::DosGlob"; "File::Find"; "File::Glob"; "File::Path"; "File::Spec";
    "File::Spec::Functions"; "File::Spec::Unix"; "File::Stat"; "File::stat";
    "File::Temp"; "FileCache"; "FileHandle"; "Filter::Simple";
    "Filter::Util::Call"; "FindBin"; "GDBM_File"; "Getopt::Long";
    "Getopt::Std"; "Hash::Util"; "Hash::Util::FieldHash"; "I18N::Collate";
    "I18N::LangTags"; "I18N::Langinfo"; "IO"; "IO::Dir"; "IO::File";
    "IO::Handle"; "IO::Pipe"; "IO::Poll"; "IO::Seekable"; "IO::Select";
    "IO::Socket"; "IO::Socket::INET"; "IO::Socket::UNIX"; "IPC::Cmd";
    "IPC::Msg"; "IPC::Open2"; "IPC::Open3"; "IPC::Semaphore";
    "IPC::SharedMem"; "IPC::SysV"; "List::Util"; "List::Util::XS";
    "Locale::Maketext"; "MIME::Base64"; "MIME::QuotedPrint";
    "Math::BigFloat"; "Math::BigInt"; "Math::BigRat"; "Math::Complex";
    "Math::Trig"; "Memoize"; "NDBM_File"; "Net::Cmd"; "Net::Config";
    "Net::Domain"; "Net::FTP"; "Net::NNTP"; "Net::Netrc"; "Net::POP3";
    "Net::Ping"; "Net::SMTP"; "Net::Time"; "Net::hostent"; "Net::netent";
    "Net::protoent"; "Net::servent"; "O"; "Opcode"; "ODBM_File";
    "OS2::Process"; "PerlIO"; "PerlIO::encoding"; "PerlIO::scalar";
    "PerlIO::via"; "PerlIO::via::QuotedPrint"; "Pod::Checker"; "Pod::Find";
    "Pod::Functions"; "Pod::Html"; "Pod::InputObjects"; "Pod::Man";
    "Pod::ParseLink"; "Pod::ParseUtils"; "Pod::Parser"; "Pod::Perldoc";
    "Pod::PlainText"; "Pod::Select"; "Pod::Simple"; "Pod::Text";
    "Pod::Usage"; "POSIX"; "SDBM_File"; "Safe"; "Scalar::Util";
    "Search::Dict"; "SelectSaver"; "SelfLoader"; "Socket"; "Storable";
    "Sub::Util"; "Symbol"; "Sys::Hostname"; "Sys::Syslog";
    "Term::ANSIColor"; "Term::Cap"; "Term::Complete"; "Term::ReadLine";
    "Test"; "Test::Builder"; "Test::Builder::Module";
    "Test::Builder::Tester"; "Test::Harness"; "Test::More"; "Test::Simple";
    "Text::Abbrev"; "Text::Balanced"; "Text::ParseWords"; "Text::Tabs";
    "Text::Wrap"; "Thread"; "Thread::Queue"; "Thread::Semaphore";
    "Tie::Array"; "Tie::File"; "Tie::Handle"; "Tie::Hash"; "Tie::Memoize";
    "Tie::RefHash"; "Tie::Scalar"; "Tie::StdHandle"; "Tie::SubstrHash";
    "Time::HiRes"; "Time::Local"; "Time::Piece"; "Time::Seconds";
    "Time::gmtime"; "Time::localtime"; "Time::tm"; "UNIVERSAL";
    "Unicode::Collate"; "Unicode::Normalize"; "Unicode::UCD"; "User::grent";
    "User::pwent"; "XSLoader"; "version"; "threads"; "threads::shared";
    "encoding"; "encoding::warnings"
  ].

Definition isCore (module : string) : bool :=
  existsb (String.eqb module) coreModules.

Definition extractPathname (url : string) : string :=
  match Index url "/authors/id/" with
  | Some idx => sliceFrom (idx + String.length "/authors/id/") url
  | None => List.last (Split url "/") ""
  end.

Definition distNameFromPath (pathname : string) : string :=
  let base := Base pathname in
  let base := TrimSuffix base ".tar.gz" in
  TrimSuffix base ".tgz".

(** The resolver's collaborators.  Calls that reach the network or the
    disk are indexed by the number of the [resolveOne] call that makes
    them, so that their answers may change from one call to the next. *)
Record World := mkWorld {
  (** [cpanIndex.modules], loaded before [Resolve] *)
  cpanModules : gmap string CPANIndex;
  (** [cpanIndex.Mirror()] *)
  mirror : string;
  (** [backpan.Lookup(module, version)]; [None] is the error *)
  backpanLookup : nat -> string -> string -> option BackPANResult;
  (** [backpan.LocalPath(downloadURL)] *)
  localPath : string -> string;
  (** [downloader.CachePath(pathname)] *)
  cachePath : string -> string;
  (** [downloader.Download] of the one job: [results[0].Error == nil] *)
  download : nat -> Downloader.Job -> bool;
  (** [extractor.ExtractWithConfigure(destPath)]; [None] is the error *)
  extractWithConfigure : nat -> string -> option Extractor.MetaFile;
  (** the order in which [range d.Requirements] yields the entries *)
  rangeRequirements : nat -> gmap string string -> list (string * string)
}.

(** [Resolver]: the two maps, and the number of [resolveOne] calls
    that have passed the guards. *)
Record State := mkState {
  resolved : gmap string Dist;
  resolving : gset string;
  calls : nat
}.

(** [NewResolver] *)
Definition newState : State := mkState ∅ ∅ 0.

(** [error]: [nil] or not. *)
Inductive outcome :=
| Success
| Failure (msg : string).

(** Step 2 of [resolveOne]: bound, and the bound version satisfies. *)
Definition alreadyResolved (st : State) (module version : string) : bool :=
  match resolved st !! module with
  | Some d => satisfies (goIndex (Provides d) module) version
  | None => false
  end.

(** What source selection settles: URL, pathname and source tag. *)
Record Selection := mkSelection {
  SelURL : string;
  SelPathname : string;
  SelSource : string
}.

(** CPAN first, BackPAN as the fallback. *)
Definition selectSource (w : World) (call : nat) (module version : string) :
  option Selection :=
  match cpanModules w !! module with
  | Some entry =>
      if satisfies (IndexVersion entry) version then
        Some (mkSelection (mirror w +:+ "/authors/id/" +:+ IndexPathname entry)
                          (IndexPathname entry) "cpan")
      else
        match backpanLookup w call module version with
        | Some result =>
            Some (mkSelection (DownloadURL result)
                              (extractPathname (DownloadURL result)) "backpan")
        | None => None
        end
  | None =>
      match backpanLookup w call module version with
      | Some result =>
          Some (mkSelection (DownloadURL result)
                            (extractPathname (DownloadURL result)) "backpan")
      | None => None
      end
  end.

Definition destPathOf (w : World) (sel : Selection) : string :=
  if String.eqb (SelSource sel) "cpan" then cachePath w (SelPathname sel)
  else localPath w (SelURL sel).

Definition jobOf (w : World) (sel : Selection) : Downloader.Job :=
  Downloader.mkJob (SelURL sel) (destPathOf w sel) (SelSource sel).

(** The metadata used when extraction fails. *)
Definition minimalMeta (module version pathname : string) : Extractor.MetaFile :=
  Extractor.mkMetaFile (distNameFromPath pathname) ""
    {[ module := Extractor.mkProvidesEntry "" version ]} ∅ ∅ ∅ ∅ ∅ ∅ ∅.

Definition metaOf (w : World) (call : nat) (module version : string) (sel : Selection) :
  Extractor.MetaFile :=
  match extractWithConfigure w call (destPathOf w sel) with
  | Some meta => meta
  | None => minimalMeta module version (SelPathname sel)
  end.

(** The record built from the metadata; the main module is added to its
    provides if the metadata does not list it. *)
Definition buildDist (module : string) (sel : Selection) (meta : Extractor.MetaFile) : Dist :=
  let provides := Extractor.EntryVersion <$> Extractor.Provides meta in
  let provides := match provides !! module with
                  | Some _ => provides
                  | None => <[module := Extractor.Version meta]> provides
                  end in
  mkDist (distNameFromPath (SelPathname sel)) (SelPathname sel) provides
         (Extractor.Requirements meta) (SelSource sel).

(** [for mod := range d.Provides { if _, exists := r.resolved[mod];
    !exists { r.resolved[mod] = d } }].  Every key is bound at most once,
    and to [d], so the order of the keys does not matter. *)
Definition bindProvided (d : Dist) (res : gmap string Dist) : gmap string Dist :=
  fold_left (fun acc mod_ => match acc !! mod_ with
                             | Some _ => acc
                             | None => <[mod_ := d]> acc
                             end)
            (map fst (map_to_list (Provides d))) res.

(** Step 9: the record is bound to the main module, then to every
    provided module that is not bound yet. *)
Definition bindRecord (module : string) (d : Dist) (res : gmap string Dist) :
  gmap string Dist :=
  bindProvided d (<[module := d]> res).

(** The loop over the requirements, and the loop of [Resolve]: stop at
    the first error.  [None] means the recursion budget is used up. *)
Definition resolveEach (rec : State -> string -> string -> option (outcome * State)) :
  list (string * string) -> State -> option (outcome * State) :=
  fix go (reqs : list (string * string)) (st : State) :=
    match reqs with
    | [] => Some (Success, st)
    | (module, version) :: rest =>
        match rec st module version with
        | None => None
        | Some (Failure msg, st') => Some (Failure msg, st')
        | Some (Success, st') => go rest st'
        end
    end.

(** [defer func() { delete(r.resolving, module) }()] *)
Definition release (module : string) (st : State) : State :=
  mkState (resolved st) (resolving st ∖ {[ module ]}) (calls st).

(** [resolveOne].  [fuel] bounds the depth of the recursion. *)
Fixpoint resolveOne (fuel : nat) (w : World) (st : State) (module version : string)
  : option (outcome * State) :=
  match fuel with
  | O => None
  | S fuel' =>
      if isCore module then Some (Success, st)
      else if alreadyResolved st module version then Some (Success, st)
      else if bool_decide (module ∈ resolving st) then Some (Success, st)
      else
        let call := calls st in
        let st := mkState (resolved st) ({[ module ]} ∪ resolving st) (S call) in
        match selectSource w call module version with
        | None => Some (Failure ("resolving " +:+ module), release module st)
        | Some sel =>
            if negb (download w call (jobOf w sel)) then
              Some (Failure ("downloading " +:+ module), release module st)
            else
              let meta := metaOf w call module version sel in
              let d := buildDist module sel meta in
              let st := mkState (bindRecord module d (resolved st))
                                (resolving st) (calls st) in
              match resolveEach (resolveOne fuel' w)
                                (rangeRequirements w call (Requirements d)) st with
              | None => None
              | Some (out, st') => Some (out, release module st')
              end
        end
  end.

(** [Resolve]: the records bound in [resolved], one per key, or the
    first error. *)
Definition Resolve (fuel : nat) (w : World) (reqs : list VersionReq)
  : option (option (list Dist) * State) :=
  match resolveEach (resolveOne fuel w)
                    (map (fun r => (Module_ r, Version_ r)) reqs) newState with
  | None => None
  | Some (Failure _, st) => Some (None, st)
  | Some (Success, st) => Some (Some (map snd (map_to_list (resolved st))), st)
  end.

(** *** Invariants of the resolved map *)

(** Every key is provided by the record it is bound to. *)
Definition keysProvided (res : gmap string Dist) : Prop :=
  forall M R, res !! M = Some R -> is_Some (Provides R !! M).

(** No key is a core module. *)
Definition noCoreKey (res : gmap string Dist) : Prop :=
  forall M, isCore M = true -> res !! M = None.

(** The extractor never reports a core module among the provides. *)
Definition providesNoCore (w : World) : Prop :=
  forall call path meta M,
    extractWithConfigure w call path = Some meta ->
    isCore M = true -> Extractor.Provides meta !! M = None.

End Resolver.

(* ===================================================================== *)
(** ** internal/cpanfile: the cpanfile parser                            *)
(* ===================================================================== *)

Module Cpanfile.

(** The constants of [dist.Phase], a string type *)
Definition PhaseRuntime : string := "runtime".
Definition PhaseTest : string := "test".
Definition PhaseDevelop : string := "develop".
Definition PhaseBuild : string := "build".

(** *** The three regular expressions

    Every repetition in them is followed by a byte outside its class, so
    the leftmost-first match takes the longest run at each repetition and
    never has to give bytes back. *)

(** [\s] of Go's regexp: [\t\n\f\r ] *)
Definition reSpace (c : ascii) : bool :=
  let b := byte c in
  (b =? 9) || (b =? 10) || (b =? 12) || (b =? 13) || (b =? 32).

(** [\w] of Go's regexp: [0-9A-Za-z_] *)
Definition reWord (c : ascii) : bool :=
  let b := byte c in
  ((48 <=? b) && (b <=? 57)) || ((65 <=? b) && (b <=? 90))
  || ((97 <=? b) && (b <=? 122)) || (b =? 95).

(** The class written Q below: the single and the double quote
    character (bytes 39 and 34). *)
Definition reQuote (c : ascii) : bool :=
  let b := byte c in (b =? 39) || (b =? 34).

Definition notQuote (c : ascii) : bool := negb (reQuote c).

(** The longest prefix of bytes in the class [p], and what follows it. *)
Fixpoint span (p : ascii -> bool) (s : string) : string * string :=
  match s with
  | String c r =>
      if p c then let '(a, b) := span p r in (String c a, b)
      else (EmptyString, s)
  | EmptyString => (EmptyString, EmptyString)
  end.

(** Every byte of [s] is in the class [p]. *)
Fixpoint every (p : ascii -> bool) (s : string) : bool :=
  match s with
  | String c r => p c && every p r
  | EmptyString => true
  end.

(** [x*]: what follows the longest run of [p]. *)
Definition star (p : ascii -> bool) (s : string) : string := (span p s).2.

(** [x+]: the longest run of [p], which must not be empty, and the rest. *)
Definition plus (p : ascii -> bool) (s : string) : option (string * string) :=
  match span p s with
  | (String c a, rest) => Some (String c a, rest)
  | (EmptyString, _) => None
  end.

(** A literal at the start of [s]; the rest after it. *)
Definition lit (l s : string) : option string :=
  if HasPrefix s l then Some (sliceFrom (String.length l) s) else None.

(** [Q]: one quote character. *)
Definition oneQuote (s : string) : option string :=
  match s with
  | String c r => if reQuote c then Some r else None
  | EmptyString => None
  end.

(** [Q(x+)Q]: the group and the rest of the line. *)
Definition quoted (p : ascii -> bool) (s : string) : option (string * string) :=
  s ← oneQuote s;
  '(group, s) ← plus p s;
  s ← oneQuote s;
  Some (group, s).

(** [requiresRe = ^\s*requires\s+Q([^Q]+)Q(?:\s*,\s*Q([^Q]+)Q)?]:
    the two groups; the second is empty when the optional part does not
    match. *)
Definition requiresRe (line : string) : option (string * string) :=
  s ← lit "requires" (star reSpace line);
  '(_, s) ← plus reSpace s;
  '(module, s) ← quoted notQuote s;
  match lit "," (star reSpace s) ≫= (fun t => quoted notQuote (star reSpace t)) with
  | Some (version, _) => Some (module, version)
  | None => Some (module, "")
  end.

(** [onBlockRe = ^\s*on\s+Q(\w+)Q\s*=>\s*sub\s*\{]: the group. *)
Definition onBlockRe (line : string) : option string :=
  s ← lit "on" (star reSpace line);
  '(_, s) ← plus reSpace s;
  '(phase, s) ← quoted reWord s;
  s ← lit "=>" (star reSpace s);
  s ← lit "sub" (star reSpace s);
  _ ← lit "{" (star reSpace s);
  Some phase.

(** [closeRe = ^\s*\}] *)
Definition closeRe (line : string) : bool :=
  HasPrefix (star reSpace line) "}".

(** *** [parsePhase] *)

(** [strings.ToLower] on ASCII text; [parsePhase] only receives a match
    of [\w+]. *)
Definition lowerByte (c : ascii) : ascii :=
  let b := byte c in
  if (65 <=? b) && (b <=? 90) then ascii_of_N (Z.to_N (b + 32)) else c.

Fixpoint ToLower (s : string) : string :=
  match s with
  | String c r => String (lowerByte c) (ToLower r)
  | EmptyString => EmptyString
  end.

Definition parsePhase (s : string) : string :=
  let l := ToLower s in
  if String.eqb l "test" then PhaseTest
  else if String.eqb l "develop" then PhaseDevelop
  else if String.eqb l "build" then PhaseBuild
  else PhaseRuntime.

(** *** [Parser.Parse] *)

(** [NewParseResult]: the empty table from phase to requirements *)
Definition NewParseResult : gmap string (list VersionReq) := ∅.

(** [m[phase]] on the result: [nil] for a phase without entry. *)
Definition reqsOf (m : gmap string (list VersionReq)) (phase : string) :
  list VersionReq :=
  default [] (m !! phase).

Record pstate := mkPstate {
  result : gmap string (list VersionReq);
  currentPhase : string;
  inBlock : bool
}.

(** The guard at the head of the loop: blank lines and comments. *)
Definition skipped (line : string) : bool :=
  let trimmed := TrimSpace line in
  String.eqb trimmed "" || HasPrefix trimmed "#".

(** The requirement a [requires] statement states; the version is ["0"]
    when the statement gives none. *)
Definition requirementOf (line : string) : option VersionReq :=
  match requiresRe line with
  | Some (module, v) => Some (mkReq module (if String.eqb v "" then "0" else v))
  | None => None
  end.

(** One round of the [for scanner.Scan()] loop. *)
Definition parseLine (st : pstate) (line : string) : pstate :=
  if skipped line then st
  else
    match onBlockRe line with
    | Some phase => mkPstate (result st) (parsePhase phase) true
    | None =>
        if inBlock st && closeRe line then mkPstate (result st) PhaseRuntime false
        else
          match requirementOf line with
          | Some req =>
              mkPstate (<[currentPhase st :=
                            reqsOf (result st) (currentPhase st) ++ [req]]> (result st))
                       (currentPhase st) (inBlock st)
          | None => st
          end
    end.

Definition parseLines (lines : list string) : gmap string (list VersionReq) :=
  result (fold_left parseLine lines (mkPstate NewParseResult PhaseRuntime false)).

(** [Parse]: [readFile] gives the content of the file at a path, if it
    can be opened. *)
Definition Parse (readFile : string -> option string) (path : string) :
  Extractor.result (gmap string (list VersionReq)) :=
  match readFile path with
  | None => Extractor.Err "opening cpanfile"
  | Some content =>
      match Snapshot.scanLines content with
      | None => Extractor.Err "reading cpanfile"
      | Some lines => Extractor.Ok (parseLines lines)
      end
  end.

(** The lines that neither open nor close a block. *)
Definition plain (line : string) : bool :=
  match onBlockRe line with
  | Some _ => false
  | None => negb (closeRe line)
  end.

(** The requirements stated by a list of lines, in file order. *)
Definition stated (lines : list string) : list VersionReq :=
  omap requirementOf lines.

(** All entries of a result, phase after phase. *)
Definition total (m : gmap string (list VersionReq)) : list VersionReq :=
  concat (map snd (map_to_list m)).

End Cpanfile.

(* ===================================================================== *)
(** ** internal/index: the CPAN index                                    *)
(* ===================================================================== *)

Module Index.

(** [strings.Fields]: the maximal runs of bytes between white-space
    runes, as [unicode.IsSpace] has them.  No white-space rune starts
    inside the encoding of another rune, so the string is walked byte by
    byte; [cur] is the field under way, last byte first. *)
Definition flushField (cur : string) (rest : list string) : list string :=
  match cur with
  | EmptyString => rest
  | _ => String.rev cur :: rest
  end.

Fixpoint fieldsLoop (fuel : nat) (cur s : string) : list string :=
  match fuel with
  | O => flushField cur []
  | S k =>
      match s with
      | EmptyString => flushField cur []
      | String c r =>
          match leadingSpace s with
          | Some r' => flushField cur (fieldsLoop k EmptyString r')
          | None => fieldsLoop k (String c cur) r
          end
      end
  end.

Definition Fields (s : string) : list string :=
  fieldsLoop (S (String.length s)) EmptyString s.

(** [CPANIndex]: the mirror and the table; the cache file is handed to
    [parseCache] as its content. *)
Record CPANIndex := mkIndex {
  mirror : string;
  modules : gmap string Resolver.CPANIndex
}.

(** [NewCPANIndex] *)
Definition NewCPANIndex (mirror_ : string) : CPANIndex :=
  mkIndex (TrimSuffix mirror_ "/") ∅.

(** [Lookup] *)
Definition Lookup (idx : CPANIndex) (module : string) : option Resolver.CPANIndex :=
  modules idx !! module.

(** [Mirror] *)
Definition Mirror (idx : CPANIndex) : string := mirror idx.

(** The lines [scanner.Scan] delivers before it stops, and whether it
    stopped on a line that does not fit its buffer. *)
Fixpoint scanPrefix (cur s : string) : list string * bool :=
  match s with
  | EmptyString =>
      match cur with
      | EmptyString => ([], false)
      | _ => if Snapshot.maxLine <? Z.of_nat (String.length cur) then ([], true)
             else ([Snapshot.dropCRRev cur], false)
      end
  | String c r =>
      if Ascii.eqb c "010" then
        if Snapshot.maxLine <? Z.of_nat (String.length cur) then ([], true)
        else let '(ls, e) := scanPrefix EmptyString r in (Snapshot.dropCRRev cur :: ls, e)
      else scanPrefix (String c cur) r
  end.

(** The entry a line of the table stands for: its first three fields. *)
Definition entryOf (line : string) : option Resolver.CPANIndex :=
  match Fields line with
  | module :: version :: pathname :: _ =>
      Some (Resolver.mkCPANIndex module version pathname)
  | _ => None
  end.

Record cstate := mkCstate {
  table : gmap string Resolver.CPANIndex;
  inHeader : bool
}.

(** One round of the loop of [parseCache]. *)
Definition cacheLine (st : cstate) (line : string) : cstate :=
  if inHeader st then
    (if String.eqb line "" then mkCstate (table st) false else st)
  else
    match entryOf line with
    | Some e => mkCstate (<[Resolver.IndexModule e := e]> (table st)) false
    | None => st
    end.

Definition cacheLines (tbl : gmap string Resolver.CPANIndex) (lines : list string) :
  gmap string Resolver.CPANIndex :=
  table (fold_left cacheLine lines (mkCstate tbl true)).

(** [parseCache]: the index after the call and the error.  [file] is the
    content of the cache file, if it can be opened. *)
Definition parseCache (idx : CPANIndex) (file : option string) :
  CPANIndex * option string :=
  match file with
  | None => (idx, Some "opening cache file")
  | Some content =>
      let '(lines, tooLong) := scanPrefix EmptyString content in
      (mkIndex (mirror idx) (cacheLines (modules idx) lines),
       if tooLong then Some "bufio.Scanner: token too long" else None)
  end.

(** A field: not empty, and without a white-space byte of ASCII. *)
Fixpoint noAsciiSpace (s : string) : bool :=
  match s with
  | String c r => negb (asciiSpace c) && noAsciiSpace r
  | EmptyString => true
  end.

Definition fieldOK (f : string) : bool :=
  negb (String.eqb f "") && noAsciiSpace f.

(** The entries that name the module [M]. *)
Definition isModule (M : string) (e : Resolver.CPANIndex) : bool :=
  String.eqb (Resolver.IndexModule e) M.

(** A table in which every entry is filed under its own module name
    and is made of fields. *)
Definition tableOK (tbl : gmap string Resolver.CPANIndex) : Prop :=
  forall k e, tbl !! k = Some e ->
    Resolver.IndexModule e = k /\
    fieldOK (Resolver.IndexModule e) = true /\
    fieldOK (Resolver.IndexVersion e) = true /\
    fieldOK (Resolver.IndexPathname e) = true.

(** The last element of a list that passes a test. *)
Definition lastWhere {A} (p : A -> bool) (l : list A) : option A :=
  List.last (map Some (List.filter p l)) None.

End Index.

(* ===================================================================== *)
(** ** cmd/yacm/main.go: the glue of [runSnapshot]                       *)
(* ===================================================================== *)

Module Main.

(** [for phase, reqs := range parseResult.Requirements { allReqs =
    append(allReqs, reqs...) }]; [order] lists the entries as [range]
    yields them. *)
Definition allReqs (order : list (string * list VersionReq)) : list VersionReq :=
  fold_left (fun acc pr => acc ++ pr.2) order [].

(** The body of the deduplication loop: [seen] and [uniqueDists]. *)
Definition dedupStep (acc : gset string * list Dist) (d : Dist) : gset string * list Dist :=
  if bool_decide (Pathname d ∈ acc.1) then acc
  else ({[ Pathname d ]} ∪ acc.1, acc.2 ++ [d]).

Definition uniqueDists (dists : list Dist) : list Dist :=
  (fold_left dedupStep dists (∅, [])).2.

(** The records the loop keeps from [l] when [seen] holds the pathnames
    met so far. *)
Fixpoint kept (seen : gset string) (l : list Dist) : list Dist :=
  match l with
  | [] => []
  | d :: l =>
      if bool_decide (Pathname d ∈ seen) then kept seen l
      else d :: kept ({[ Pathname d ]} ∪ seen) l
  end.

(** The first record of a list with a given pathname. *)
Definition firstWith (p : string) (dists : list Dist) : option Dist :=
  List.find (fun d => String.eqb (Pathname d) p) dists.

End Main.

(* ===================================================================== *)
(** ** What the snapshot parser hands back                               *)
(* ===================================================================== *)

Module Parsed.

(** An entry of a section: the key is a token, the value is not empty
    and holds no line break. *)
Definition entryOK (k v : string) : bool :=
  Snapshot.tokenOK k && Snapshot.dotPlus v.

(** A record as [Parser.Parse] builds it: a token for a name, no source
    tag, a pathname that is either missing or a non-empty line rest. *)
Definition recordOK (d : Dist) : bool :=
  Snapshot.tokenOK (Name d)
  && String.eqb (Source d) ""
  && (String.eqb (Pathname d) "" || Snapshot.dotPlus (Pathname d))
  && Snapshot.mapAll entryOK (Provides d)
  && Snapshot.mapAll entryOK (Requirements d).

(** What the lines of a record need to be read as the lines of one
    record: a token for a name, keys that are tokens, and no line break
    in any value. *)
Definition shapeOK (d : Dist) : bool :=
  Snapshot.tokenOK (Name d)
  && free "010" (Pathname d)
  && Snapshot.mapAll entryOK (Provides d)
  && Snapshot.mapAll entryOK (Requirements d).

(** The invariant of the parsing loop. *)
Definition stateOK (st : Snapshot.pstate) : Prop :=
  Forall (fun d => recordOK d = true) (Snapshot.dists st) /\
  forall c, Snapshot.current st = Some c -> recordOK c = true.

(** A line that does not fit the buffer of the scanner. *)
Definition tooLong (l : string) : Prop :=
  Snapshot.maxLine < Z.of_nat (String.length l).

(** The order of the emitter, and its converse: how the sorted prefix
    is kept, right end first. *)
Definition byName (a b : Dist) : bool := strLt (Name a) (Name b).

Definition geName (a b : Dist) : Prop := strLt (Name a) (Name b) = false.

End Parsed.

(* ===================================================================== *)
(** ** What a run of the resolver keeps                                  *)
(* ===================================================================== *)

Module Runs.

(** Bound modules stay bound. *)
Definition keeps (res0 res : gmap string Dist) : Prop :=
  forall k, is_Some (res0 !! k) -> is_Some (res !! k).

(** The name of every bound record follows from its pathname. *)
Definition named (res : gmap string Dist) : Prop :=
  forall M R, res !! M = Some R -> Name R = Resolver.distNameFromPath (Pathname R).

End Runs.

(* ===================================================================== *)
(** ** What the scan of a tarball looks at                               *)
(* ===================================================================== *)

Module Archive.
Import Extractor.

(** The six file names the scan of [extractMeta] knows. *)
Definition scanned : list string :=
  ["META.json"; "META.yml"; "MYMETA.json"; "MYMETA.yml"; "Makefile.PL"; "Build.PL"].

(** An entry the scan acts on: one directory deep, with a known name. *)
Definition relevant (e : TarEntry) : bool :=
  existsb (fun name => topLevel name e) scanned.

(** The content of the last top-level entry called [name]. *)
Definition lastTop (name : string) (entries : list TarEntry) : option string :=
  fold_left (fun acc e => if topLevel name e then EntryData e else acc) entries None.

(** [meta] with another [prereqs] table. *)
Definition withPrereqs (meta : MetaFile) (prereqs : gmap string (gmap string deps)) :
  MetaFile :=
  mkMetaFile (Name meta) (Version meta) (Provides meta) prereqs (Requirements meta)
             (AlienShare meta) (AlienSystem meta)
             (Requires meta) (BuildRequires meta) (ConfigureRequires meta).

End Archive.

(* ===================================================================== *)
(** ** Concrete inputs                                                   *)
(* ===================================================================== *)

Module Examples.

Definition dist_alpha : Dist :=
  mkDist "Alpha-1.0" "A/AL/ALPHA/Alpha-1.0.tar.gz" {[ "Alpha" := "1.0" ]} ∅ "".

Definition dist_moo : Dist :=
  mkDist "Moo-2.0" "H/HA/HAARG/Moo-2.0.tar.gz" {[ "Moo" := "2.0" ]}
         {[ "Role::Tiny" := "2.0"; "Class::Method::Modifiers" := "1.10" ]} "".

(** A record as the resolver builds it from metadata that states its
    requirement with an operator. *)
Definition dist_with_operator : Dist :=
  mkDist "Moo-2.0" "H/HA/HAARG/Moo-2.0.tar.gz" {[ "Moo" := "2.0" ]}
         {[ "Role::Tiny" := ">= 2.0" ]} "".

Definition dist_from_cpan : Dist :=
  mkDist "JSON-2.0" "M/MA/MAKAMAKA/JSON-2.0.tar.gz" {[ "JSON" := "2.0" ]} ∅ "cpan".

Definition dist_empty_version : Dist :=
  mkDist "JSON-2.0" "M/MA/MAKAMAKA/JSON-2.0.tar.gz" {[ "JSON" := "" ]} ∅ "".

(** Metadata whose runtime requirement on [Foo] is the empty string and
    whose build requirement on [Foo] is [1.0]. *)
Definition meta_empty_then_versioned : Extractor.MetaFile :=
  Extractor.mkMetaFile "Dist" "1.0" ∅
    {[ "runtime" := {[ "requires" := Extractor.DepMap {[ "Foo" := Extractor.VString "" ]} ]};
       "build" := {[ "requires" := Extractor.DepMap {[ "Foo" := Extractor.VString "1.0" ]} ]} ]}
    ∅ ∅ ∅ ∅ ∅ ∅.

Definition meta_two_phases : Extractor.MetaFile :=
  Extractor.mkMetaFile "Dist" "1.0" ∅
    {[ "runtime" := {[ "requires" := Extractor.DepMap {[ "Foo" := Extractor.VString "2.0" ]} ]};
       "build" := {[ "requires" := Extractor.DepMap {[ "Foo" := Extractor.VString "1.0";
                                                      "Bar" := Extractor.VInt 3 ]} ]} ]}
    ∅ ∅ ∅ ∅ ∅ ∅.

Definition meta_plain : Extractor.MetaFile :=
  Extractor.mkMetaFile "Dist" "1.0" ∅ ∅ ∅ ∅ ∅ ∅ ∅ ∅.

(** A tarball with META.json and both configure scripts, no MYMETA. *)
Definition tarball_both_scripts : list Extractor.TarEntry :=
  [ Extractor.mkEntry "Dist-1.0/META.json" (Some "{}");
    Extractor.mkEntry "Dist-1.0/Build.PL" (Some "");
    Extractor.mkEntry "Dist-1.0/Makefile.PL" (Some "");
    Extractor.mkEntry "Dist-1.0/lib/Dist.pm" (Some "") ].

(** Surroundings in which every step of the configure run succeeds. *)
Definition world_configure_ok : Extractor.World :=
  Extractor.mkWorld
    (fun _ => Extractor.Ok (tarball_both_scripts, Extractor.TarEOF))
    (fun _ => Some meta_plain) (fun _ => Some meta_plain)
    map_to_list
    (Some "/tmp/yacm-configure-1")
    (fun _ tmp => Some (tmp +:+ "/Dist-1.0"))
    (fun _ => true)
    (fun _ name => if String.eqb name "MYMETA.json" then Some "{}" else None).

Definition host : Extractor.Extractor := Extractor.mkExtractor "".

(** **** A world for the resolver *)

Definition meta_of (name version : string) (provides : list string) : Extractor.MetaFile :=
  Extractor.mkMetaFile name version
    (list_to_map (map (fun m => (m, Extractor.mkProvidesEntry "" version)) provides))
    ∅ ∅ ∅ ∅ ∅ ∅ ∅.

(** The index lists [Foo] 1.0 and [Encode::JP] 3.0; BackPAN knows a
    later [Foo]; the [Encode] distribution also provides the core module
    [Encode]. *)
Definition world_foo : Resolver.World :=
  Resolver.mkWorld
    {[ "Foo" := Resolver.mkCPANIndex "Foo" "1.0" "X/XX/XXX/Foo-1.0.tar.gz";
       "Encode::JP" := Resolver.mkCPANIndex "Encode::JP" "3.0"
                         "D/DA/DANKOGAI/Encode-3.0.tar.gz" ]}
    "https://cpan.metacpan.org"
    (fun _ module _ =>
       if String.eqb module "Foo"
       then Some (Resolver.mkBackPANResult
                    "https://cpan.metacpan.org/authors/id/X/XX/XXX/Foo-2.1.tar.gz"
                    "2.1" "latest")
       else None)
    (fun url => "backpan/" +:+ List.last (Split url "/") "")
    (fun pathname => "cache/" +:+ pathname)
    (fun _ _ => true)
    (fun _ path =>
       if String.eqb path "cache/X/XX/XXX/Foo-1.0.tar.gz"
       then Some (meta_of "Foo" "1.0" ["Foo"])
       else if String.eqb path "backpan/Foo-2.1.tar.gz"
       then Some (meta_of "Foo" "2.1" ["Foo"])
       else if String.eqb path "cache/D/DA/DANKOGAI/Encode-3.0.tar.gz"
       then Some (meta_of "Encode" "3.0" ["Encode::JP"; "Encode"])
       else None)
    (fun _ m => map_to_list m).

Definition dist_foo10 : Dist :=
  mkDist "Foo-1.0" "X/XX/XXX/Foo-1.0.tar.gz" {[ "Foo" := "1.0" ]} ∅ "cpan".

Definition dist_foo21 : Dist :=
  mkDist "Foo-2.1" "X/XX/XXX/Foo-2.1.tar.gz" {[ "Foo" := "2.1" ]} ∅ "backpan".

Definition dist_encode : Dist :=
  mkDist "Encode-3.0" "D/DA/DANKOGAI/Encode-3.0.tar.gz"
         {[ "Encode::JP" := "3.0"; "Encode" := "3.0" ]} ∅ "cpan".

(** The resolver after [Foo] has been resolved from the index. *)
Definition state_foo10 : Resolver.State :=
  Resolver.mkState {[ "Foo" := dist_foo10 ]} ∅ 1.

Definition state_foo21 : Resolver.State :=
  Resolver.mkState {[ "Foo" := dist_foo21 ]} ∅ 2.

(** Scenario S1: the index lists [JSON], whose metadata provides [JSON]
    and [JSON::PP] and requires nothing. *)
Definition world_json : Resolver.World :=
  Resolver.mkWorld
    {[ "JSON" := Resolver.mkCPANIndex "JSON" "2.97001" "M/MA/MAKAMAKA/JSON-2.97001.tar.gz" ]}
    "https://cpan.metacpan.org"
    (fun _ _ _ => None)
    (fun url => "backpan/" +:+ List.last (Split url "/") "")
    (fun pathname => "cache/" +:+ pathname)
    (fun _ _ => true)
    (fun _ _ => Some (meta_of "JSON" "2.97001" ["JSON"; "JSON::PP"]))
    (fun _ m => map_to_list m).

Definition dist_json : Dist :=
  mkDist "JSON-2.97001" "M/MA/MAKAMAKA/JSON-2.97001.tar.gz"
         {[ "JSON" := "2.97001"; "JSON::PP" := "2.97001" ]} ∅ "cpan".

Definition state_json : Resolver.State :=
  Resolver.mkState {[ "JSON" := dist_json; "JSON::PP" := dist_json ]} ∅ 1.

(** A server that answers every request with status 200. *)
Definition server_ok : Downloader.World :=
  Downloader.mkWorld (fun _ => false) (fun _ => true)
    (fun _ _ => Downloader.Reply 200 "new content" true)
    (fun _ => true) (fun _ _ => true).

End Examples.

(* ===================================================================== *)
(** ** Further concrete inputs                                           *)
(* ===================================================================== *)

Module Samples.

(** Two distributions that require each other: [Ring::A] needs
    [Ring::B], and [Ring::B] needs a later [Ring::A] than the index has. *)
Definition meta_ring (name : string) (dep constraint : string) : Extractor.MetaFile :=
  Extractor.mkMetaFile name "1.0"
    {[ name := Extractor.mkProvidesEntry "" "1.0" ]}
    ∅ {[ dep := constraint ]} ∅ ∅ ∅ ∅ ∅.

Definition world_ring : Resolver.World :=
  Resolver.mkWorld
    {[ "Ring::A" := Resolver.mkCPANIndex "Ring::A" "1.0" "R/RI/RING/Ring-A-1.0.tar.gz";
       "Ring::B" := Resolver.mkCPANIndex "Ring::B" "1.0" "R/RI/RING/Ring-B-1.0.tar.gz" ]}
    "https://cpan.metacpan.org"
    (fun _ _ _ => None)
    (fun url => "backpan/" +:+ List.last (Split url "/") "")
    (fun pathname => "cache/" +:+ pathname)
    (fun _ _ => true)
    (fun _ path =>
       if String.eqb path "cache/R/RI/RING/Ring-A-1.0.tar.gz"
       then Some (meta_ring "Ring::A" "Ring::B" "0")
       else if String.eqb path "cache/R/RI/RING/Ring-B-1.0.tar.gz"
       then Some (meta_ring "Ring::B" "Ring::A" "0")
       else None)
    (fun _ m => map_to_list m).

Definition ring : gset string := {[ "Ring::A"; "Ring::B" ]}.

(** An empty index, a BackPAN that knows every module, and tarballs
    without usable metadata. *)
Definition world_bare : Resolver.World :=
  Resolver.mkWorld ∅ "https://cpan.metacpan.org"
    (fun _ module version =>
       Some (Resolver.mkBackPANResult
               ("https://backpan.perl.org/authors/id/A/AC/ACME/" +:+ module +:+ ".tar.gz")
               version "backpan"))
    (fun url => "backpan/" +:+ List.last (Split url "/") "")
    (fun pathname => "cache/" +:+ pathname)
    (fun _ _ => true)
    (fun _ _ => None)
    (fun _ m => map_to_list m).

(** A tarball with two top-level META.json files, a META.yml and a
    META.json that lies too deep. *)
Definition tarball_meta_twice : list Extractor.TarEntry :=
  [ Extractor.mkEntry "Dist-1.0/META.json" (Some "first");
    Extractor.mkEntry "Dist-1.0/META.yml" (Some "yaml");
    Extractor.mkEntry "Dist-1.0/META.json" (Some "second");
    Extractor.mkEntry "Dist-1.0/t/data/META.json" (Some "nested") ].

(** Metadata that carries the text it was decoded from as its name. *)
Definition meta_named (data : string) : Extractor.MetaFile :=
  Extractor.mkMetaFile data "1.0" ∅ ∅ ∅ ∅ ∅ ∅ ∅ ∅.

Definition world_static : Extractor.World :=
  Extractor.mkWorld
    (fun _ => Extractor.Ok (tarball_meta_twice, Extractor.TarEOF))
    (fun data => Some (meta_named data)) (fun data => Some (meta_named data))
    map_to_list None (fun _ _ => None) (fun _ => false) (fun _ _ => None).

(** A tarball that breaks off after its META.json. *)
Definition world_truncated : Extractor.World :=
  Extractor.mkWorld
    (fun _ => Extractor.Ok ([Extractor.mkEntry "Dist-1.0/META.json" (Some "first")],
                            Extractor.TarBroken))
    (fun data => Some (meta_named data)) (fun data => Some (meta_named data))
    map_to_list None (fun _ _ => None) (fun _ => false) (fun _ _ => None).

(** The tarball with both configure scripts, on a host where the
    configure command fails. *)
Definition world_configure_fails : Extractor.World :=
  Extractor.mkWorld
    (fun _ => Extractor.Ok (Examples.tarball_both_scripts, Extractor.TarEOF))
    (fun data => Some (meta_named data)) (fun data => Some (meta_named data))
    map_to_list
    (Some "/tmp/yacm-configure-1")
    (fun _ tmp => Some (tmp +:+ "/Dist-1.0"))
    (fun _ => false)
    (fun _ _ => None).

(** A server that answers every request with status 404. *)
Definition server_missing : Downloader.World :=
  Downloader.mkWorld (fun _ => false) (fun _ => true)
    (fun _ _ => Downloader.Reply 404 "" true)
    (fun _ => true) (fun _ _ => true).

(** The table of [TestCPANIndex_ParseCache]. *)
Definition tab : string := String "009" "".

Definition index_lines : list string :=
  [ "File:         02packages.details.txt";
    "URL:          http://www.perl.com/CPAN/modules/02packages.details.txt";
    "Description:  Package names found in directory";
    "";
    "JSON" +:+ tab +:+ "2.97001" +:+ tab +:+ "M/MA/MAKAMAKA/JSON-2.97001.tar.gz";
    "Moo" +:+ tab +:+ "2.005005" +:+ tab +:+ "H/HA/HAARG/Moo-2.005005.tar.gz";
    "Module::With::Undef" +:+ tab +:+ "undef" +:+ tab
      +:+ "A/AU/AUTHOR/Module-With-Undef-1.0.tar.gz" ].

Definition index_text : string := Snapshot.unlines index_lines.

(** A cpanfile with a test block. *)
Definition cpanfile_lines : list string :=
  [ "# runtime";
    "requires 'JSON', '2.0';";
    "";
    "on 'test' => sub {";
    "    requires 'Test::More', '0.98';";
    "};";
    "requires 'Moo';" ].

End Samples.

(* ===================================================================== *)
(** * Properties                                                          *)
(* ===================================================================== *)

Arguments Ascii.eqb : simpl never.
Arguments byte : simpl never.
Arguments TrimSpace : simpl never.
Arguments compareVersions : simpl never.

Example TrimSpace_ascii : TrimSpace "  >= 1.0 " = ">= 1.0".
Proof. reflexivity. Qed.

Example TrimSpace_nbsp :
  TrimSpace (String "194" (String "160" ("1.0" +:+ String "226" (String "128" (String "137" ""))))) = "1.0".
Proof. reflexivity. Qed.

Example TrimSpace_lone_continuation :
  TrimSpace (String "160" "x") = String "160" "x".
Proof. reflexivity. Qed.

Example Atoi_examples :
  Atoi "007" = 7 /\ Atoi "" = 0 /\ Atoi "1x" = 0 /\ Atoi "-5" = -5 /\
  Atoi "99999999999999999999" = maxInt64 /\ Atoi "99999999999999999999x" = maxInt64.
Proof. repeat split; reflexivity. Qed.

Example Split_examples :
  Split "3.18.0" "." = ["3"; "18"; "0"] /\ Split "" "." = [""] /\ Split "a," "," = ["a"; ""].
Proof. repeat split; reflexivity. Qed.

Example Base_examples :
  Base "M/MA/MAKAMAKA/JSON-2.0.tar.gz" = "JSON-2.0.tar.gz" /\ Base "dir/" = "dir" /\
  Base "/" = "/" /\ Base "" = ".".
Proof. repeat split; reflexivity. Qed.


(** The tables of resolver_test.go. *)
Example TestNormalizeVersion :
  normalizeVersion "1.0" = [1; 0] /\ normalizeVersion "3.18.0" = [3; 18; 0] /\
  normalizeVersion "3.007004" = [3; 7; 4] /\ normalizeVersion "0.080001" = [0; 80; 1] /\
  normalizeVersion "2.005005" = [2; 5; 5] /\ normalizeVersion "v1.2.3" = [1; 2; 3] /\
  normalizeVersion "5" = [5] /\ normalizeVersion "" = [0].
Proof. repeat split; reflexivity. Qed.

Example TestCompareVersions :
  compareVersions "1.0" "2.0" = -1 /\ compareVersions "1.10" "1.9" = 1 /\
  compareVersions "v1.0" "1.0" = 0 /\ compareVersions "1" "1.0" = 0 /\
  compareVersions "3.007004" "3.18.0" = -1 /\ compareVersions "0.080001" "0.08" = 1.
Proof. repeat split; reflexivity. Qed.

Example TestSatisfies :
  satisfies "1.0" "" = true /\ satisfies "0.5" "1.0" = false /\
  satisfies "1.0" "< 1.0" = false /\ satisfies "1.1" "!= 1.0" = true /\
  satisfies "1.5" ">= 1.0, < 2.0" = true /\ satisfies "0.9" ">= 1.0, < 2.0" = false /\
  satisfies "2.0" ">= 1.0, < 2.0" = false /\ satisfies "undef" ">= 2.0" = true /\
  satisfies "1.0" "== 1.0" = true /\ satisfies "1.1" "<= 1.0" = false.
Proof. repeat split; reflexivity. Qed.

(* ===================================================================== *)
(** ** Facts about the string primitives                                 *)
(* ===================================================================== *)

Module StringFacts.

Lemma sapp_cons c (s t : string) : String c s +:+ t = String c (s +:+ t).
Proof. reflexivity. Qed.

Lemma sapp_nil_l (s : string) : "" +:+ s = s.
Proof. reflexivity. Qed.

Lemma sapp_nil_r (s : string) : s +:+ "" = s.
Proof. induction s as [|c s IH]; [reflexivity|]. rewrite sapp_cons. by f_equal. Qed.

Lemma sapp_assoc (s t u : string) : (s +:+ t) +:+ u = s +:+ t +:+ u.
Proof. induction s as [|c s IH]; [reflexivity|]. rewrite !sapp_cons. by f_equal. Qed.

Lemma slength_app (s t : string) :
  String.length (s +:+ t) = (String.length s + String.length t)%nat.
Proof. induction s as [|c s IH]; [reflexivity|]. rewrite sapp_cons. simpl. by f_equal. Qed.

Lemma srev_app_spec (s t : string) : String.rev_app s t = String.rev s +:+ t.
Proof.
  unfold String.rev. revert t.
  induction s as [|c s IH]; intros t; [reflexivity|].
  simpl. rewrite IH, (IH (String c "")), sapp_assoc. reflexivity.
Qed.

Lemma srev_cons c (s : string) : String.rev (String c s) = String.rev s +:+ String c "".
Proof. unfold String.rev at 1. simpl. apply srev_app_spec. Qed.

Lemma srev_app (s t : string) : String.rev (s +:+ t) = String.rev t +:+ String.rev s.
Proof.
  induction s as [|c s IH].
  - rewrite sapp_nil_l. change (String.rev "") with "". by rewrite sapp_nil_r.
  - rewrite sapp_cons, !srev_cons, IH, sapp_assoc. reflexivity.
Qed.

Lemma srev_involutive (s : string) : String.rev (String.rev s) = s.
Proof.
  induction s as [|c s IH]; [reflexivity|].
  rewrite srev_cons, srev_app, IH. reflexivity.
Qed.

Lemma slength_rev (s : string) : String.length (String.rev s) = String.length s.
Proof.
  induction s as [|c s IH]; [reflexivity|].
  rewrite srev_cons, slength_app, IH. simpl. lia.
Qed.

Lemma ascii_eqb_eq (a b : ascii) : Ascii.eqb a b = true <-> a = b.
Proof. apply Ascii.eqb_eq. Qed.

Lemma HasPrefix_app (s p : string) : HasPrefix (p +:+ s) p = true.
Proof.
  induction p as [|c p IH]; [by destruct s|].
  rewrite sapp_cons. simpl. by rewrite Ascii.eqb_refl.
Qed.

Lemma sliceFrom_app (p s : string) : sliceFrom (String.length p) (p +:+ s) = s.
Proof. induction p as [|c p IH]; [by destruct s|]. rewrite sapp_cons. simpl. exact IH. Qed.

Lemma sliceTo_app (p s : string) : sliceTo (String.length p) (p +:+ s) = p.
Proof.
  induction p as [|c p IH]; [by destruct s|]. rewrite sapp_cons. simpl. by f_equal.
Qed.

Lemma HasPrefix_spec (s p : string) :
  HasPrefix s p = true <-> exists r, s = p +:+ r.
Proof.
  revert s. induction p as [|c p IH]; intros s.
  - split; [intros _; by exists s | by destruct s].
  - destruct s as [|d s]; simpl.
    + split; [done | intros [r Hr]; discriminate].
    + rewrite andb_true_iff, Ascii.eqb_eq, IH. split.
      * intros [-> [r ->]]. by exists r.
      * intros [r Hr]. rewrite sapp_cons in Hr. injection Hr as -> ->. eauto.
Qed.

Lemma splitGo_free sep cur (s : string) :
  free sep s = true -> splitGo sep cur s = [String.rev cur +:+ s].
Proof.
  revert cur. induction s as [|d s IH]; intros cur H; simpl in *.
  - by rewrite sapp_nil_r.
  - apply andb_true_iff in H as [Hd Hs]. apply negb_true_iff in Hd. rewrite Hd.
    rewrite (IH _ Hs), srev_cons, sapp_assoc. reflexivity.
Qed.

Lemma splitGo_app sep cur (s t : string) :
  free sep s = true ->
  splitGo sep cur (s +:+ String sep t) = (String.rev cur +:+ s) :: splitGo sep "" t.
Proof.
  revert cur. induction s as [|d s IH]; intros cur H.
  - rewrite sapp_nil_l, sapp_nil_r. simpl. by rewrite Ascii.eqb_refl.
  - simpl in H. apply andb_true_iff in H as [Hd Hs]. apply negb_true_iff in Hd.
    rewrite sapp_cons. simpl. rewrite Hd, (IH _ Hs), srev_cons, sapp_assoc. reflexivity.
Qed.

Lemma Split_free sep (s : string) : free sep s = true -> Split s sep = [s].
Proof. intros H. unfold Split. by rewrite splitGo_free. Qed.

Lemma Split_app sep (s t : string) :
  free sep s = true -> Split (s +:+ String sep t) sep = s :: Split t sep.
Proof. intros H. unfold Split. by rewrite splitGo_app. Qed.

End StringFacts.

(* ===================================================================== *)
(** ** The version comparator                                            *)
(* ===================================================================== *)

Module VersionFacts.
Import StringFacts.

Lemma compareLoop_refl n i (a : list Z) : compareLoop n i a a = 0.
Proof.
  revert i. induction n as [|n IH]; intros i; simpl; [reflexivity|].
  rewrite Z.ltb_irrefl. apply IH.
Qed.

Lemma compareLoop_antisym n i (a b : list Z) :
  compareLoop n i a b = - compareLoop n i b a.
Proof.
  revert i. induction n as [|n IH]; intros i; simpl; [reflexivity|].
  set (x := if (i <? length a)%nat then nth i a 0 else 0).
  set (y := if (i <? length b)%nat then nth i b 0 else 0).
  destruct (Z.ltb_spec x y), (Z.ltb_spec y x); try reflexivity; try lia.
  apply IH.
Qed.

Lemma maxLen_comm (n m : nat) :
  (if (n <? m)%nat then m else n) = (if (m <? n)%nat then n else m).
Proof. destruct (Nat.ltb_spec n m), (Nat.ltb_spec m n); lia. Qed.

Lemma compareVersions_refl v : compareVersions v v = 0.
Proof. unfold compareVersions. apply compareLoop_refl. Qed.

Lemma compareVersions_antisym a b : compareVersions a b = - compareVersions b a.
Proof.
  unfold compareVersions. rewrite (maxLen_comm (length (normalizeVersion b))).
  apply compareLoop_antisym.
Qed.

Lemma compareVersions_range a b :
  compareVersions a b = -1 \/ compareVersions a b = 0 \/ compareVersions a b = 1.
Proof.
  unfold compareVersions.
  generalize (if (length (normalizeVersion a) <? length (normalizeVersion b))%nat
              then length (normalizeVersion b) else length (normalizeVersion a)).
  intros n. generalize 0%nat.
  induction n as [|n IH]; intros i; simpl; [auto|].
  repeat case_match; auto.
Qed.

(** The index loop reads the zero-padded sequences from left to right. *)
Lemma compareLoop_lex n i (a b : list Z) :
  (length a <= i + n)%nat -> (length b <= i + n)%nat ->
  compareLoop n i a b
  = lexCompare (padTo n (skipn i a)) (padTo n (skipn i b)).
Proof.
  revert i a b. induction n as [|n IH]; intros i a b Ha Hb.
  - unfold padTo. simpl. rewrite !app_nil_r.
    rewrite (skipn_all2 a), (skipn_all2 b) by lia. reflexivity.
  - simpl compareLoop.
    assert (Hpad : forall l : list Z, (length l <= i + S n)%nat ->
              padTo (S n) (skipn i l)
              = (if (i <? length l)%nat then nth i l 0 else 0)
                  :: padTo n (skipn (S i) l)).
    { intros l Hl. unfold padTo. rewrite !length_skipn.
      destruct (Nat.ltb_spec i (length l)) as [Hlt|Hge].
      - destruct (skipn i l) as [|x r] eqn:E.
        + apply (f_equal (@length Z)) in E. rewrite length_skipn in E. simpl in E. lia.
        + assert (skipn (S i) l = r) as ->.
          { replace (S i) with (1 + i)%nat by lia.
            rewrite <- skipn_skipn, E. reflexivity. }
          assert (nth i l 0 = x) as ->.
          { rewrite <- (firstn_skipn i l) at 1. rewrite E.
            rewrite app_nth2; rewrite length_firstn; [|lia].
            replace (i - Init.Nat.min i (length l))%nat with 0%nat by lia.
            reflexivity. }
          simpl. do 2 f_equal. apply (f_equal (@length Z)) in E.
          rewrite length_skipn in E. simpl in E. f_equal. lia.
      - rewrite (skipn_all2 l) by lia. rewrite (skipn_all2 l) by lia.
        replace (S n - (length l - i))%nat with (S n) by lia.
        replace (n - (length l - S i))%nat with n by lia.
        reflexivity. }
    rewrite (Hpad a Ha), (Hpad b Hb). simpl lexCompare.
    repeat case_match; try reflexivity; apply IH; lia.
Qed.

Lemma compareVersions_lex a b :
  let n := Nat.max (length (normalizeVersion a)) (length (normalizeVersion b)) in
  compareVersions a b
  = lexCompare (padTo n (normalizeVersion a)) (padTo n (normalizeVersion b)).
Proof.
  intros n. unfold compareVersions.
  assert ((if (length (normalizeVersion a) <? length (normalizeVersion b))%nat
           then length (normalizeVersion b) else length (normalizeVersion a)) = n) as ->.
  { subst n. destruct (Nat.ltb_spec (length (normalizeVersion a))
                         (length (normalizeVersion b))); lia. }
  rewrite compareLoop_lex by (subst n; lia). reflexivity.
Qed.

Lemma chunkLoop_groups3 fuel (frac : string) :
  chunkLoop fuel frac = map Atoi (groups3 fuel frac).
Proof.
  revert frac. induction fuel as [|k IH]; intros frac; simpl; [reflexivity|].
  destruct frac as [|c r]; [reflexivity|].
  change (0 <? String.length (String c r))%nat with true. cbv iota.
  destruct (3 <? String.length (String c r))%nat; [|reflexivity].
  simpl map. f_equal. apply IH.
Qed.

Lemma TrimPrefix_v_app (major rest : string) :
  TrimPrefix (major +:+ String "." rest) "v"
  = TrimPrefix major "v" +:+ String "." rest.
Proof.
  unfold TrimPrefix. destruct major as [|c m]; [reflexivity|].
  rewrite sapp_cons. simpl. destruct (Ascii.eqb "v" c); simpl.
  - by destruct m.
  - reflexivity.
Qed.

Lemma free_TrimPrefix c (s p : string) :
  free c s = true -> free c (TrimPrefix s p) = true.
Proof.
  unfold TrimPrefix. destruct (HasPrefix s p); [|done].
  generalize (String.length p). intros n. revert s.
  induction n as [|n IH]; intros s H; [done|].
  destruct s as [|d s]; [done|]. simpl in *.
  apply andb_true_iff in H as [_ H]. by apply IH.
Qed.

(** A version with one dot and more than three bytes after it is read
    as major plus groups of three. *)
Lemma normalizeVersion_decimal (major frac : string) :
  free "." major = true -> free "." frac = true ->
  (3 < String.length frac)%nat ->
  normalizeVersion (major +:+ String "." frac)
  = Atoi (TrimPrefix major "v") :: map Atoi (groups3 (String.length frac) frac).
Proof.
  intros Hm Hf Hlen. unfold normalizeVersion.
  rewrite TrimPrefix_v_app.
  destruct (String.eqb_spec (TrimPrefix major "v" +:+ String "." frac) "") as [E|_].
  { destruct (TrimPrefix major "v"); discriminate. }
  rewrite Split_app by (by apply free_TrimPrefix).
  rewrite Split_free by done.
  apply Nat.ltb_lt in Hlen. rewrite Hlen.
  by rewrite chunkLoop_groups3.
Qed.

End VersionFacts.

(** C6: the comparator is reflexive and antisymmetric, orders the
    dotted/decimal examples as stated, reads a decimal-format string
    (one dot, more than three bytes after it) as its major number followed
    by the left-to-right groups of three of the fraction, and compares the
    zero-padded sequences lexicographically. *)
Theorem version_comparator_laws :
  (forall v, compareVersions v v = 0) /\
  (forall a b, compareVersions a b = - compareVersions b a) /\
  0 < compareVersions "3.18.0" "3.007004" /\
  0 < compareVersions "2.005005" "2.005" /\
  compareVersions "1.001" "1.1" = 0 /\
  (forall major frac : string,
      free "." major = true -> free "." frac = true ->
      (3 < String.length frac)%nat ->
      normalizeVersion (major +:+ String "." frac)
      = Atoi (TrimPrefix major "v") :: map Atoi (groups3 (String.length frac) frac)) /\
  (forall a b,
      let n := Nat.max (length (normalizeVersion a)) (length (normalizeVersion b)) in
      compareVersions a b
      = lexCompare (padTo n (normalizeVersion a)) (padTo n (normalizeVersion b))).
Proof.
  split; [exact VersionFacts.compareVersions_refl|].
  split; [exact VersionFacts.compareVersions_antisym|].
  split; [reflexivity|]. split; [reflexivity|]. split; [reflexivity|].
  split; [exact VersionFacts.normalizeVersion_decimal|].
  exact VersionFacts.compareVersions_lex.
Qed.

Lemma version_comparator_laws_witness :
  normalizeVersion ("3" +:+ String "." "007004")
  = Atoi (TrimPrefix "3" "v") :: map Atoi (groups3 (String.length "007004") "007004").
Proof.
  apply (proj1 (proj2 (proj2 (proj2 (proj2 (proj2 version_comparator_laws)))))).
  - reflexivity.
  - reflexivity.
  - simpl. lia.
Defined.

(* ===================================================================== *)
(** ** [TrimSpace] on strings without surrounding white space            *)
(* ===================================================================== *)

Module TrimFacts.
Import StringFacts.

Ltac bool_cases :=
  repeat match goal with
    | H : _ && _ = true |- _ => apply andb_true_iff in H as [? ?]
    | H : _ || _ = false |- _ => apply orb_false_iff in H as [? ?]
    | H : _ || _ = true |- _ => apply orb_true_iff in H as [?|?]
    | H : _ && _ = false |- _ => apply andb_false_iff in H as [?|?]
    | H : (_ =? _) = true |- _ => apply Z.eqb_eq in H
    | H : (_ =? _) = false |- _ => apply Z.eqb_neq in H
    | H : (_ <=? _) = true |- _ => apply Z.leb_le in H
    | H : (_ <=? _) = false |- _ => apply Z.leb_gt in H
    end.

Ltac case_if E :=
  match goal with
  | |- (if ?b then _ else _) = _ => destruct b eqn:E
  end.

Lemma leadingSpace_length (s r : string) :
  leadingSpace s = Some r -> (String.length r < String.length s)%nat.
Proof.
  unfold leadingSpace. intros H.
  repeat (case_match; simplify_eq; simpl; try lia).
Qed.

Lemma trailingSpaceRev_length (s r : string) :
  trailingSpaceRev s = Some r -> (String.length r < String.length s)%nat.
Proof.
  unfold trailingSpaceRev. intros H.
  repeat (case_match; simplify_eq; simpl; try lia).
Qed.

Section Loop.
Variable step : string -> option string.
Hypothesis step_length :
  forall s r, step s = Some r -> (String.length r < String.length s)%nat.

Lemma trimLoop_length fuel (s : string) :
  (String.length (trimLoop step fuel s) <= String.length s)%nat.
Proof.
  revert s. induction fuel as [|k IH]; intros s; simpl; [lia|].
  destruct (step s) as [r|] eqn:E; [|lia].
  specialize (IH r). apply step_length in E. lia.
Qed.

Lemma trimLoop_stuck fuel (s : string) :
  step s = None -> trimLoop step fuel s = s.
Proof. intros H. destruct fuel; simpl; [done|]. by rewrite H. Qed.

Lemma trimLoop_fixed fuel (s : string) :
  trimLoop step fuel s = s -> fuel <> O -> step s = None.
Proof.
  intros H Hf. destruct fuel as [|k]; [done|]. simpl in H.
  destruct (step s) as [r|] eqn:E; [|done].
  pose proof (trimLoop_length k r) as Hl. apply step_length in E.
  rewrite H in Hl. lia.
Qed.

(** After the loop no further step applies. *)
Lemma trimLoop_done fuel (s : string) :
  (String.length s <= fuel)%nat ->
  trimLoop step fuel s = "" \/ step (trimLoop step fuel s) = None.
Proof.
  revert s. induction fuel as [|k IH]; intros s Hl; simpl.
  - destruct s; [by left | simpl in Hl; lia].
  - destruct (step s) as [r|] eqn:E; [|by right].
    apply IH. apply step_length in E. lia.
Qed.
End Loop.

Lemma TrimLeftSpace_length (s : string) :
  (String.length (TrimLeftSpace s) <= String.length s)%nat.
Proof. apply trimLoop_length, leadingSpace_length. Qed.

Lemma TrimRightSpace_length (s : string) :
  (String.length (TrimRightSpace s) <= String.length s)%nat.
Proof.
  unfold TrimRightSpace. rewrite slength_rev.
  etrans; [apply trimLoop_length, trailingSpaceRev_length|].
  by rewrite slength_rev.
Qed.

Lemma length_zero (s : string) : String.length s = O -> s = "".
Proof. by destruct s. Qed.

Lemma rev_eq_inv (s t : string) : String.rev s = String.rev t -> s = t.
Proof.
  intros H. apply (f_equal String.rev) in H. by rewrite !srev_involutive in H.
Qed.

Lemma TrimSpace_fixed (s : string) :
  leadingSpace s = None -> trailingSpaceRev (String.rev s) = None ->
  TrimSpace s = s.
Proof.
  intros Hl Hr. unfold TrimSpace, TrimLeftSpace.
  rewrite trimLoop_stuck by done. unfold TrimRightSpace.
  rewrite trimLoop_stuck by done. apply srev_involutive.
Qed.

Lemma TrimSpace_fixed_inv (s : string) :
  TrimSpace s = s -> s <> "" ->
  leadingSpace s = None /\ trailingSpaceRev (String.rev s) = None.
Proof.
  intros H Hne.
  assert (Hlen : String.length s <> O) by (by intros ?%length_zero).
  assert (HL : TrimLeftSpace s = s).
  { unfold TrimLeftSpace. destruct (leadingSpace s) as [r|] eqn:E.
    - exfalso.
      pose proof (TrimRightSpace_length (TrimLeftSpace s)) as H1.
      fold (TrimSpace s) in H1. rewrite H in H1.
      unfold TrimLeftSpace in H1.
      destruct (String.length s) as [|k] eqn:El; [done|].
      simpl in H1. rewrite E in H1.
      pose proof (trimLoop_length leadingSpace leadingSpace_length k r) as H2.
      apply leadingSpace_length in E. lia.
    - by apply trimLoop_stuck. }
  split.
  - eapply trimLoop_fixed; [apply leadingSpace_length|exact HL|done].
  - unfold TrimSpace in H. rewrite HL in H. unfold TrimRightSpace in H.
    eapply (trimLoop_fixed _ trailingSpaceRev_length (String.length s)); [|done].
    apply rev_eq_inv. by rewrite H, srev_involutive.
Qed.

Lemma TrimSpace_empty : TrimSpace "" = "".
Proof. reflexivity. Qed.

(** An ASCII byte that is no space starts no white-space rune. *)
Lemma leadingSpace_ascii c (r : string) :
  byte c < 128 -> asciiSpace c = false -> leadingSpace (String c r) = None.
Proof.
  intros Hc Hs. unfold leadingSpace. rewrite Hs.
  destruct r as [|d r1]; [done|].
  case_if E1; [bool_cases; lia|].
  destruct r1 as [|e r2]; [done|].
  case_if E2; [bool_cases; lia|done].
Qed.

(** One leading ASCII space is dropped by [TrimSpace]. *)
Lemma TrimSpace_space_l (s : string) : TrimSpace (String " " s) = TrimSpace s.
Proof. reflexivity. Qed.

(** The reversed encoding of a white-space rune never runs over an
    ASCII byte, so what follows a non-empty [x] does not matter. *)
Lemma trailingSpaceRev_straddle (x y : string) :
  x <> "" -> trailingSpaceRev x = None ->
  (y = "" \/ exists d y', y = String d y' /\ byte d < 128) ->
  trailingSpaceRev (x +:+ y) = None.
Proof.
  intros Hx H Hy. destruct x as [|c r]; [done|].
  rewrite sapp_cons. unfold trailingSpaceRev in *.
  destruct (asciiSpace c); [done|].
  destruct r as [|d r1].
  - rewrite sapp_nil_l. destruct Hy as [->|(d & y' & -> & Hd)]; [done|].
    case_if E1; [bool_cases; lia|].
    destruct y' as [|e y2]; [done|].
    case_if E2; [bool_cases; lia|done].
  - rewrite sapp_cons.
    case_if E1; [done|].
    destruct r1 as [|e r2].
    + rewrite sapp_nil_l. destruct Hy as [->|(e & y' & -> & He)]; [done|].
      case_if E2; [bool_cases; lia|done].
    + rewrite sapp_cons. revert H.
      match goal with |- (if ?b then _ else _) = _ -> _ => by destruct b end.
Qed.

(** Putting an ASCII prefix that starts with a non-space byte in front
    of a trimmed, non-empty string gives a trimmed string. *)
Lemma TrimSpace_ascii_prefix c (p a : string) :
  byte c < 128 -> asciiSpace c = false ->
  (String.rev (String c p) = "" \/
   exists d y', String.rev (String c p) = String d y' /\ byte d < 128) ->
  a <> "" -> TrimSpace a = a ->
  TrimSpace (String c p +:+ a) = String c p +:+ a.
Proof.
  intros Hc Hs Hp Ha Hfix.
  destruct (TrimSpace_fixed_inv a Hfix Ha) as [_ Hr].
  apply TrimSpace_fixed.
  - rewrite sapp_cons. by apply leadingSpace_ascii.
  - rewrite srev_app. apply trailingSpaceRev_straddle; [|done..].
    intros E. apply (f_equal String.rev) in E.
    rewrite srev_involutive in E. done.
Qed.

End TrimFacts.

(* ===================================================================== *)
(** ** The constraint checker                                            *)
(* ===================================================================== *)

Module SatisfiesFacts.
Import StringFacts TrimFacts.

Lemma satisfiesOne_ge_form h (r : string) :
  let w := String ">" (String "=" r) in
  TrimSpace w = w ->
  satisfiesOne h w = (0 <=? compareVersions h (TrimSpace r)).
Proof. intros w Hw. unfold satisfiesOne. rewrite Hw. reflexivity. Qed.

Lemma satisfiesOne_lt_form h (r : string) :
  let w := String "<" r in
  TrimSpace w = w -> HasPrefix r "=" = false ->
  satisfiesOne h w = (compareVersions h (TrimSpace r) <? 0).
Proof.
  intros w Hw Hr. unfold satisfiesOne. rewrite Hw. subst w.
  assert (HasPrefix (String "<" r) "<=" = false) as Hle.
  { change (HasPrefix (String "<" r) "<=") with (Ascii.eqb "<" "<" && HasPrefix r "=").
    by rewrite Hr, andb_false_r. }
  change (String.eqb (String "<" r) "") with false.
  assert (String.eqb (String "<" r) "0" = false) as -> by reflexivity.
  assert (HasPrefix (String "<" r) ">=" = false) as -> by reflexivity.
  rewrite Hle.
  assert (HasPrefix (String "<" r) "!=" = false) as -> by reflexivity.
  assert (HasPrefix (String "<" r) ">" = false) as -> by reflexivity.
  assert (HasPrefix (String "<" r) "<" = true) as -> by (by destruct r).
  reflexivity.
Qed.

(** The clause [">= A"], as [satisfies] hands it over. *)
Lemma clause_ge h (A : string) :
  TrimSpace A = A ->
  satisfiesOne h (TrimSpace (">= " +:+ A)) = (0 <=? compareVersions h A).
Proof.
  intros HA. destruct (decide (A = "")) as [->|Hne].
  - change (TrimSpace (">= " +:+ "")) with ">=".
    by rewrite (satisfiesOne_ge_form h "").
  - assert (TrimSpace (">= " +:+ A) = ">= " +:+ A) as ->.
    { apply (TrimSpace_ascii_prefix ">" "= " A); [reflexivity|reflexivity| |done|done].
      right. exists " "%char, "=>". split; reflexivity. }
    change (">= " +:+ A) with (String ">" (String "=" (String " " A))).
    rewrite satisfiesOne_ge_form.
    + by rewrite TrimSpace_space_l, HA.
    + apply (TrimSpace_ascii_prefix ">" "= " A); [reflexivity|reflexivity| |done|done].
      right. exists " "%char, "=>". split; reflexivity.
Qed.

(** The clause ["< B"], which follows the comma and a space. *)
Lemma clause_lt h (B : string) :
  TrimSpace B = B ->
  satisfiesOne h (TrimSpace (" < " +:+ B)) = (compareVersions h B <? 0).
Proof.
  intros HB.
  change (" < " +:+ B) with (String " " ("< " +:+ B)). rewrite TrimSpace_space_l.
  destruct (decide (B = "")) as [->|Hne].
  - change (TrimSpace ("< " +:+ "")) with "<".
    by rewrite (satisfiesOne_lt_form h "").
  - assert (TrimSpace ("< " +:+ B) = "< " +:+ B) as Hfix.
    { apply (TrimSpace_ascii_prefix "<" " " B); [reflexivity|reflexivity| |done|done].
      right. exists " "%char, "<". split; reflexivity. }
    rewrite Hfix.
    change ("< " +:+ B) with (String "<" (String " " B)).
    rewrite satisfiesOne_lt_form; [|exact Hfix|reflexivity].
    by rewrite TrimSpace_space_l, HB.
Qed.

Lemma free_app c (s t : string) :
  free c (s +:+ t) = free c s && free c t.
Proof.
  induction s as [|d s IH]; [reflexivity|].
  rewrite sapp_cons. simpl. rewrite IH. by rewrite andb_assoc.
Qed.

Lemma satisfies_undef C : satisfies "undef" C = true.
Proof. unfold satisfies. by destruct (_ || _). Qed.

Lemma satisfies_empty V : satisfies V "" = true.
Proof. reflexivity. Qed.

Lemma satisfies_zero V : satisfies V "0" = true.
Proof. reflexivity. Qed.

Lemma compareVersions_empty_have x :
  compareVersions "0" x = compareVersions "" x.
Proof. reflexivity. Qed.

Lemma satisfies_range V (A B : string) :
  V <> "undef" ->
  free "," A = true -> free "," B = true ->
  TrimSpace A = A -> TrimSpace B = B ->
  satisfies V (">= " +:+ A +:+ ", < " +:+ B)
  = (0 <=? compareVersions V A) && (compareVersions V B <? 0).
Proof.
  intros HV HfA HfB HA HB. unfold satisfies.
  change (">= " +:+ A +:+ ", < " +:+ B)
    with (String ">" (String "=" (String " " (A +:+ String "," (" < " +:+ B))))).
  change (String.eqb (String ">" ?s) "") with false.
  assert (forall s, String.eqb (String ">" s) "0" = false) as -> by reflexivity.
  simpl orb. cbv iota.
  destruct (String.eqb_spec V "undef") as [?|_]; [done|].
  change (String ">" (String "=" (String " " (A +:+ String "," (" < " +:+ B)))))
    with ((">= " +:+ A) +:+ String "," (" < " +:+ B)).
  rewrite Split_app by (rewrite free_app, HfA; reflexivity).
  rewrite Split_free by (change (" < " +:+ B) with (String " " (String "<" (String " " B))); simpl; exact HfB).
  simpl forallb. rewrite clause_ge, clause_lt, andb_true_r by done.
  destruct (String.eqb_spec V "") as [->|_]; [|reflexivity].
  by rewrite !compareVersions_empty_have.
Qed.

End SatisfiesFacts.

(** C7, as the claim puts it, fails at the version [undef]: [undef]
    satisfies [">= 1.0, < 2.0"], yet the comparator reads [undef] as 0,
    which lies below 1.0. *)
Lemma satisfies_range_undef_counterexample :
  satisfies "undef" (">= " +:+ "1.0" +:+ ", < " +:+ "2.0") = true /\
  ~ (compareVersions "1.0" "undef" <= 0 /\ compareVersions "undef" "2.0" < 0).
Proof. split; [reflexivity|]. intros [H _]. vm_compute in H. by apply H. Qed.

(** The same equivalence also breaks when a bound carries a comma or
    surrounding white space, which the checker splits on and trims. *)
Example satisfies_range_comma_bound :
  satisfies "0.5" (">= " +:+ "1,0" +:+ ", < " +:+ "2.0") = false /\
  compareVersions "1,0" "0.5" <= 0 /\ compareVersions "0.5" "2.0" < 0.
Proof. repeat split; vm_compute; congruence. Qed.

Example satisfies_range_padded_bound :
  satisfies "0.5" (">= " +:+ " 1 " +:+ ", < " +:+ "2.0") = false /\
  compareVersions " 1 " "0.5" <= 0 /\ compareVersions "0.5" "2.0" < 0.
Proof. repeat split; vm_compute; congruence. Qed.

(** C7 (amended): [undef] satisfies every constraint; the empty
    constraint and ["0"] are satisfied by every version; and for a version
    other than [undef] and bounds [A], [B] that contain no comma and no
    surrounding white space, [">= A, < B"] is satisfied exactly when
    [A <= V < B] under the comparator. *)
Theorem satisfies_laws :
  (forall C, satisfies "undef" C = true) /\
  (forall V, satisfies V "" = true /\ satisfies V "0" = true) /\
  (forall V A B : string,
      V <> "undef" ->
      free "," A = true -> free "," B = true ->
      TrimSpace A = A -> TrimSpace B = B ->
      (satisfies V (">= " +:+ A +:+ ", < " +:+ B) = true
       <-> compareVersions A V <= 0 /\ compareVersions V B < 0)).
Proof.
  split; [exact SatisfiesFacts.satisfies_undef|].
  split; [intros V; split; reflexivity|].
  intros V A B HV HfA HfB HA HB.
  rewrite SatisfiesFacts.satisfies_range by done.
  rewrite andb_true_iff, Z.leb_le, Z.ltb_lt.
  rewrite (VersionFacts.compareVersions_antisym A V). lia.
Qed.

Lemma satisfies_laws_witness :
  satisfies "1.5" (">= " +:+ "1.0" +:+ ", < " +:+ "2.0") = true
  <-> compareVersions "1.0" "1.5" <= 0 /\ compareVersions "1.5" "2.0" < 0.
Proof.
  apply (proj2 (proj2 satisfies_laws) "1.5" "1.0" "2.0").
  - discriminate.
  - reflexivity.
  - reflexivity.
  - reflexivity.
  - reflexivity.
Defined.

(* ===================================================================== *)
(** ** The snapshot emitter and parser                                   *)
(* ===================================================================== *)

(** The table of the emitter's TestNormalizeVersion. *)
Example TestSnapshotNormalizeVersion :
  Snapshot.normalizeVersion "" = "0" /\ Snapshot.normalizeVersion "0" = "0" /\
  Snapshot.normalizeVersion "1.0" = "1.0" /\ Snapshot.normalizeVersion ">= 1.0" = "1.0" /\
  Snapshot.normalizeVersion ">= 1.0, < 2.0" = "1.0" /\
  Snapshot.normalizeVersion "> 1.0" = "1.0" /\ Snapshot.normalizeVersion "== 1.0" = "1.0".
Proof. repeat split; reflexivity. Qed.

(* ===================================================================== *)
(** ** White-space runs at the end of a string                           *)
(* ===================================================================== *)

Module TrimRuns.
Import StringFacts TrimFacts.

(** The encoding of one white-space rune, seen from both ends.  Its
    first byte is no UTF-8 continuation byte and no operator byte. *)
Record spaceRune (q : string) : Prop := {
  rune_leading : forall x, leadingSpace (q +:+ x) = Some x;
  rune_trailing : forall x, trailingSpaceRev (String.rev q +:+ x) = Some x;
  rune_first : exists c q', q = String c q' /\ (byte c < 128 \/ 192 <= byte c)
                            /\ byte c <> 62 /\ byte c <> 61
}.

Inductive spaceRun : string -> Prop :=
| run_nil : spaceRun ""
| run_cons q w : spaceRune q -> spaceRun w -> spaceRun (q +:+ w).

Lemma asciiSpace_range c : asciiSpace c = true -> byte c < 128 /\ byte c <> 62 /\ byte c <> 61.
Proof. unfold asciiSpace. intros H. bool_cases; lia. Qed.

(** What [trailingSpaceRev] removes is a rune. *)
Lemma trailingSpaceRev_rune (t t' : string) :
  trailingSpaceRev t = Some t' ->
  exists q, t = String.rev q +:+ t' /\ spaceRune q.
Proof.
  unfold trailingSpaceRev. intros H.
  destruct t as [|c r]; [done|].
  destruct (asciiSpace c) eqn:Ec.
  { simplify_eq. exists (String c ""). split; [reflexivity|].
    destruct (asciiSpace_range c Ec) as (?&?&?).
    split.
    - intros x. rewrite sapp_cons, sapp_nil_l. unfold leadingSpace. by rewrite Ec.
    - intros x. change (String.rev (String c "")) with (String c "").
      rewrite sapp_cons, sapp_nil_l. unfold trailingSpaceRev. by rewrite Ec.
    - exists c, "". auto. }
  destruct r as [|d r1]; [done|].
  destruct ((byte d =? 194) && ((byte c =? 133) || (byte c =? 160))) eqn:E2.
  { simplify_eq. exists (String d (String c "")). split; [reflexivity|].
    assert (asciiSpace d = false) as Ed.
    { unfold asciiSpace. bool_cases; repeat case_match; try done; bool_cases; lia. }
    split.
    - intros x. rewrite !sapp_cons, sapp_nil_l. unfold leadingSpace.
      by rewrite Ed, E2.
    - intros x. change (String.rev (String d (String c ""))) with (String c (String d "")).
      rewrite !sapp_cons, sapp_nil_l. unfold trailingSpaceRev. by rewrite Ec, E2.
    - exists d, (String c ""). bool_cases; repeat split; try done; lia. }
  destruct r1 as [|e r2]; [done|].
  match type of H with (if ?b then _ else _) = _ => destruct b eqn:E3 end; [|done].
  simplify_eq. exists (String e (String d (String c ""))). split; [reflexivity|].
  assert (asciiSpace e = false) as Ee.
  { unfold asciiSpace. bool_cases; repeat case_match; try done; bool_cases; lia. }
  assert ((byte e =? 194) && ((byte d =? 133) || (byte d =? 160)) = false) as Ee2.
  { bool_cases; repeat case_match; try done; bool_cases; lia. }
  split.
  - intros x. rewrite !sapp_cons, sapp_nil_l. unfold leadingSpace.
    by rewrite Ee, Ee2, E3.
  - intros x.
    change (String.rev (String e (String d (String c ""))))
      with (String c (String d (String e ""))).
    rewrite !sapp_cons, sapp_nil_l. unfold trailingSpaceRev. by rewrite Ec, E2, E3.
  - exists e, (String d (String c "")). bool_cases; repeat split; try done; lia.
Qed.

(** The number of rounds does not matter once it covers the string. *)
Lemma trimLoop_fuel step (Hstep : forall s r, step s = Some r ->
                                   (String.length r < String.length s)%nat)
      fuel fuel' (s : string) :
  (String.length s <= fuel)%nat -> (String.length s <= fuel')%nat ->
  trimLoop step fuel s = trimLoop step fuel' s.
Proof.
  revert fuel' s. induction fuel as [|k IH]; intros fuel' s H1 H2.
  - destruct s; [|simpl in H1; lia]. destruct fuel'; simpl; [done|].
    destruct (step "") as [r|] eqn:E; [|done]. apply Hstep in E. simpl in E. lia.
  - destruct fuel' as [|k'].
    + destruct s; [|simpl in H2; lia]. simpl.
      destruct (step "") as [r|] eqn:E; [|done]. apply Hstep in E. simpl in E. lia.
    + simpl. destruct (step s) as [r|] eqn:E; [|done].
      apply Hstep in E. apply IH; lia.
Qed.

(** [TrimRightSpace] cuts a white-space run off the end. *)
Lemma trimLoop_trailing_run fuel (t : string) :
  exists w, spaceRun w /\ t = String.rev w +:+ trimLoop trailingSpaceRev fuel t.
Proof.
  revert t. induction fuel as [|k IH]; intros t; simpl.
  - exists "". split; [constructor|reflexivity].
  - destruct (trailingSpaceRev t) as [t'|] eqn:E.
    + destruct (trailingSpaceRev_rune _ _ E) as (q & -> & Hq).
      destruct (IH t') as (w & Hw & Ht').
      exists (w +:+ q). split.
      * clear Ht'. induction Hw as [|q' w' Hq' Hw' IHw].
        -- rewrite sapp_nil_l. rewrite <- (sapp_nil_r q). by constructor; [|constructor].
        -- rewrite sapp_assoc. by constructor.
      * rewrite srev_app, sapp_assoc. by rewrite <- Ht'.
    + exists "". split; [constructor|reflexivity].
Qed.

Lemma TrimRightSpace_run (s : string) :
  exists w, spaceRun w /\ s = TrimRightSpace s +:+ w.
Proof.
  destruct (trimLoop_trailing_run (String.length s) (String.rev s)) as (w & Hw & E).
  exists w. split; [done|]. unfold TrimRightSpace.
  apply (f_equal String.rev) in E.
  by rewrite srev_involutive, srev_app, srev_involutive in E.
Qed.

(** A prefix of a string that starts with no white-space rune starts
    with none either. *)
Lemma leadingSpace_prefix (u x : string) :
  leadingSpace (u +:+ x) = None -> leadingSpace u = None.
Proof.
  unfold leadingSpace. destruct u as [|c r]; [done|]. rewrite sapp_cons.
  destruct (asciiSpace c); [done|].
  destruct r as [|d r1]; [done|]. rewrite sapp_cons.
  destruct (_ && _); [done|].
  destruct r1 as [|e r2]; [done|]. rewrite sapp_cons.
  intros H. revert H.
  match goal with |- (if ?b then _ else _) = _ -> _ => by destruct b end.
Qed.

(** A rune that follows a non-empty string does not change how that
    string starts. *)
Lemma leadingSpace_app_rune (z q : string) :
  z <> "" -> spaceRune q ->
  leadingSpace (z +:+ q) = (fun r => r +:+ q) <$> leadingSpace z.
Proof.
  intros Hz [_ _ (c & q' & -> & Hc & _)].
  unfold leadingSpace. destruct z as [|a r]; [done|]. rewrite sapp_cons.
  destruct (asciiSpace a); [done|].
  destruct r as [|d r1].
  - rewrite sapp_nil_l.
    case_if E1; [bool_cases; lia|].
    destruct q' as [|e q2]; [done|].
    case_if E2; [bool_cases; lia|done].
  - rewrite sapp_cons.
    destruct (_ && _); [done|].
    destruct r1 as [|e r2].
    + rewrite sapp_nil_l.
      case_if E2; [unfold e280Space in E2; bool_cases; lia|done].
    + rewrite sapp_cons.
      match goal with |- (if ?b then _ else _) = _ => by destruct b end.
Qed.

Lemma trimLoop_S step fuel (s : string) :
  trimLoop step (S fuel) s
  = match step s with Some r => trimLoop step fuel r | None => s end.
Proof. reflexivity. Qed.

Lemma trimLoop_leading_rune fuel (q : string) :
  spaceRune q -> trimLoop leadingSpace (fuel + String.length q) q = "".
Proof.
  intros Hq. destruct Hq as [H1 _ (c & q' & -> & _)].
  replace (fuel + String.length (String c q'))%nat
    with (S (fuel + String.length q')) by (simpl; lia).
  assert (leadingSpace (String c q') = Some "") as E.
  { rewrite <- (sapp_nil_r (String c q')). apply H1. }
  rewrite trimLoop_S, E. by apply trimLoop_stuck.
Qed.

Lemma trimLoop_leading_app fuel (z q : string) :
  spaceRune q -> (String.length z <= fuel)%nat ->
  trimLoop leadingSpace (fuel + String.length q) (z +:+ q)
  = match trimLoop leadingSpace fuel z with
    | EmptyString => EmptyString
    | z' => z' +:+ q
    end.
Proof.
  intros Hq. revert z. induction fuel as [|k IH]; intros z Hl.
  - destruct z; [|simpl in Hl; lia]. rewrite sapp_nil_l.
    by rewrite trimLoop_leading_rune.
  - destruct (decide (z = "")) as [->|Hne].
    + rewrite sapp_nil_l, trimLoop_leading_rune by done. reflexivity.
    + change (S k + String.length q)%nat with (S (k + String.length q)).
      rewrite !trimLoop_S, leadingSpace_app_rune by done.
      destruct (leadingSpace z) as [r'|] eqn:E; simpl.
      * apply IH. apply leadingSpace_length in E. lia.
      * by destruct z.
Qed.

Lemma TrimLeftSpace_app_rune (z q : string) :
  spaceRune q ->
  TrimLeftSpace (z +:+ q)
  = match TrimLeftSpace z with
    | EmptyString => EmptyString
    | z' => z' +:+ q
    end.
Proof.
  intros Hq. unfold TrimLeftSpace. rewrite slength_app.
  by apply trimLoop_leading_app.
Qed.

Lemma TrimRightSpace_app_rune (z q : string) :
  spaceRune q -> TrimRightSpace (z +:+ q) = TrimRightSpace z.
Proof.
  intros Hq. unfold TrimRightSpace. f_equal.
  rewrite srev_app.
  assert (exists n, String.length (z +:+ q) = S n) as [n Hn].
  { destruct Hq as [_ _ (c & q' & -> & _)]. rewrite slength_app. simpl.
    exists (String.length z + String.length q')%nat. lia. }
  rewrite Hn, trimLoop_S, (rune_trailing q Hq).
  apply trimLoop_fuel; [apply trailingSpaceRev_length|..]; rewrite slength_rev; [|done].
  rewrite slength_app in Hn.
  destruct Hq as [_ _ (c & q' & -> & _)]. simpl in Hn. lia.
Qed.

Lemma TrimSpace_app_rune (z q : string) :
  spaceRune q -> TrimSpace (z +:+ q) = TrimSpace z.
Proof.
  intros Hq. unfold TrimSpace. rewrite TrimLeftSpace_app_rune by done.
  destruct (TrimLeftSpace z) as [|a r]; [done|].
  by apply TrimRightSpace_app_rune.
Qed.

Lemma TrimSpace_app_run (z w : string) :
  spaceRun w -> TrimSpace (z +:+ w) = TrimSpace z.
Proof.
  intros Hw. revert z. induction Hw as [|q w Hq Hw IH]; intros z.
  - by rewrite sapp_nil_r.
  - rewrite <- sapp_assoc, IH. by apply TrimSpace_app_rune.
Qed.

(** A run is empty or starts with a byte that is no operator byte. *)
Lemma spaceRun_first (w : string) :
  spaceRun w -> w = "" \/ exists c w', w = String c w' /\ byte c <> 62 /\ byte c <> 61.
Proof.
  intros [|q w' [_ _ (c & q' & -> & _ & ? & ?)] _]; [by left|].
  right. exists c, (q' +:+ w'). by rewrite sapp_cons.
Qed.

(** The result of [TrimSpace] starts with no white-space rune. *)
Lemma TrimSpace_leading (s : string) :
  TrimSpace s = "" \/ leadingSpace (TrimSpace s) = None.
Proof.
  unfold TrimSpace.
  destruct (trimLoop_done leadingSpace leadingSpace_length (String.length s) s)
    as [E|E]; [done|..].
  - fold (TrimLeftSpace s) in E. rewrite E. by left.
  - fold (TrimLeftSpace s) in E.
    destruct (TrimRightSpace_run (TrimLeftSpace s)) as (w & _ & Hw).
    rewrite Hw in E. right. by apply leadingSpace_prefix in E.
Qed.

End TrimRuns.

(* ===================================================================== *)
(** ** The emitter's constraint normalisation                            *)
(* ===================================================================== *)

Module NormalizeFacts.
Import StringFacts TrimFacts TrimRuns.

Lemma sliceTo_sliceFrom n (s : string) : sliceTo n s +:+ sliceFrom n s = s.
Proof.
  revert s. induction n as [|n IH]; intros s; [reflexivity|].
  destruct s as [|c r]; [reflexivity|]. simpl. rewrite sapp_cons. by f_equal.
Qed.

Lemma HasPrefix_app_other (y w op : string) :
  op <> "" ->
  (w = "" \/ exists c w', w = String c w' /\ free c op = true) ->
  HasPrefix (y +:+ w) op = HasPrefix y op.
Proof.
  revert y. induction op as [|a op IH]; intros y Hop Hw; [done|].
  destruct y as [|b y].
  - rewrite sapp_nil_l. destruct Hw as [->|(c & w' & -> & Hc)]; [done|].
    simpl in *. apply andb_true_iff in Hc as [Hc _].
    apply negb_true_iff in Hc. by rewrite Hc.
  - rewrite sapp_cons. simpl. destruct (Ascii.eqb a b); [|done]. simpl.
    destruct op as [|a' op']; [done|]. apply IH; [done|].
    destruct Hw as [->|(c & w' & -> & Hc)]; [by left|right].
    exists c, w'. split; [done|]. simpl in Hc. by apply andb_true_iff in Hc as [_ ?].
Qed.

Lemma sliceFrom_app_prefix (y w op : string) :
  HasPrefix y op = true ->
  sliceFrom (String.length op) (y +:+ w) = sliceFrom (String.length op) y +:+ w.
Proof.
  intros [r ->]%HasPrefix_spec. by rewrite sapp_assoc, !sliceFrom_app.
Qed.

Lemma TrimPrefix_app_other (y w op : string) :
  op <> "" ->
  (w = "" \/ exists c w', w = String c w' /\ free c op = true) ->
  TrimPrefix (y +:+ w) op = TrimPrefix y op +:+ w.
Proof.
  intros Hop Hw. unfold TrimPrefix. rewrite HasPrefix_app_other by done.
  destruct (HasPrefix y op) eqn:E; [|done]. by apply sliceFrom_app_prefix.
Qed.

Lemma not_operator_byte c :
  byte c <> 62 -> byte c <> 61 ->
  Ascii.eqb c ">" = false /\ Ascii.eqb c "=" = false.
Proof.
  intros H1 H2. split; apply Ascii.eqb_neq; intros ->; [by apply H1 | by apply H2].
Qed.

Lemma spaceRun_other (w op : string) :
  spaceRun w -> (forall c, byte c <> 62 -> byte c <> 61 -> free c op = true) ->
  w = "" \/ exists c w', w = String c w' /\ free c op = true.
Proof.
  intros Hw Hop. destruct (spaceRun_first w Hw) as [->|(c & w' & -> & H1 & H2)]; [by left|].
  right. exists c, w'. auto.
Qed.

Lemma free_operator c (op : string) :
  byte c <> 62 -> byte c <> 61 ->
  op = ">=" \/ op = ">" \/ op = "==" \/ op = "=" -> free c op = true.
Proof.
  intros H1 H2 Hop. destruct (not_operator_byte c H1 H2) as [Hgt Heq].
  rewrite Ascii.eqb_sym in Hgt. rewrite Ascii.eqb_sym in Heq.
  destruct Hop as [-> | [-> | [-> | ->]]]; simpl; by rewrite ?Hgt, ?Heq.
Qed.

Lemma TrimPrefix_app_run (y w op : string) :
  spaceRun w -> op = ">=" \/ op = ">" \/ op = "==" \/ op = "=" ->
  TrimPrefix (y +:+ w) op = TrimPrefix y op +:+ w.
Proof.
  intros Hw Hop. apply TrimPrefix_app_other.
  - by destruct Hop as [-> | [-> | [-> | ->]]].
  - apply spaceRun_other; [done|]. intros c ??. by apply free_operator.
Qed.

Lemma stripOperators_app_run (y w : string) :
  spaceRun w ->
  Snapshot.stripOperators (y +:+ w) = Snapshot.stripOperators y +:+ w.
Proof.
  intros Hw. unfold Snapshot.stripOperators.
  rewrite !TrimPrefix_app_run by auto. reflexivity.
Qed.

Lemma stripOneOperator_TrimPrefix (v : string) :
  Snapshot.stripOneOperator v
  = if HasPrefix v ">=" then TrimPrefix v ">="
    else if HasPrefix v ">" then TrimPrefix v ">"
    else if HasPrefix v "==" then TrimPrefix v "=="
    else TrimPrefix v "=".
Proof.
  unfold Snapshot.stripOneOperator, TrimPrefix.
  destruct (HasPrefix v ">="); [reflexivity|].
  destruct (HasPrefix v ">"); [reflexivity|].
  destruct (HasPrefix v "=="); reflexivity.
Qed.

Lemma stripOneOperator_app_run (y w : string) :
  spaceRun w ->
  Snapshot.stripOneOperator (y +:+ w) = Snapshot.stripOneOperator y +:+ w.
Proof.
  intros Hw. rewrite !stripOneOperator_TrimPrefix.
  assert (forall op, op = ">=" \/ op = ">" \/ op = "==" \/ op = "=" ->
                     HasPrefix (y +:+ w) op = HasPrefix y op) as Hp.
  { intros op Hop. apply HasPrefix_app_other.
    - by destruct Hop as [-> | [-> | [-> | ->]]].
    - apply spaceRun_other; [done|]. intros c ??. by apply free_operator. }
  rewrite !Hp by auto. rewrite !TrimPrefix_app_run by auto.
  destruct (HasPrefix y ">="); [reflexivity|].
  destruct (HasPrefix y ">"); [reflexivity|].
  destruct (HasPrefix y "=="); reflexivity.
Qed.

(** Trimming before the operators are stripped changes nothing: the
    re-trimming after it removes the same white space. *)
Lemma strip_trim_commute (strip : string -> string) (u : string) :
  (forall y w, spaceRun w -> strip (y +:+ w) = strip y +:+ w) ->
  u = "" \/ leadingSpace u = None ->
  TrimSpace (strip (TrimSpace u)) = TrimSpace (strip u).
Proof.
  intros Hstrip Hu.
  assert (TrimSpace u = TrimRightSpace u) as ->.
  { unfold TrimSpace. f_equal. destruct Hu as [->|Hu]; [reflexivity|].
    by apply trimLoop_stuck. }
  destruct (TrimRightSpace_run u) as (w & Hw & E).
  rewrite E at 2. rewrite Hstrip by done. by rewrite TrimSpace_app_run.
Qed.

Lemma beforeComma_leading (v : string) :
  v = "" \/ leadingSpace v = None ->
  Snapshot.beforeComma v = "" \/ leadingSpace (Snapshot.beforeComma v) = None.
Proof.
  intros Hv. unfold Snapshot.beforeComma.
  destruct (Index v ",") as [idx|]; [|done].
  destruct Hv as [->|Hv]; [left; by destruct idx|].
  right. rewrite <- (sliceTo_sliceFrom idx v) in Hv.
  by apply leadingSpace_prefix in Hv.
Qed.

Lemma normalizeVersion_unfold (strip : string -> string) (C : string) :
  (forall y w, spaceRun w -> strip (y +:+ w) = strip y +:+ w) ->
  strip "" = "" ->
  (let v := TrimSpace C in
   if String.eqb v "" then "0"
   else Snapshot.orZero
          (TrimSpace (strip match Index v "," with
                            | Some idx => TrimSpace (sliceTo idx v)
                            | None => v
                            end)))
  = Snapshot.orZero (TrimSpace (strip (Snapshot.beforeComma (TrimSpace C)))).
Proof.
  intros Hstrip Hnil. cbv zeta.
  destruct (String.eqb_spec (TrimSpace C) "") as [->|Hne].
  { unfold Snapshot.beforeComma. simpl. by rewrite Hnil. }
  pose proof (beforeComma_leading _ (TrimSpace_leading C)) as Hb.
  unfold Snapshot.beforeComma in *.
  destruct (Index (TrimSpace C) ",") as [idx|]; [|done].
  by rewrite strip_trim_commute.
Qed.

(** The code against the four prefix removals in sequence. *)
Lemma normalizeVersion_seq (C : string) :
  Snapshot.normalizeVersion C = Snapshot.normalizedConstraintSeq C.
Proof.
  unfold Snapshot.normalizedConstraintSeq.
  rewrite <- (normalizeVersion_unfold Snapshot.stripOperators);
    [reflexivity|apply stripOperators_app_run|reflexivity].
Qed.

(** One operator and the sequence of four agree unless a second
    operator follows the first directly. *)
Lemma HasPrefix_app_both (p r q : string) :
  HasPrefix (p +:+ r) (p +:+ q) = HasPrefix r q.
Proof.
  induction p as [|c p IH]; [reflexivity|].
  rewrite !sapp_cons. simpl. by rewrite Ascii.eqb_refl.
Qed.

Lemma HasPrefix_longer (s p q : string) :
  HasPrefix s p = false -> HasPrefix s (p +:+ q) = false.
Proof.
  intros H. destruct (HasPrefix s (p +:+ q)) eqn:E; [|done].
  apply HasPrefix_spec in E as [r ->]. rewrite sapp_assoc in H.
  by rewrite HasPrefix_app in H.
Qed.

Lemma TrimPrefix_no (s p : string) : HasPrefix s p = false -> TrimPrefix s p = s.
Proof. intros H. unfold TrimPrefix. by rewrite H. Qed.

Lemma TrimPrefix_yes (p r : string) : TrimPrefix (p +:+ r) p = r.
Proof. unfold TrimPrefix. by rewrite HasPrefix_app, sliceFrom_app. Qed.

Lemma stripOperators_one (v : string) :
  HasPrefix v ">=>" = false -> HasPrefix v ">==" = false ->
  HasPrefix v "===" = false ->
  Snapshot.stripOperators v = Snapshot.stripOneOperator v.
Proof.
  intros H1 H2 H3. unfold Snapshot.stripOperators, Snapshot.stripOneOperator.
  destruct (HasPrefix v ">=") eqn:E1.
  { apply HasPrefix_spec in E1 as [r ->].
    change ">=>" with (">=" +:+ ">") in H1. change ">==" with (">=" +:+ "=") in H2.
    rewrite HasPrefix_app_both in H1, H2.
    rewrite TrimPrefix_yes, (sliceFrom_app ">=").
    rewrite (TrimPrefix_no r ">") by done.
    rewrite (TrimPrefix_no r "==") by (by apply (HasPrefix_longer r "=" "=")).
    by rewrite TrimPrefix_no. }
  rewrite (TrimPrefix_no v ">=") by done.
  destruct (HasPrefix v ">") eqn:E2.
  { apply HasPrefix_spec in E2 as [r ->].
    change ">=" with (">" +:+ "=") in E1. rewrite HasPrefix_app_both in E1.
    rewrite TrimPrefix_yes, (sliceFrom_app ">").
    rewrite (TrimPrefix_no r "==") by (by apply (HasPrefix_longer r "=" "=")).
    by rewrite TrimPrefix_no. }
  rewrite (TrimPrefix_no v ">") by done.
  destruct (HasPrefix v "==") eqn:E3.
  { apply HasPrefix_spec in E3 as [r ->].
    change "===" with ("==" +:+ "=") in H3. rewrite HasPrefix_app_both in H3.
    rewrite TrimPrefix_yes, (sliceFrom_app "==").
    by rewrite TrimPrefix_no. }
  rewrite (TrimPrefix_no v "==") by done.
  unfold TrimPrefix. by destruct (HasPrefix v "=").
Qed.

(** Operators outside the prefix set stay in place. *)
Lemma stripOperators_other (v : string) :
  HasPrefix v "<" = true \/ HasPrefix v "!" = true ->
  Snapshot.stripOperators v = v.
Proof.
  intros H. unfold Snapshot.stripOperators, TrimPrefix.
  destruct v as [|a r]; [reflexivity|].
  cbn [HasPrefix] in *.
  assert (a = "<"%char \/ a = "!"%char) as Ha.
  { destruct H as [H|H]; apply andb_true_iff in H as [H _];
      apply Ascii.eqb_eq in H; auto. }
  destruct Ha as [-> | ->]; reflexivity.
Qed.

End NormalizeFacts.

(** C8, as the claim puts it, fails where a second operator follows the
    first: the code removes [>=] and then [=] from [">==1.0"], while
    stripping one leading operator leaves ["=1.0"]. *)
Lemma normalizeVersion_one_operator_counterexample :
  Snapshot.normalizeVersion ">==1.0" = "1.0" /\
  Snapshot.normalizedConstraint ">==1.0" = "=1.0" /\
  Snapshot.normalizeVersion ">==1.0" <> Snapshot.normalizedConstraint ">==1.0".
Proof. repeat split; try reflexivity. discriminate. Qed.

(** C8 (amended): the emitter writes the constraint trimmed, cut before
    the first comma, with the prefixes [>=], [>], [==], [=] removed one
    after the other, trimmed again, and ["0"] if nothing is left.  This is
    the constraint with one leading operator stripped whenever the text
    before the comma does not start with [>=>], [>==] or [===]; a
    constraint that starts with [<] or [!] keeps its operator. *)
Theorem emitted_constraint_normal_form (C : string) :
  Snapshot.normalizeVersion C = Snapshot.normalizedConstraintSeq C /\
  (let v := Snapshot.beforeComma (TrimSpace C) in
   HasPrefix v ">=>" = false -> HasPrefix v ">==" = false ->
   HasPrefix v "===" = false ->
   Snapshot.normalizeVersion C = Snapshot.normalizedConstraint C) /\
  (let v := Snapshot.beforeComma (TrimSpace C) in
   HasPrefix v "<" = true \/ HasPrefix v "!" = true ->
   Snapshot.normalizeVersion C = Snapshot.orZero (TrimSpace v)) /\
  (forall m k,
      Snapshot.requirementsLine m k
      = "      " +:+ k +:+ " " +:+ Snapshot.normalizeVersion (goIndex m k) +:+ Snapshot.nl).
Proof.
  split; [apply NormalizeFacts.normalizeVersion_seq|].
  split; [|split].
  - intros v H1 H2 H3. rewrite NormalizeFacts.normalizeVersion_seq.
    unfold Snapshot.normalizedConstraintSeq, Snapshot.normalizedConstraint.
    fold v. by rewrite NormalizeFacts.stripOperators_one.
  - intros v H. rewrite NormalizeFacts.normalizeVersion_seq.
    unfold Snapshot.normalizedConstraintSeq. fold v.
    by rewrite NormalizeFacts.stripOperators_other.
  - reflexivity.
Qed.

Lemma emitted_constraint_normal_form_witness :
  Snapshot.normalizeVersion "  >= 1.0 , < 2.0" = Snapshot.normalizedConstraint "  >= 1.0 , < 2.0".
Proof.
  apply (proj1 (proj2 (emitted_constraint_normal_form "  >= 1.0 , < 2.0")));
    reflexivity.
Defined.

(* ===================================================================== *)
(** ** The emitted text, read back line by line                          *)
(* ===================================================================== *)

Module RoundTrip.
Import StringFacts Snapshot Parsed.

(** **** Sorting a sorted slice *)

Lemma fold_insertRev_sorted (l : list Dist) (racc : list Dist) :
  sortedByName l = true ->
  match racc, l with
  | y :: _, x :: _ => strLt (Name x) (Name y) = false
  | _, _ => True
  end ->
  fold_left (fun racc x => insertRev (fun a b => strLt (Name a) (Name b)) x racc) l racc
  = rev l ++ racc.
Proof.
  revert racc. induction l as [|x l IH]; intros racc Hs Hhd; [reflexivity|].
  simpl fold_left.
  assert (insertRev (fun a b => strLt (Name a) (Name b)) x racc = x :: racc) as ->.
  { destruct racc as [|y r]; [reflexivity|]. simpl. by rewrite Hhd. }
  rewrite IH.
  - simpl. by rewrite <- app_assoc.
  - destruct l; [done|]. simpl in Hs. by apply andb_true_iff in Hs as [_ ?].
  - destruct l as [|x' l']; [done|]. simpl in Hs.
    apply andb_true_iff in Hs as [Hs _]. by apply negb_true_iff in Hs.
Qed.

Lemma insertionSort_sorted (l : list Dist) :
  sortedByName l = true ->
  insertionSort (fun a b => strLt (Name a) (Name b)) l = l.
Proof.
  intros Hs. unfold insertionSort. rewrite fold_insertRev_sorted by done.
  by rewrite app_nil_r, rev_involutive.
Qed.

(** **** Insertion sort permutes *)

Lemma insertRev_perm {A} (less : A -> A -> bool) x (racc : list A) :
  insertRev less x racc ≡ₚ x :: racc.
Proof.
  induction racc as [|y r IH]; [done|]. simpl.
  destruct (less x y); [|done]. rewrite IH. apply Permutation_swap.
Qed.

Lemma insertionSort_perm {A} (less : A -> A -> bool) (l : list A) :
  insertionSort less l ≡ₚ l.
Proof.
  unfold insertionSort.
  assert (forall racc, fold_left (fun racc x => insertRev less x racc) l racc
                       ≡ₚ l ++ racc) as H.
  { induction l as [|x l IH]; intros racc; [done|]. simpl.
    rewrite IH, insertRev_perm. by rewrite Permutation_middle. }
  rewrite <- Permutation_rev, H. by rewrite app_nil_r.
Qed.

Lemma elem_of_sortedKeys (m : gmap string string) k :
  k ∈ sortedKeys m <-> is_Some (m !! k).
Proof.
  unfold sortedKeys. rewrite insertionSort_perm.
  change (map fst (map_to_list m)) with ((map_to_list m).*1).
  rewrite list_elem_of_fmap. split.
  - intros ([k' v] & -> & H%elem_of_map_to_list). eauto.
  - intros [v H]. exists (k, v). split; [done|]. by apply elem_of_map_to_list.
Qed.

(** **** The emitted text as a list of lines *)

Lemma concatStrings_app (a b : list string) :
  concatStrings (a ++ b) = concatStrings a +:+ concatStrings b.
Proof.
  induction a as [|x a IH]; [reflexivity|].
  simpl. rewrite IH. by rewrite sapp_assoc.
Qed.

Lemma unlines_cons l (ls : list string) : unlines (l :: ls) = l +:+ nl +:+ unlines ls.
Proof. unfold unlines. simpl. by rewrite sapp_assoc. Qed.

Lemma unlines_app (a b : list string) : unlines (a ++ b) = unlines a +:+ unlines b.
Proof. unfold unlines. by rewrite map_app, concatStrings_app. Qed.

Lemma sectionLines_text title value (m : gmap string string) :
  (if (0 <? size m)%nat
   then (title +:+ nl)
        +:+ concatStrings (map (fun k => "      " +:+ k +:+ " " +:+ value k +:+ nl)
                             (sortedKeys m))
   else "")
  = unlines (sectionLines title value m).
Proof.
  unfold sectionLines. destruct (0 <? size m)%nat; [|reflexivity].
  rewrite unlines_cons, sapp_assoc. f_equal. f_equal.
  unfold unlines. rewrite map_map. f_equal. apply map_ext. intros k.
  by rewrite !sapp_assoc.
Qed.

Lemma emitDist_lines (d : Dist) : emitDist d = unlines (distLines d).
Proof.
  unfold emitDist, distLines. rewrite !unlines_cons, unlines_app.
  rewrite <- (sectionLines_text "    provides:" (providesValue (Provides d))).
  rewrite <- (sectionLines_text "    requirements:"
                (fun k => normalizeVersion (goIndex (Requirements d) k))).
  rewrite !sapp_assoc. reflexivity.
Qed.

Lemma Emit_lines (S : list Dist) :
  sortedByName S = true ->
  Emit S = unlines ("# carton snapshot format: version 1.0" :: "DISTRIBUTIONS"
                      :: concat (map distLines S)).
Proof.
  intros Hs. unfold Emit. rewrite insertionSort_sorted by done.
  rewrite !unlines_cons. unfold header. rewrite !sapp_assoc. do 4 f_equal.
  induction S as [|d S IH]; [reflexivity|].
  change (concat (map distLines (d :: S))) with (distLines d ++ concat (map distLines S)).
  change (concatStrings (map emitDist (d :: S)))
    with (emitDist d +:+ concatStrings (map emitDist S)).
  rewrite unlines_app, emitDist_lines. f_equal. apply IH.
  destruct S; [done|]. simpl in Hs. by apply andb_true_iff in Hs as [_ ?].
Qed.

(** **** The scanner returns the lines *)

Lemma scanGo_line cur (l rest : string) :
  free "010" l = true ->
  scanGo cur (l +:+ nl +:+ rest)
  = if maxLine <? Z.of_nat (String.length (String.rev l +:+ cur)) then None
    else cons (dropCRRev (String.rev l +:+ cur)) <$> scanGo "" rest.
Proof.
  revert cur. induction l as [|c l IH]; intros cur Hf.
  - rewrite sapp_nil_l. change (String.rev "" +:+ cur) with cur.
    unfold nl. rewrite sapp_cons, sapp_nil_l. simpl. reflexivity.
  - simpl in Hf. apply andb_true_iff in Hf as [Hc Hf].
    apply negb_true_iff in Hc. rewrite sapp_cons. simpl. rewrite Hc.
    rewrite IH by done. by rewrite srev_cons, !sapp_assoc.
Qed.

Lemma dropCRRev_rev (l : string) : endsWithCR l = false -> dropCRRev (String.rev l) = l.
Proof.
  unfold endsWithCR, dropCRRev. destruct (String.rev l) as [|c r] eqn:E.
  - intros _. apply (f_equal String.rev) in E. by rewrite srev_involutive in E.
  - simpl. rewrite andb_true_r, Ascii.eqb_sym. intros ->.
    by rewrite <- E, srev_involutive.
Qed.

(** **** Every emitted line passes the scanner unchanged *)

Lemma nonSpace_not_nl c : nonSpace c = true -> Ascii.eqb c "010" = false.
Proof.
  intros H. apply Ascii.eqb_neq. intros ->. discriminate.
Qed.

Lemma nonSpace_not_cr c : nonSpace c = true -> Ascii.eqb "013" c = false.
Proof.
  intros H. apply Ascii.eqb_neq. intros <-. discriminate.
Qed.

Lemma allNonSpace_free (s : string) : allNonSpace s = true -> free "010" s = true.
Proof.
  induction s as [|c s IH]; [done|]. simpl.
  intros [Hc Hs]%andb_true_iff. by rewrite (nonSpace_not_nl c Hc), IH.
Qed.

Lemma endsWithCR_app (p s : string) : s <> "" -> endsWithCR (p +:+ s) = endsWithCR s.
Proof.
  intros Hs. unfold endsWithCR. rewrite srev_app.
  destruct (String.rev s) as [|c r] eqn:E.
  - apply (f_equal String.rev) in E. by rewrite srev_involutive in E.
  - reflexivity.
Qed.

Lemma endsWithCR_cons c (s : string) :
  endsWithCR (String c s)
  = match s with EmptyString => Ascii.eqb "013" c | _ => endsWithCR s end.
Proof.
  destruct s as [|d s]; [unfold endsWithCR; simpl; by rewrite andb_true_r|].
  by apply (endsWithCR_app (String c "") (String d s)).
Qed.

Lemma allNonSpace_endsWithCR (s : string) : allNonSpace s = true -> endsWithCR s = false.
Proof.
  induction s as [|c s IH]; [done|]. simpl.
  intros [Hc Hs]%andb_true_iff. rewrite endsWithCR_cons.
  destruct s; [by apply nonSpace_not_cr | by apply IH].
Qed.

Lemma eqb_empty_false (s : string) : negb (String.eqb s "") = true -> s <> "".
Proof. by intros H ->. Qed.

(** One carriage return at the end of a line is dropped. *)
Lemma dropCR_fixed (l : string) : endsWithCR l = false -> dropCR l = l.
Proof. apply dropCRRev_rev. Qed.

Lemma dropCR_snoc (l : string) : dropCR (l +:+ String "013" "") = l.
Proof.
  unfold dropCR. rewrite srev_app.
  change (String.rev (String "013" "")) with (String "013" "").
  rewrite sapp_cons, sapp_nil_l. simpl. apply srev_involutive.
Qed.

Lemma dropCR_cases (l : string) :
  (endsWithCR l = false /\ dropCR l = l) \/ l = dropCR l +:+ String "013" "".
Proof.
  destruct (endsWithCR l) eqn:E.
  - right. unfold endsWithCR in E. unfold dropCR, dropCRRev.
    destruct (String.rev l) as [|c r] eqn:Er; [done|].
    simpl in E. rewrite andb_true_r in E. apply ascii_eqb_eq in E as <-.
    simpl. rewrite <- (srev_involutive l), Er at 1. apply srev_cons.
  - left. split; [done|]. by apply dropCR_fixed.
Qed.

Lemma dropCR_fixed_inv (l : string) : dropCR l = l -> endsWithCR l = false.
Proof.
  intros H. destruct (dropCR_cases l) as [[? _]|E]; [done|].
  apply (f_equal String.length) in E. rewrite slength_app, H in E. simpl in E. lia.
Qed.

Lemma dropCR_app (a b : string) :
  endsWithCR a = false -> dropCR (a +:+ b) = a +:+ dropCR b.
Proof.
  intros Ha. destruct (dropCR_cases b) as [[Hb ->]|Hb].
  - apply dropCR_fixed. destruct b as [|c b]; [by rewrite sapp_nil_r|].
    by rewrite endsWithCR_app.
  - remember (dropCR b) as b' eqn:E. rewrite Hb, <- sapp_assoc. apply dropCR_snoc.
Qed.

Lemma free_dropCR c (l : string) : free c l = true -> free c (dropCR l) = true.
Proof.
  destruct (dropCR_cases l) as [[_ ->]|E]; [done|].
  rewrite E at 1. rewrite SatisfiesFacts.free_app. by intros [? _]%andb_true_iff.
Qed.

Lemma scanLines_unlines (ls : list string) :
  Forall (fun l => free "010" l = true) ls ->
  scanLines (unlines ls) = if forallb fits ls then Some (map dropCR ls) else None.
Proof.
  unfold scanLines. induction ls as [|l ls IH]; intros H; [reflexivity|].
  apply Forall_cons in H as [Hl Hls].
  rewrite unlines_cons, scanGo_line by done.
  rewrite sapp_nil_r, slength_rev. simpl forallb. unfold fits at 1.
  destruct (Z.ltb_spec maxLine (Z.of_nat (String.length l))) as [Hlen|Hlen].
  - by rewrite (proj2 (Z.leb_gt _ _) Hlen).
  - rewrite (proj2 (Z.leb_le _ _) Hlen), (IH Hls). simpl.
    by destruct (forallb fits ls).
Qed.
(** **** How the parser classifies the emitted lines *)

Lemma parseLine_indented st (r : string) :
  parseLine st (String " " r)
  = match distNameRe (String " " r) with
    | Some name => mkPstate (flush st) (Some (mkDist name "" ∅ ∅ "")) false false
    | None =>
        match current st with
        | None => st
        | Some cur =>
            match pathnameRe (String " " r) with
            | Some p => mkPstate (dists st) (Some (setPathname cur p))
                                 (inProvides st) (inRequirements st)
            | None =>
                if providesRe (String " " r)
                then mkPstate (dists st) (current st) true false
                else if requiresRe (String " " r)
                then mkPstate (dists st) (current st) false true
                else
                  match moduleVerRe (String " " r) with
                  | Some (module, version) =>
                      if inProvides st then
                        mkPstate (dists st) (Some (setProvides cur module version))
                                 (inProvides st) (inRequirements st)
                      else if inRequirements st then
                        mkPstate (dists st) (Some (setRequirements cur module version))
                                 (inProvides st) (inRequirements st)
                      else st
                  | None => st
                  end
            end
        end
    end.
Proof. reflexivity. Qed.

Lemma parseLine_comment st (r : string) : parseLine st (String "#" r) = st.
Proof. reflexivity. Qed.

Lemma parseLine_marker st : parseLine st "DISTRIBUTIONS" = st.
Proof. reflexivity. Qed.

Lemma parseLine_name st (name : string) :
  tokenOK name = true ->
  parseLine st ("  " +:+ name)
  = mkPstate (flush st) (Some (mkDist name "" ∅ ∅ "")) false false.
Proof.
  intros H. change ("  " +:+ name) with (String " " (String " " name)).
  rewrite parseLine_indented.
  change (distNameRe (String " " (String " " name)))
    with (if tokenOK name then Some name else None).
  by rewrite H.
Qed.

(** The line of a pathname: read when something is left of it. *)
Lemma parseLine_pathname st cur (p : string) :
  current st = Some cur -> free "010" p = true ->
  parseLine st ("    pathname: " +:+ p)
  = if String.eqb p "" then st
    else mkPstate (dists st) (Some (setPathname cur p))
                  (inProvides st) (inRequirements st).
Proof.
  intros Hc Hp.
  change ("    pathname: " +:+ p)
    with (String " " (String " " (String " " (" pathname: " +:+ p)))).
  rewrite parseLine_indented, Hc.
  change (distNameRe _) with (@None string).
  change (pathnameRe _) with (if dotPlus p then Some p else None).
  unfold dotPlus. rewrite Hp, andb_true_r.
  destruct p as [|c p]; reflexivity.
Qed.

Lemma parseLine_provides st cur :
  current st = Some cur ->
  parseLine st "    provides:" = mkPstate (dists st) (current st) true false.
Proof. intros Hc. unfold parseLine. rewrite Hc. reflexivity. Qed.

Lemma parseLine_requirements st cur :
  current st = Some cur ->
  parseLine st "    requirements:" = mkPstate (dists st) (current st) false true.
Proof. intros Hc. unfold parseLine. rewrite Hc. reflexivity. Qed.

Lemma spanNonSpace_token (k v : string) :
  allNonSpace k = true -> spanNonSpace (k +:+ String " " v) = (k, String " " v).
Proof.
  induction k as [|c k IH]; intros H; [reflexivity|].
  simpl in H. apply andb_true_iff in H as [Hc Hk].
  rewrite sapp_cons. simpl. by rewrite Hc, IH.
Qed.

Lemma moduleVerRe_line (k v : string) :
  tokenOK k = true -> free "010" v = true ->
  moduleVerRe ("      " +:+ k +:+ " " +:+ v)
  = if String.eqb v "" then None else Some (k, v).
Proof.
  intros Hk Hv. unfold tokenOK in Hk. apply andb_true_iff in Hk as [Hne Hk].
  change (moduleVerRe ("      " +:+ k +:+ " " +:+ v))
    with (let '(module, rest) := spanNonSpace (k +:+ String " " v) in
          match module, rest with
          | String _ _, String c version =>
              if Ascii.eqb c " " && dotPlus version then Some (module, version) else None
          | _, _ => None
          end).
  rewrite spanNonSpace_token by done.
  destruct k as [|c k]; [done|]. unfold dotPlus. rewrite Hv.
  by destruct (String.eqb v "").
Qed.

(** The line of an entry: read into the open section when something is
    left after the key, passed over otherwise. *)
Lemma parseLine_module st cur (k v : string) :
  current st = Some cur -> tokenOK k = true -> free "010" v = true ->
  parseLine st ("      " +:+ k +:+ " " +:+ v)
  = if String.eqb v "" then st
    else if inProvides st then
      mkPstate (dists st) (Some (setProvides cur k v)) (inProvides st) (inRequirements st)
    else if inRequirements st then
      mkPstate (dists st) (Some (setRequirements cur k v))
               (inProvides st) (inRequirements st)
    else st.
Proof.
  intros Hc Hk Hv.
  pose proof (moduleVerRe_line k v Hk Hv) as Hm.
  change ("      " +:+ k +:+ " " +:+ v)
    with (String " " (String " " (String " " (String " " (String " "
            (String " " (k +:+ " " +:+ v))))))) in *.
  rewrite parseLine_indented, Hc, Hm.
  by destruct (String.eqb v "").
Qed.

Lemma mapAll_lookup P (m : gmap string string) k v :
  mapAll P m = true -> m !! k = Some v -> P k v = true.
Proof.
  unfold mapAll. rewrite forallb_forall. intros H E.
  apply (H (k, v)). apply list_elem_of_In. by apply elem_of_map_to_list.
Qed.

Lemma mapAll_intro P (m : gmap string string) :
  (forall k v, m !! k = Some v -> P k v = true) -> mapAll P m = true.
Proof.
  intros H. unfold mapAll. apply forallb_forall. intros [k v] Hin.
  apply H. apply elem_of_map_to_list. by apply list_elem_of_In.
Qed.

Lemma goIndex_lookup (m : gmap string string) k v : m !! k = Some v -> goIndex m k = v.
Proof. unfold goIndex. by intros ->. Qed.

Lemma size_zero_empty (m : gmap string string) : (0 <? size m)%nat = false -> m = ∅.
Proof. intros H%Nat.ltb_ge. apply map_size_empty_iff. lia. Qed.

Lemma size_pos_lookup (m : gmap string string) k v :
  m !! k = Some v -> (0 <? size m)%nat = true.
Proof.
  intros E. destruct (0 <? size m)%nat eqn:H; [done|].
  apply size_zero_empty in H. subst. by rewrite lookup_empty in E.
Qed.

(** **** Reading a section back *)

Lemma readEntry_value raw (acc : gmap string string) k :
  readEntry raw acc k
  = if String.eqb (dropCR (raw k)) "" then acc else <[k := dropCR (raw k)]> acc.
Proof. unfold readEntry, readValue. by destruct (String.eqb _ _). Qed.

Lemma parse_provides_lines raw (keys : list string) :
  forall st cur,
    current st = Some cur -> inProvides st = true ->
    (forall k, k ∈ keys -> tokenOK k = true /\ free "010" (raw k) = true) ->
    fold_left parseLine
      (map (fun k => "      " +:+ k +:+ " " +:+ dropCR (raw k)) keys) st
    = mkPstate (dists st)
        (Some (mkDist (Name cur) (Pathname cur)
                      (fold_left (readEntry raw) keys (Provides cur))
                      (Requirements cur) (Source cur)))
        true (inRequirements st).
Proof.
  induction keys as [|k keys IH]; intros st cur Hc Hp Hok.
  - simpl. destruct st, cur; simpl in *. by subst.
  - simpl. destruct (Hok k) as [Hk Hv]; [by left|].
    rewrite (parseLine_module st cur) by (done || by apply free_dropCR).
    rewrite Hp, readEntry_value.
    destruct (String.eqb (dropCR (raw k)) "").
    + apply IH; [done..|]. intros k' Hk'. apply Hok. by right.
    + rewrite (IH _ (setProvides cur k (dropCR (raw k)))); [done..|].
      intros k' Hk'. apply Hok. by right.
Qed.

Lemma parse_requirements_lines raw (keys : list string) :
  forall st cur,
    current st = Some cur -> inProvides st = false -> inRequirements st = true ->
    (forall k, k ∈ keys -> tokenOK k = true /\ free "010" (raw k) = true) ->
    fold_left parseLine
      (map (fun k => "      " +:+ k +:+ " " +:+ dropCR (raw k)) keys) st
    = mkPstate (dists st)
        (Some (mkDist (Name cur) (Pathname cur) (Provides cur)
                      (fold_left (readEntry raw) keys (Requirements cur))
                      (Source cur)))
        false true.
Proof.
  induction keys as [|k keys IH]; intros st cur Hc Hp Hr Hok.
  - simpl. destruct st, cur; simpl in *. by subst.
  - simpl. destruct (Hok k) as [Hk Hv]; [by left|].
    rewrite (parseLine_module st cur) by (done || by apply free_dropCR).
    rewrite Hp, Hr, readEntry_value.
    destruct (String.eqb (dropCR (raw k)) "").
    + apply IH; [done..|]. intros k' Hk'. apply Hok. by right.
    + rewrite (IH _ (setRequirements cur k (dropCR (raw k)))); [done..|].
      intros k' Hk'. apply Hok. by right.
Qed.

Lemma fold_readEntry_lookup raw (keys : list string) (acc : gmap string string) i :
  fold_left (readEntry raw) keys acc !! i
  = if decide (i ∈ keys)
    then match readValue (raw i) with Some v => Some v | None => acc !! i end
    else acc !! i.
Proof.
  revert acc. induction keys as [|k keys IH]; intros acc.
  - case_decide as H; [by apply elem_of_nil in H|done].
  - simpl fold_left. rewrite IH.
    assert (readEntry raw acc k !! i
            = if decide (i = k)
              then match readValue (raw i) with Some v => Some v | None => acc !! i end
              else acc !! i) as E.
    { unfold readEntry. destruct (decide (i = k)) as [->|Hne].
      - destruct (readValue (raw k)); [by rewrite lookup_insert_eq|done].
      - destruct (readValue (raw k)); [by rewrite lookup_insert_ne|done]. }
    rewrite E.
    destruct (decide (i ∈ k :: keys)) as [Hin'|Hnin'];
      destruct (decide (i ∈ keys)) as [Hin|Hnin];
      destruct (decide (i = k)) as [->|Hne]; try done;
      try (exfalso; apply Hnin'; by (left || right));
      try (by destruct (readValue (raw _))).
    by apply elem_of_cons in Hin' as [?|?].
Qed.

Lemma readSection_lookup raw (m : gmap string string) i :
  readSection raw m !! i
  = match m !! i with Some _ => readValue (raw i) | None => None end.
Proof.
  unfold readSection. rewrite fold_readEntry_lookup, lookup_empty.
  destruct (decide (i ∈ sortedKeys m)) as [Hin|Hnin].
  - apply elem_of_sortedKeys in Hin as [v ->]. by destruct (readValue (raw i)).
  - destruct (m !! i) eqn:E; [|done].
    exfalso. apply Hnin, elem_of_sortedKeys. eauto.
Qed.

Lemma readSection_empty raw : readSection raw ∅ = ∅.
Proof. apply map_eq. intros i. by rewrite readSection_lookup, lookup_empty. Qed.

(** The lines of a section as the scanner hands them back. *)
Lemma dropCR_sectionLines title raw (m : gmap string string) :
  endsWithCR title = false ->
  (forall k v, m !! k = Some v -> tokenOK k = true) ->
  map dropCR (sectionLines title raw m)
  = sectionLines title (fun k => dropCR (raw k)) m.
Proof.
  intros Ht Hk. unfold sectionLines. destruct (0 <? size m)%nat; [|done].
  simpl. rewrite (dropCR_fixed _ Ht). f_equal.
  rewrite map_map. apply map_ext_in. intros k Hin.
  apply list_elem_of_In, elem_of_sortedKeys in Hin as [v E].
  rewrite <- (sapp_assoc k " "), <- (sapp_assoc "      ").
  rewrite dropCR_app; [by rewrite !sapp_assoc|].
  rewrite <- sapp_assoc. by apply (endsWithCR_app ("      " +:+ k) " ").
Qed.

Lemma parse_provides_section st cur raw (m : gmap string string) :
  current st = Some cur -> Provides cur = ∅ ->
  (forall k v, m !! k = Some v -> tokenOK k = true /\ free "010" (raw k) = true) ->
  exists ip ir,
    fold_left parseLine (sectionLines "    provides:" (fun k => dropCR (raw k)) m) st
    = mkPstate (dists st)
        (Some (mkDist (Name cur) (Pathname cur) (readSection raw m)
                      (Requirements cur) (Source cur)))
        ip ir.
Proof.
  intros Hc He Hm. unfold sectionLines.
  destruct (0 <? size m)%nat eqn:Hsz.
  - simpl fold_left. rewrite (parseLine_provides st cur Hc).
    rewrite (parse_provides_lines _ _ _ cur); [|by rewrite <- Hc|done|].
    + exists true, false. simpl. by rewrite He.
    + intros k [v E]%elem_of_sortedKeys. by apply (Hm k v).
  - exists (inProvides st), (inRequirements st).
    rewrite (size_zero_empty m Hsz), readSection_empty. simpl.
    destruct st, cur; simpl in *. by subst.
Qed.

Lemma parse_requirements_section st cur raw (m : gmap string string) :
  current st = Some cur -> Requirements cur = ∅ ->
  (forall k v, m !! k = Some v -> tokenOK k = true /\ free "010" (raw k) = true) ->
  exists ip ir,
    fold_left parseLine (sectionLines "    requirements:" (fun k => dropCR (raw k)) m) st
    = mkPstate (dists st)
        (Some (mkDist (Name cur) (Pathname cur) (Provides cur) (readSection raw m)
                      (Source cur)))
        ip ir.
Proof.
  intros Hc He Hm. unfold sectionLines.
  destruct (0 <? size m)%nat eqn:Hsz.
  - simpl fold_left. rewrite (parseLine_requirements st cur Hc).
    rewrite (parse_requirements_lines _ _ _ cur); [|by rewrite <- Hc|done|done|].
    + exists false, true. simpl. by rewrite He.
    + intros k [v E]%elem_of_sortedKeys. by apply (Hm k v).
  - exists (inProvides st), (inRequirements st).
    rewrite (size_zero_empty m Hsz), readSection_empty. simpl.
    destruct st, cur; simpl in *. by subst.
Qed.

(** **** The emitter's [normalizeVersion] keeps a value on its line *)

Lemma free_sliceFrom c n (s : string) : free c s = true -> free c (sliceFrom n s) = true.
Proof.
  revert s. induction n as [|n IH]; intros s H; [done|].
  destruct s as [|d s]; [done|]. simpl in *.
  apply andb_true_iff in H as [_ H]. by apply IH.
Qed.

Lemma free_sliceTo c n (s : string) : free c s = true -> free c (sliceTo n s) = true.
Proof.
  revert s. induction n as [|n IH]; intros s H; [done|].
  destruct s as [|d s]; [done|]. simpl in *.
  apply andb_true_iff in H as [-> H]. by apply IH.
Qed.

Lemma free_reversed c (s : string) : free c (String.rev s) = free c s.
Proof.
  induction s as [|d s IH]; [done|].
  rewrite srev_cons, SatisfiesFacts.free_app, IH. simpl.
  rewrite andb_true_r. apply andb_comm.
Qed.

Lemma free_leadingSpace c (s r : string) :
  leadingSpace s = Some r -> free c s = true -> free c r = true.
Proof.
  unfold leadingSpace. intros H Hf.
  repeat (case_match; simplify_eq; simpl in *; try done);
    repeat match goal with
      | H : _ && _ = true |- _ => apply andb_true_iff in H as [? ?]
      end; done.
Qed.

Lemma free_trailingSpaceRev c (s r : string) :
  trailingSpaceRev s = Some r -> free c s = true -> free c r = true.
Proof.
  unfold trailingSpaceRev. intros H Hf.
  repeat (case_match; simplify_eq; simpl in *; try done);
    repeat match goal with
      | H : _ && _ = true |- _ => apply andb_true_iff in H as [? ?]
      end; done.
Qed.

Lemma free_trimLoop c step fuel (s : string) :
  (forall s r, step s = Some r -> free c s = true -> free c r = true) ->
  free c s = true -> free c (trimLoop step fuel s) = true.
Proof.
  intros Hstep. revert s. induction fuel as [|k IH]; intros s H; [done|].
  simpl. destruct (step s) as [r|] eqn:E; [|done]. apply IH. by apply (Hstep s).
Qed.

Lemma free_TrimSpace c (s : string) : free c s = true -> free c (TrimSpace s) = true.
Proof.
  intros H. unfold TrimSpace, TrimRightSpace, TrimLeftSpace.
  rewrite free_reversed. apply free_trimLoop; [apply free_trailingSpaceRev|].
  rewrite free_reversed. by apply free_trimLoop; [apply free_leadingSpace|].
Qed.

Lemma free_without_prefix c (s p : string) : free c s = true -> free c (TrimPrefix s p) = true.
Proof.
  intros H. unfold TrimPrefix. destruct (HasPrefix s p); [|done]. by apply free_sliceFrom.
Qed.

Lemma free_normalizeVersion (v : string) :
  free "010" v = true -> free "010" (normalizeVersion v) = true.
Proof.
  intros H. unfold normalizeVersion.
  destruct (String.eqb (TrimSpace v) ""); [done|].
  match goal with
  | |- free _ (if String.eqb ?x "" then _ else _) = true =>
      assert (free "010" x = true) as Hx; [|by destruct (String.eqb x "")]
  end.
  apply free_TrimSpace. do 4 apply free_without_prefix.
  destruct (Index (TrimSpace v) ","); [|by apply free_TrimSpace].
  by apply free_TrimSpace, free_sliceTo, free_TrimSpace.
Qed.

Lemma endsWithCR_TrimSpace (s : string) : endsWithCR (TrimSpace s) = false.
Proof.
  unfold TrimSpace, TrimRightSpace, endsWithCR. rewrite srev_involutive.
  destruct (TrimFacts.trimLoop_done trailingSpaceRev TrimFacts.trailingSpaceRev_length
              (String.length (TrimLeftSpace s)) (String.rev (TrimLeftSpace s))) as [->|H].
  - by rewrite slength_rev.
  - done.
  - destruct (trimLoop _ _ _) as [|c r]; [done|]. simpl.
    destruct (Ascii.eqb_spec "013" c) as [<-|]; [|done]. discriminate H.
Qed.

Lemma endsWithCR_normalizeVersion (v : string) : endsWithCR (normalizeVersion v) = false.
Proof.
  unfold normalizeVersion.
  destruct (String.eqb (TrimSpace v) ""); [done|].
  match goal with
  | |- endsWithCR (if String.eqb (TrimSpace ?x) "" then _ else _) = false =>
      pose proof (endsWithCR_TrimSpace x) as Hx;
      by destruct (String.eqb (TrimSpace x) "")
  end.
Qed.

(** **** Reading one distribution back *)

Lemma shapeOK_fields d :
  shapeOK d = true <->
  tokenOK (Name d) = true /\ free "010" (Pathname d) = true /\
  mapAll entryOK (Provides d) = true /\ mapAll entryOK (Requirements d) = true.
Proof. unfold shapeOK. rewrite !andb_true_iff. tauto. Qed.

Lemma entryOK_fields k v :
  entryOK k v = true -> tokenOK k = true /\ v <> "" /\ free "010" v = true.
Proof.
  unfold entryOK, dotPlus. intros [Hk [Hne Hf]%andb_true_iff]%andb_true_iff.
  repeat split; try done. by apply eqb_empty_false.
Qed.

Lemma providesValue_lookup (m : gmap string string) k v :
  m !! k = Some v -> providesValue m k = if String.eqb v "" then "undef" else v.
Proof. intros E. unfold providesValue. by rewrite (goIndex_lookup _ _ _ E). Qed.

Lemma provides_raw (m : gmap string string) k v :
  mapAll entryOK m = true -> m !! k = Some v ->
  tokenOK k = true /\ free "010" (providesValue m k) = true.
Proof.
  intros Hm E. destruct (entryOK_fields k v (mapAll_lookup _ _ _ _ Hm E)) as (? & ? & ?).
  split; [done|]. rewrite (providesValue_lookup _ _ _ E).
  by destruct (String.eqb v "").
Qed.

Lemma requirements_raw (m : gmap string string) k v :
  mapAll entryOK m = true -> m !! k = Some v ->
  tokenOK k = true /\ free "010" (normalizeVersion (goIndex m k)) = true.
Proof.
  intros Hm E. destruct (entryOK_fields k v (mapAll_lookup _ _ _ _ Hm E)) as (? & ? & ?).
  split; [done|]. rewrite (goIndex_lookup _ _ _ E). by apply free_normalizeVersion.
Qed.

Lemma endsWithCR_name (name : string) :
  tokenOK name = true -> endsWithCR ("  " +:+ name) = false.
Proof.
  intros [Hne Hk]%andb_true_iff.
  rewrite endsWithCR_app by (by apply eqb_empty_false).
  by apply allNonSpace_endsWithCR.
Qed.

Lemma dropCR_distLines d :
  shapeOK d = true ->
  map dropCR (distLines d)
  = ("  " +:+ Name d) :: ("    pathname: " +:+ dropCR (Pathname d))
    :: sectionLines "    provides:"
         (fun k => dropCR (providesValue (Provides d) k)) (Provides d)
    ++ sectionLines "    requirements:"
         (fun k => dropCR (normalizeVersion (goIndex (Requirements d) k)))
         (Requirements d).
Proof.
  intros (Hn & Hp & Hpr & Hrq)%shapeOK_fields. unfold distLines.
  change (map dropCR (?a :: ?b :: ?rest)) with (dropCR a :: dropCR b :: map dropCR rest).
  rewrite (dropCR_fixed _ (endsWithCR_name _ Hn)).
  rewrite (dropCR_app "    pathname: ") by reflexivity.
  rewrite map_app, !dropCR_sectionLines; try done.
  - intros k v E. by destruct (requirements_raw _ k v Hrq E).
  - intros k v E. by destruct (provides_raw _ k v Hpr E).
Qed.

Lemma parse_distLines st (d : Dist) :
  shapeOK d = true ->
  exists ip ir,
    fold_left parseLine (map dropCR (distLines d)) st
    = mkPstate (flush st) (Some (readBack d)) ip ir.
Proof.
  intros Hok. rewrite (dropCR_distLines d Hok).
  apply shapeOK_fields in Hok as (Hn & Hp & Hpr & Hrq).
  change (fold_left parseLine (?a :: ?b :: ?rest) st)
    with (fold_left parseLine rest (parseLine (parseLine st a) b)).
  rewrite parseLine_name by done.
  erewrite parseLine_pathname; [|reflexivity|by apply free_dropCR].
  assert ((if String.eqb (dropCR (Pathname d)) ""
           then mkPstate (flush st) (Some (mkDist (Name d) "" ∅ ∅ "")) false false
           else mkPstate
                  (dists (mkPstate (flush st) (Some (mkDist (Name d) "" ∅ ∅ ""))
                            false false))
                  (Some (setPathname (mkDist (Name d) "" ∅ ∅ "") (dropCR (Pathname d))))
                  (inProvides (mkPstate (flush st) (Some (mkDist (Name d) "" ∅ ∅ ""))
                                 false false))
                  (inRequirements (mkPstate (flush st)
                                     (Some (mkDist (Name d) "" ∅ ∅ "")) false false)))
          = mkPstate (flush st) (Some (mkDist (Name d) (dropCR (Pathname d)) ∅ ∅ ""))
                     false false) as ->.
  { destruct (String.eqb_spec (dropCR (Pathname d)) "") as [->|_]; reflexivity. }
  rewrite fold_left_app.
  edestruct (parse_provides_section
               (mkPstate (flush st)
                  (Some (mkDist (Name d) (dropCR (Pathname d)) ∅ ∅ "")) false false)
               (mkDist (Name d) (dropCR (Pathname d)) ∅ ∅ "")
               (providesValue (Provides d)) (Provides d))
    as (ip & ir & ->); [reflexivity|reflexivity| |].
  { intros k v E. by apply (provides_raw _ k v). }
  cbn [dists current Name Pathname Requirements Source].
  edestruct (parse_requirements_section
               (mkPstate (flush st)
                  (Some (mkDist (Name d) (dropCR (Pathname d))
                           (readSection (providesValue (Provides d)) (Provides d))
                           ∅ "")) ip ir)
               (mkDist (Name d) (dropCR (Pathname d))
                  (readSection (providesValue (Provides d)) (Provides d)) ∅ "")
               (fun k => normalizeVersion (goIndex (Requirements d) k))
               (Requirements d))
    as (ip' & ir' & ->); [reflexivity|reflexivity| |].
  { intros k v E. by apply (requirements_raw _ k v). }
  by exists ip', ir'.
Qed.

Lemma parse_all_dists (S : list Dist) st :
  Forall (fun d => shapeOK d = true) S ->
  flush (fold_left parseLine (map dropCR (concat (map distLines S))) st)
  = flush st ++ map readBack S.
Proof.
  revert st. induction S as [|d S IH]; intros st H.
  - simpl. by rewrite app_nil_r.
  - apply Forall_cons in H as [Hd HS].
    change (concat (map distLines (d :: S))) with (distLines d ++ concat (map distLines S)).
    rewrite map_app, fold_left_app.
    destruct (parse_distLines st d Hd) as (ip & ir & ->).
    rewrite IH by done. unfold flush at 1. simpl. by rewrite <- app_assoc.
Qed.

(** **** No emitted line holds a line break *)

Lemma free_section title raw (m : gmap string string) :
  free "010" title = true ->
  (forall k v, m !! k = Some v -> tokenOK k = true /\ free "010" (raw k) = true) ->
  Forall (fun l => free "010" l = true) (sectionLines title raw m).
Proof.
  intros Ht Hm. unfold sectionLines. destruct (0 <? size m)%nat; [|constructor].
  constructor; [done|]. apply Forall_forall. intros l Hl.
  apply list_elem_of_fmap in Hl as (k & -> & [v E]%elem_of_sortedKeys).
  destruct (Hm k v E) as [[_ Hk]%andb_true_iff Hv].
  by rewrite !SatisfiesFacts.free_app, (allNonSpace_free _ Hk), Hv.
Qed.

Lemma free_distLines d :
  shapeOK d = true -> Forall (fun l => free "010" l = true) (distLines d).
Proof.
  intros (Hn & Hp & Hpr & Hrq)%shapeOK_fields. unfold distLines.
  apply andb_true_iff in Hn as [_ Hn].
  constructor; [by rewrite SatisfiesFacts.free_app, (allNonSpace_free _ Hn)|].
  constructor; [by rewrite SatisfiesFacts.free_app, Hp|].
  apply Forall_app. split; (apply free_section; [reflexivity|]).
  - intros k v E. by apply (provides_raw _ k v).
  - intros k v E. by apply (requirements_raw _ k v).
Qed.

(** What the parser makes of the emitted text: the scanner fails on a
    line beyond its buffer; otherwise every record is read back from
    its lines. *)
Lemma Parse_Emit (S : list Dist) :
  sortedByName S = true -> Forall (fun d => shapeOK d = true) S ->
  Parse (Emit S)
  = if forallb fits (concat (map distLines S)) then Some (map readBack S) else None.
Proof.
  intros Hs Hok. unfold Parse. rewrite Emit_lines by done.
  rewrite scanLines_unlines.
  - change (forallb fits (?a :: ?b :: ?rest)) with (forallb fits rest).
    destruct (forallb fits _); [|done].
    change (map dropCR (?a :: ?b :: ?rest)) with (a :: b :: map dropCR rest).
    change (fold_left parseLine (?a :: ?b :: ?rest) ?st)
      with (fold_left parseLine rest (parseLine (parseLine st a) b)).
    rewrite parseLine_comment, parseLine_marker.
    by rewrite parse_all_dists.
  - do 2 (constructor; [reflexivity|]).
    induction Hok as [|d S' Hd _ IH]; [constructor|].
    change (concat (map distLines (d :: S'))) with (distLines d ++ concat (map distLines S')).
    apply Forall_app. split; [by apply free_distLines|].
    apply IH. destruct S'; [done|]. simpl in Hs. by apply andb_true_iff in Hs as [_ ?].
Qed.

(** **** When a record is read back as it was *)

Lemma readValue_fixed (v : string) :
  readValue v = Some v <-> v <> "" /\ endsWithCR v = false.
Proof.
  unfold readValue. split.
  - destruct (String.eqb_spec (dropCR v) "") as [|Hne]; [done|].
    intros [= E]. rewrite E in Hne. split; [done|]. by apply dropCR_fixed_inv.
  - intros [Hne Hcr]. rewrite (dropCR_fixed _ Hcr).
    by destruct (String.eqb_spec v "").
Qed.

Lemma distOK_fields d :
  distOK d = true <->
  tokenOK (Name d) = true /\ fits ("  " +:+ Name d) = true /\
  pathOK (Pathname d) = true /\ fits ("    pathname: " +:+ Pathname d) = true /\
  mapAll providesOK (Provides d) = true /\
  mapAll requirementsOK (Requirements d) = true.
Proof.
  unfold distOK, fits. rewrite !slength_app, !andb_true_iff.
  change (String.length "  ") with 2%nat.
  change (String.length "    pathname: ") with 14%nat. tauto.
Qed.

Lemma fits_entry (k v : string) :
  fits ("      " +:+ k +:+ " " +:+ v)
  = (Z.of_nat (7 + String.length k + String.length v) <=? maxLine).
Proof.
  unfold fits. rewrite !slength_app. simpl String.length. f_equal. lia.
Qed.

Lemma valueOK_fields (v : string) :
  valueOK v = true <-> v <> "" /\ free "010" v = true /\ endsWithCR v = false.
Proof.
  unfold valueOK. rewrite !andb_true_iff, !negb_true_iff.
  destruct (String.eqb_spec v "") as [->|Hne]; [|tauto].
  split; [by intros [[? _] _]|by intros [? _]].
Qed.

Lemma providesOK_entry (m : gmap string string) k v :
  mapAll providesOK m = true -> m !! k = Some v ->
  providesValue m k = v /\ tokenOK k = true /\ valueOK v = true /\
  fits ("      " +:+ k +:+ " " +:+ v) = true.
Proof.
  intros Hm E. pose proof (mapAll_lookup _ _ _ _ Hm E) as H.
  unfold providesOK in H.
  apply andb_true_iff in H as [[Hk Hv]%andb_true_iff Hlen].
  rewrite fits_entry. repeat split; try done.
  rewrite (providesValue_lookup _ _ _ E).
  apply valueOK_fields in Hv as (Hne & _). by destruct (String.eqb_spec v "").
Qed.

Lemma requirementsOK_entry (m : gmap string string) k v :
  mapAll requirementsOK m = true -> m !! k = Some v ->
  normalizeVersion (goIndex m k) = v /\ tokenOK k = true /\ valueOK v = true /\
  fits ("      " +:+ k +:+ " " +:+ v) = true.
Proof.
  intros Hm E. pose proof (mapAll_lookup _ _ _ _ Hm E) as H.
  unfold requirementsOK in H.
  apply andb_true_iff in H as [[[Hk Hv]%andb_true_iff Hn]%andb_true_iff Hlen].
  rewrite fits_entry. repeat split; try done.
  rewrite (goIndex_lookup _ _ _ E). by apply String.eqb_eq.
Qed.

Lemma valueOK_entry k v : tokenOK k = true -> valueOK v = true -> entryOK k v = true.
Proof.
  intros Hk (Hne & Hf & _)%valueOK_fields. unfold entryOK, dotPlus.
  rewrite Hk, Hf. by destruct (String.eqb_spec v "").
Qed.

Lemma distOK_shape d : distOK d = true -> shapeOK d = true.
Proof.
  intros (Hn & _ & Hp & _ & Hpr & Hrq)%distOK_fields. apply shapeOK_fields.
  apply andb_true_iff in Hp as [Hp _].
  repeat split; try done; apply mapAll_intro; intros k v E.
  - destruct (providesOK_entry _ k v Hpr E) as (_ & ? & ? & _). by apply valueOK_entry.
  - destruct (requirementsOK_entry _ k v Hrq E) as (_ & ? & ? & _). by apply valueOK_entry.
Qed.

Lemma fits_section title raw (m : gmap string string) :
  fits title = true ->
  forallb fits (sectionLines title raw m) = true <->
  forall k v, m !! k = Some v -> fits ("      " +:+ k +:+ " " +:+ raw k) = true.
Proof.
  intros Ht. unfold sectionLines. split.
  - intros H k v E. rewrite (size_pos_lookup m k v E) in H.
    simpl in H. rewrite Ht in H. simpl in H.
    rewrite forallb_forall in H. apply H, in_map_iff. exists k. split; [done|].
    apply list_elem_of_In, elem_of_sortedKeys. eauto.
  - intros H. destruct (0 <? size m)%nat; [|done]. simpl. rewrite Ht. simpl.
    apply forallb_forall. intros l (k & <- & Hk)%in_map_iff.
    apply list_elem_of_In, elem_of_sortedKeys in Hk as [v E]. by apply (H k v).
Qed.

Lemma fits_distLines d :
  forallb fits (distLines d) = true <->
  fits ("  " +:+ Name d) = true /\ fits ("    pathname: " +:+ Pathname d) = true /\
  (forall k v, Provides d !! k = Some v ->
               fits ("      " +:+ k +:+ " " +:+ providesValue (Provides d) k) = true) /\
  (forall k v, Requirements d !! k = Some v ->
               fits ("      " +:+ k +:+ " "
                     +:+ normalizeVersion (goIndex (Requirements d) k)) = true).
Proof.
  unfold distLines.
  change (forallb fits (?a :: ?b :: ?rest)) with (fits a && (fits b && forallb fits rest)).
  rewrite forallb_app, !andb_true_iff, !fits_section by reflexivity. tauto.
Qed.

Lemma distOK_fits d : distOK d = true -> forallb fits (distLines d) = true.
Proof.
  intros (Hn & Hl1 & Hp & Hl2 & Hpr & Hrq)%distOK_fields. apply fits_distLines.
  repeat split; try done; intros k v E.
  - by destruct (providesOK_entry _ k v Hpr E) as (-> & _ & _ & ?).
  - by destruct (requirementsOK_entry _ k v Hrq E) as (-> & _ & _ & ?).
Qed.

(** A record that passes [distOK] is read back without its source tag. *)
Lemma readBack_clear d : distOK d = true -> readBack d = clearSource d.
Proof.
  intros (Hn & _ & Hp & _ & Hpr & Hrq)%distOK_fields.
  apply andb_true_iff in Hp as [_ Hp%negb_true_iff].
  unfold readBack, clearSource. rewrite (dropCR_fixed _ Hp). f_equal.
  - apply map_eq. intros i. rewrite readSection_lookup.
    destruct (Provides d !! i) as [v|] eqn:E; [|done].
    destruct (providesOK_entry _ i v Hpr E) as (-> & _ & (? & _ & ?)%valueOK_fields & _).
    by apply readValue_fixed.
  - apply map_eq. intros i. rewrite readSection_lookup.
    destruct (Requirements d !! i) as [v|] eqn:E; [|done].
    destruct (requirementsOK_entry _ i v Hrq E)
      as (-> & _ & (? & _ & ?)%valueOK_fields & _).
    by apply readValue_fixed.
Qed.

(** A record that is read back as it was passes [distOK] and has no
    source tag. *)
Lemma readBack_fixed d :
  shapeOK d = true -> forallb fits (distLines d) = true -> readBack d = d ->
  distOK d = true /\ Source d = "".
Proof.
  intros (Hn & Hp & Hpr & Hrq)%shapeOK_fields (Hl1 & Hl2 & Hl3 & Hl4)%fits_distLines E.
  pose proof (f_equal Pathname E) as E1.
  pose proof (f_equal Provides E) as E2.
  pose proof (f_equal Requirements E) as E3.
  pose proof (f_equal Source E) as E4.
  unfold readBack in E1, E2, E3, E4.
  cbn [Pathname Provides Requirements Source] in E1, E2, E3, E4.
  split; [|done].
  apply distOK_fields. repeat split; try done.
  - unfold pathOK. by rewrite Hp, (dropCR_fixed_inv _ E1).
  - apply mapAll_intro. intros k v Hk.
    destruct (entryOK_fields k v (mapAll_lookup _ _ _ _ Hpr Hk)) as (Ht & Hne & Hf).
    pose proof (Hl3 k v Hk) as Hl.
    pose proof (readSection_lookup (providesValue (Provides d)) (Provides d) k) as R.
    rewrite E2, Hk, (providesValue_lookup _ _ _ Hk) in R.
    rewrite (providesValue_lookup _ _ _ Hk) in Hl.
    destruct (String.eqb_spec v "") as [|_]; [done|].
    symmetry in R. apply readValue_fixed in R as [_ Hcr].
    unfold providesOK. rewrite Ht, <- fits_entry, Hl, !andb_true_r.
    by apply valueOK_fields.
  - apply mapAll_intro. intros k c Hk.
    destruct (entryOK_fields k c (mapAll_lookup _ _ _ _ Hrq Hk)) as (Ht & Hne & Hf).
    pose proof (Hl4 k c Hk) as Hl.
    pose proof (readSection_lookup
                  (fun k => normalizeVersion (goIndex (Requirements d) k))
                  (Requirements d) k) as R.
    rewrite E3, Hk, (goIndex_lookup _ _ _ Hk) in R.
    rewrite (goIndex_lookup _ _ _ Hk) in Hl.
    unfold readValue in R.
    rewrite (dropCR_fixed _ (endsWithCR_normalizeVersion c)) in R.
    destruct (String.eqb (normalizeVersion c) ""); [done|].
    injection R as R. rewrite <- R in Hl.
    unfold requirementsOK.
    rewrite Ht, <- fits_entry, Hl, <- R, String.eqb_refl, !andb_true_r. simpl.
    apply valueOK_fields. repeat split; try done.
    rewrite R. apply endsWithCR_normalizeVersion.
Qed.

Lemma map_fixed {A} (f : A -> A) (l : list A) :
  map f l = l <-> Forall (fun x => f x = x) l.
Proof.
  induction l as [|x l IH]; [by split; [constructor|]|]. simpl. split.
  - intros [= Hx Hl]. constructor; [done|]. by apply IH.
  - intros [Hx Hl]%Forall_cons. rewrite Hx. f_equal. by apply IH.
Qed.

End RoundTrip.

(* ===================================================================== *)
(** ** The metadata extractor                                            *)
(* ===================================================================== *)

Example TestVersionString :
  Extractor.versionString (Extractor.VString "1.0") = "1.0" /\
  Extractor.versionString (Extractor.VFloat64 "1.5") = "1.5" /\
  Extractor.versionString (Extractor.VInt 2) = "2" /\
  Extractor.versionString Extractor.VOther = "0".
Proof. repeat split; reflexivity. Qed.

Module FlattenFacts.
Import Extractor.

Lemma rangeStep_other reqs (kv : string * value) k :
  k <> kv.1 -> rangeStep reqs kv !! k = reqs !! k.
Proof.
  intros Hne. unfold rangeStep. destruct (String.eqb _ _); [|done].
  by rewrite lookup_insert_ne.
Qed.

Lemma rangeStep_same reqs k ver :
  rangeStep reqs (k, ver) !! k
  = if String.eqb (goIndex reqs k) "" then Some (versionString ver) else reqs !! k.
Proof.
  unfold rangeStep. simpl. destruct (String.eqb _ _); [|done].
  by rewrite lookup_insert_eq.
Qed.

(** A loop over entries without the key [k] leaves [k] alone. *)
Lemma rangeInto_absent reqs (seq : list (string * value)) k :
  k ∉ seq.*1 -> rangeInto reqs seq !! k = reqs !! k.
Proof.
  unfold rangeInto. revert reqs.
  induction seq as [|kv seq IH]; intros reqs Hk; [done|].
  simpl. rewrite fmap_cons, not_elem_of_cons in Hk. destruct Hk as [Hne Hk].
  rewrite IH by done. by apply rangeStep_other.
Qed.

(** A loop writes the key [k] of its map when nothing non-empty is
    there yet, in whichever order the entries come. *)
Lemma rangeInto_present reqs (seq : list (string * value)) k ver :
  NoDup seq.*1 -> (k, ver) ∈ seq ->
  rangeInto reqs seq !! k
  = if String.eqb (goIndex reqs k) "" then Some (versionString ver) else reqs !! k.
Proof.
  unfold rangeInto. revert reqs.
  induction seq as [|[k1 v1] seq IH]; intros reqs Hnd Hin.
  { by apply elem_of_nil in Hin. }
  rewrite fmap_cons in Hnd. apply NoDup_cons in Hnd as [Hk1 Hnd].
  simpl fold_left. apply elem_of_cons in Hin as [Heq|Hin].
  - injection Heq as <- <-.
    change (fold_left rangeStep seq (rangeStep reqs (k, ver)))
      with (rangeInto (rangeStep reqs (k, ver)) seq).
    rewrite rangeInto_absent by done. apply rangeStep_same.
  - assert (k <> k1) as Hne.
    { intros ->. apply Hk1. apply list_elem_of_fmap. by exists (k1, ver). }
    rewrite IH by done. unfold goIndex.
    by rewrite (rangeStep_other reqs (k1, v1) k Hne).
Qed.

Lemma rangeInto_lookup reqs (seq : list (string * value)) (m : gmap string value) k :
  seq ≡ₚ map_to_list m ->
  rangeInto reqs seq !! k
  = match m !! k with
    | Some ver => if String.eqb (goIndex reqs k) "" then Some (versionString ver)
                  else reqs !! k
    | None => reqs !! k
    end.
Proof.
  intros Hp.
  assert (NoDup seq.*1) as Hnd.
  { rewrite Hp. apply NoDup_fst_map_to_list. }
  destruct (m !! k) as [ver|] eqn:E.
  - apply rangeInto_present; [done|]. rewrite Hp. by apply elem_of_map_to_list.
  - apply rangeInto_absent. intros ([k' v] & -> & Hin)%list_elem_of_fmap.
    rewrite Hp in Hin. apply elem_of_map_to_list in Hin. simpl in E. congruence.
Qed.

Lemma writes_cons k (m : gmap string value) srcs :
  writes k (m :: srcs)
  = match m !! k with
    | Some ver => versionString ver :: writes k srcs
    | None => writes k srcs
    end.
Proof. unfold writes. simpl. by destruct (m !! k). Qed.

(** All loops together, started on any map [reqs]. *)
Lemma flatten_lookup_from (seqs : list (list (string * value)))
      (srcs : list (gmap string value)) reqs k :
  Forall2 (fun seq m => seq ≡ₚ map_to_list m) seqs srcs ->
  fold_left rangeInto seqs reqs !! k
  = if nonEmpty (goIndex reqs k) then reqs !! k
    else match firstNonEmpty (writes k srcs) with
         | Some w => Some w
         | None => reqs !! k
         end.
Proof.
  intros H. revert reqs. induction H as [|seq m seqs srcs Hp _ IH]; intros reqs.
  { simpl. by destruct (nonEmpty _). }
  simpl fold_left. rewrite IH, writes_cons. unfold goIndex at 1.
  rewrite !(rangeInto_lookup reqs seq m k Hp).
  destruct (m !! k) as [ver|] eqn:E; [|reflexivity].
  unfold nonEmpty at 2.
  destruct (String.eqb (goIndex reqs k) "") eqn:Hq; simpl.
  - unfold firstNonEmpty. simpl.
    destruct (nonEmpty (versionString ver)) eqn:Hw; [done|].
    destruct (writes k srcs) as [|w ws]; simpl; [|done].
    unfold nonEmpty in Hw. apply negb_false_iff, String.eqb_eq in Hw. by rewrite Hw.
  - unfold goIndex in Hq |- *. unfold nonEmpty. by rewrite Hq.
Qed.

Lemma flatten_lookup (seqs : list (list (string * value)))
      (srcs : list (gmap string value)) k :
  Forall2 (fun seq m => seq ≡ₚ map_to_list m) seqs srcs ->
  flattenSeqs seqs !! k = firstNonEmpty (writes k srcs).
Proof.
  intros H. unfold flattenSeqs. rewrite (flatten_lookup_from seqs srcs ∅ k H).
  unfold goIndex. rewrite lookup_empty. simpl.
  by destruct (firstNonEmpty _).
Qed.

(** The union in which the first writer wins reads the first value. *)
Lemma union_list_lookup (srcs : list (gmap string value)) k :
  (⋃ (map (fun m : gmap string value => versionString <$> m) srcs)) !! k
  = head (writes k srcs).
Proof.
  induction srcs as [|m srcs IH]; [simpl; apply lookup_empty|].
  rewrite writes_cons.
  change (⋃ map (fun m : gmap string value => versionString <$> m) (m :: srcs))
    with ((versionString <$> m)
          ∪ ⋃ map (fun m : gmap string value => versionString <$> m) srcs).
  destruct (m !! k) as [ver|] eqn:E.
  - apply lookup_union_Some_l. by rewrite lookup_fmap, E.
  - rewrite lookup_union_r by (by rewrite lookup_fmap, E). exact IH.
Qed.

Lemma writes_elem k srcs w :
  w ∈ writes k srcs ->
  exists (m : gmap string value) ver, m ∈ srcs /\ m !! k = Some ver /\ w = versionString ver.
Proof.
  unfold writes. intros (m & Hm & Hw)%list_elem_of_omap.
  destruct (m !! k) as [ver|] eqn:E; [|done]. simpl in Hw. injection Hw as <-.
  eauto.
Qed.

Lemma firstNonEmpty_head (ws : list string) :
  (forall w, w ∈ ws -> w <> "") -> firstNonEmpty ws = head ws.
Proof.
  destruct ws as [|w ws]; [done|]. intros H. unfold firstNonEmpty. simpl.
  assert (nonEmpty w = true) as ->; [|done].
  unfold nonEmpty. apply negb_true_iff, String.eqb_neq, H. by left.
Qed.

End FlattenFacts.

(** C5, as the claim puts it, fails when an earlier source writes the
    empty string: the runtime phase writes [""] for [Foo], and the build
    phase then overwrites it with ["1.0"]. *)
Lemma flatten_overwrites_empty_counterexample :
  Extractor.Requirements
    (Extractor.flattenPrereqs map_to_list Examples.meta_empty_then_versioned) !! "Foo"
  = Some "1.0" /\
  Extractor.unionFirstWriter Examples.meta_empty_then_versioned !! "Foo" = Some "" /\
  Extractor.Requirements
    (Extractor.flattenPrereqs map_to_list Examples.meta_empty_then_versioned)
  <> Extractor.unionFirstWriter Examples.meta_empty_then_versioned.
Proof.
  assert (Extractor.Requirements
            (Extractor.flattenPrereqs map_to_list Examples.meta_empty_then_versioned)
            !! "Foo" = Some "1.0") as H1 by (vm_compute; reflexivity).
  assert (Extractor.unionFirstWriter Examples.meta_empty_then_versioned !! "Foo"
          = Some "") as H2 by (vm_compute; reflexivity).
  split; [exact H1|]. split; [exact H2|].
  intros E. rewrite E, H2 in H1. discriminate H1.
Qed.

(** C5 (amended): whatever order the [range] loops take, the flattened
    map holds for every module the first non-empty version written by the
    sources in their order (modern prereqs by phase and dependency type,
    then the legacy fields, then the alienfile fields), or the empty
    string if every source that has the module writes the empty string; a
    non-empty value is never overwritten.  When no source writes an empty
    string, this is the union with first writer wins. *)
Theorem flatten_first_non_empty_writer
        (meta : Extractor.MetaFile) (seqs : list (list (string * Extractor.value))) :
  Forall2 (fun seq m => seq ≡ₚ map_to_list m) seqs (Extractor.sources meta) ->
  (forall k, Extractor.flattenSeqs seqs !! k
             = Extractor.firstNonEmpty (Extractor.writes k (Extractor.sources meta))) /\
  (Extractor.noEmptyWrites meta = true ->
   Extractor.flattenSeqs seqs = Extractor.unionFirstWriter meta).
Proof.
  intros Hseqs. split.
  - intros k. by apply FlattenFacts.flatten_lookup.
  - intros Hne. apply map_eq. intros k.
    rewrite (FlattenFacts.flatten_lookup seqs (Extractor.sources meta) k Hseqs).
    unfold Extractor.unionFirstWriter. rewrite FlattenFacts.union_list_lookup.
    apply FlattenFacts.firstNonEmpty_head.
    intros w (m & ver & Hm & E & ->)%FlattenFacts.writes_elem.
    unfold Extractor.noEmptyWrites in Hne. rewrite forallb_forall in Hne.
    specialize (Hne m ltac:(by apply list_elem_of_In)).
    rewrite forallb_forall in Hne.
    specialize (Hne (k, ver) ltac:(by apply list_elem_of_In, elem_of_map_to_list)).
    unfold Extractor.nonEmpty in Hne. simpl in Hne.
    by apply negb_true_iff, String.eqb_neq in Hne.
Qed.

Lemma flatten_first_non_empty_writer_witness :
  Extractor.Requirements (Extractor.flattenPrereqs map_to_list Examples.meta_two_phases)
  = Extractor.unionFirstWriter Examples.meta_two_phases.
Proof.
  assert (Forall2 (fun seq (m : gmap string Extractor.value) => seq ≡ₚ map_to_list m)
            (map map_to_list (Extractor.sources Examples.meta_two_phases))
            (Extractor.sources Examples.meta_two_phases)) as Hseqs.
  { apply Forall2_fmap_l, Forall_Forall2_diag, Forall_forall. intros m _. by unfold compose. }
  apply (proj2 (flatten_first_non_empty_writer Examples.meta_two_phases _ Hseqs)).
  vm_compute. reflexivity.
Defined.

Module ConfigureFacts.
Import Extractor.

(** What one round of the scan does to the flags. *)
Lemma scanEntry_flags sc e sc' :
  scanEntry sc e = Ok sc' ->
  hasMakefilePL sc' = hasMakefilePL sc || topLevel "Makefile.PL" e /\
  hasBuildPL sc' = hasBuildPL sc || topLevel "Build.PL" e /\
  present (mymetaJSON sc') = present (mymetaJSON sc) || topLevel "MYMETA.json" e /\
  present (mymetaYML sc') = present (mymetaYML sc) || topLevel "MYMETA.yml" e.
Proof.
  unfold scanEntry, topLevel.
  destruct (length (Split (EntryName e) "/") =? 2)%nat; simpl.
  2: { intros [= <-]. by rewrite !orb_false_r. }
  generalize (Base (EntryName e)). intros name.
  destruct (String.eqb_spec name "META.json") as [->|_].
  { destruct (EntryData e); [|done]. intros [= <-]. simpl. by rewrite !orb_false_r. }
  destruct (String.eqb_spec name "META.yml") as [->|_].
  { destruct (EntryData e); [|done]. intros [= <-]. simpl. by rewrite !orb_false_r. }
  destruct (String.eqb_spec name "MYMETA.json") as [->|_].
  { destruct (EntryData e); [|done]. intros [= <-]. simpl.
    by rewrite !orb_false_r, orb_true_r. }
  destruct (String.eqb_spec name "MYMETA.yml") as [->|_].
  { destruct (EntryData e); [|done]. intros [= <-]. simpl.
    by rewrite !orb_false_r, orb_true_r. }
  destruct (String.eqb_spec name "Makefile.PL") as [->|_].
  { intros [= <-]. simpl. by rewrite !orb_false_r, orb_true_r. }
  destruct (String.eqb_spec name "Build.PL") as [->|_].
  { intros [= <-]. simpl. by rewrite !orb_false_r, orb_true_r. }
  intros [= <-]. by rewrite !orb_false_r.
Qed.

Lemma scanEntries_flags entries fin sc sc' :
  scanEntries sc entries fin = Ok sc' ->
  hasMakefilePL sc' = hasMakefilePL sc || contains entries "Makefile.PL" /\
  hasBuildPL sc' = hasBuildPL sc || contains entries "Build.PL" /\
  present (mymetaJSON sc') = present (mymetaJSON sc) || contains entries "MYMETA.json" /\
  present (mymetaYML sc') = present (mymetaYML sc) || contains entries "MYMETA.yml".
Proof.
  revert sc. induction entries as [|e entries IH]; intros sc H; simpl in H.
  - destruct fin; [|done]. injection H as <-. unfold contains. simpl.
    by rewrite !orb_false_r.
  - destruct (scanEntry sc e) as [sc1|] eqn:E; [|done].
    destruct (scanEntry_flags _ _ _ E) as (H1 & H2 & H3 & H4).
    destruct (IH _ H) as (G1 & G2 & G3 & G4).
    unfold contains in *. simpl.
    rewrite G1, G2, G3, G4, H1, H2, H3, H4. by rewrite !orb_assoc.
Qed.

Lemma scriptOf_configureCmd e dist script : scriptOf (configureCmd e dist script) = script.
Proof. unfold scriptOf, configureCmd. by destruct (negb _). Qed.

(** Every command [runConfigure] runs is the configure command for the
    chosen script. *)
Lemma runConfigure_cmds w e path hasMakefile :
  Forall (fun c => scriptOf c = configScriptFor hasMakefile)
         (runConfigure w e path hasMakefile).2.
Proof.
  unfold runConfigure.
  destruct (mkdirTemp w) as [tmp|]; [|by constructor].
  destruct (extractTarball w path tmp) as [dist|]; [|by constructor].
  assert (Forall (fun c => scriptOf c = configScriptFor hasMakefile)
                 [configureCmd e dist (configScriptFor hasMakefile)]) as H.
  { constructor; [apply scriptOf_configureCmd|constructor]. }
  destruct (negb (run w _)); [done|].
  destruct (readFile w dist "MYMETA.json"); [done|].
  by destruct (readFile w dist "MYMETA.yml").
Qed.

Lemma runConfigure_runs w e path hasMakefile tmp dist :
  mkdirTemp w = Some tmp -> extractTarball w path tmp = Some dist ->
  (runConfigure w e path hasMakefile).2
  = [configureCmd e dist (configScriptFor hasMakefile)].
Proof.
  intros H1 H2. unfold runConfigure. rewrite H1, H2.
  destruct (negb (run w _)); [done|].
  destruct (readFile w dist "MYMETA.json"); [done|].
  by destruct (readFile w dist "MYMETA.yml").
Qed.

(** Without MYMETA in the tarball and with a configure script, the
    commands of [extractMeta] are those of [runConfigure]. *)
Lemma extractMeta_configure w e path entries fin sc :
  openTarball w path = Ok (entries, fin) ->
  scanEntries emptyScan entries fin = Ok sc ->
  contains entries "MYMETA.json" = false -> contains entries "MYMETA.yml" = false ->
  (ExtractWithConfigure w e path).2
  = if contains entries "Makefile.PL" || contains entries "Build.PL"
    then (runConfigure w e path (contains entries "Makefile.PL")).2
    else [].
Proof.
  intros Ho Hs Hj Hy. unfold ExtractWithConfigure, extractMeta. rewrite Ho, Hs.
  destruct (scanEntries_flags _ _ _ _ Hs) as (H1 & H2 & H3 & H4).
  simpl in H1, H2, H3, H4. rewrite Hj in H3. rewrite Hy in H4.
  destruct (mymetaJSON sc); [done|]. destruct (mymetaYML sc); [done|].
  rewrite H1, H2.
  destruct (contains entries "Makefile.PL" || contains entries "Build.PL"); [|done].
  by destruct (runConfigure w e path (contains entries "Makefile.PL")) as [[meta|msg] cmds].
Qed.

End ConfigureFacts.

(** C4, as the claim puts it, fails: for a tarball with both scripts and
    no MYMETA file the configure step runs [perl Makefile.PL]. *)
Lemma configure_script_counterexample :
  Extractor.contains Examples.tarball_both_scripts "MYMETA.json" = false /\
  Extractor.contains Examples.tarball_both_scripts "MYMETA.yml" = false /\
  Extractor.contains Examples.tarball_both_scripts "Build.PL" = true /\
  Extractor.contains Examples.tarball_both_scripts "Makefile.PL" = true /\
  (Extractor.ExtractWithConfigure Examples.world_configure_ok Examples.host
     "cache/A/AU/AUTHOR/Dist-1.0.tar.gz").2
  = [Extractor.mkCmd "perl" ["Makefile.PL"] "/tmp/yacm-configure-1/Dist-1.0"] /\
  ~ Forall (fun c => Extractor.scriptOf c = "Build.PL")
      (Extractor.ExtractWithConfigure Examples.world_configure_ok Examples.host
         "cache/A/AU/AUTHOR/Dist-1.0.tar.gz").2.
Proof.
  repeat split; try reflexivity.
  intros H. apply Forall_cons in H as [H _]. discriminate H.
Qed.

(** C4 (amended): in with-dynamic-configure mode, for a tarball that
    scans without error and has no MYMETA file, every configure command
    that is run has the script [Makefile.PL] when the tarball has a
    top-level [Makefile.PL], and [Build.PL] only when it has [Build.PL]
    and no [Makefile.PL]; when the temporary directory and the unpacking
    succeed, exactly that one command is run. *)
Theorem configure_script_choice
        (w : Extractor.World) (e : Extractor.Extractor) (path : string)
        (entries : list Extractor.TarEntry) (fin : Extractor.TarEnd) (sc : Extractor.Scan) :
  Extractor.openTarball w path = Extractor.Ok (entries, fin) ->
  Extractor.scanEntries Extractor.emptyScan entries fin = Extractor.Ok sc ->
  Extractor.contains entries "MYMETA.json" = false ->
  Extractor.contains entries "MYMETA.yml" = false ->
  (Extractor.contains entries "Makefile.PL" = true ->
   Forall (fun c => Extractor.scriptOf c = "Makefile.PL")
          (Extractor.ExtractWithConfigure w e path).2) /\
  (Extractor.contains entries "Makefile.PL" = false ->
   Extractor.contains entries "Build.PL" = true ->
   Forall (fun c => Extractor.scriptOf c = "Build.PL")
          (Extractor.ExtractWithConfigure w e path).2) /\
  (Extractor.contains entries "Makefile.PL" || Extractor.contains entries "Build.PL" = true ->
   forall tmp dist,
     Extractor.mkdirTemp w = Some tmp -> Extractor.extractTarball w path tmp = Some dist ->
     (Extractor.ExtractWithConfigure w e path).2
     = [Extractor.configureCmd e dist
          (Extractor.configScriptFor (Extractor.contains entries "Makefile.PL"))]).
Proof.
  intros Ho Hs Hj Hy.
  rewrite (ConfigureFacts.extractMeta_configure w e path entries fin sc Ho Hs Hj Hy).
  split; [|split].
  - intros Hm. rewrite Hm. simpl.
    apply (ConfigureFacts.runConfigure_cmds w e path true).
  - intros Hm Hb. rewrite Hm, Hb. simpl.
    apply (ConfigureFacts.runConfigure_cmds w e path false).
  - intros Hany tmp dist Ht Hd. rewrite Hany.
    by apply (ConfigureFacts.runConfigure_runs w e path _ tmp dist).
Qed.

Lemma configure_script_choice_witness :
  Forall (fun c => Extractor.scriptOf c = "Makefile.PL")
         (Extractor.ExtractWithConfigure Examples.world_configure_ok Examples.host
            "cache/A/AU/AUTHOR/Dist-1.0.tar.gz").2.
Proof.
  eapply (proj1 (configure_script_choice Examples.world_configure_ok Examples.host
                   "cache/A/AU/AUTHOR/Dist-1.0.tar.gz"
                   Examples.tarball_both_scripts Extractor.TarEOF _
                   eq_refl eq_refl eq_refl eq_refl)).
  reflexivity.
Defined.

(* ===================================================================== *)
(** ** The resolver                                                      *)
(* ===================================================================== *)

Example TestIsCore :
  Resolver.isCore "perl" = true /\ Resolver.isCore "strict" = true /\
  Resolver.isCore "Carp" = true /\ Resolver.isCore "JSON" = false /\
  Resolver.isCore "Moo" = false /\ Resolver.isCore "DBI" = false.
Proof. repeat split; reflexivity. Qed.

Example TestDistNameFromPath :
  Resolver.distNameFromPath "M/MA/MAKAMAKA/JSON-2.0.tar.gz" = "JSON-2.0" /\
  Resolver.distNameFromPath "H/HA/HAARG/Moo-2.005005.tar.gz" = "Moo-2.005005" /\
  Resolver.distNameFromPath "S/SH/SHAY/Perl-Dist-1.23.tgz" = "Perl-Dist-1.23".
Proof. repeat split; reflexivity. Qed.

Example extractPathname_examples :
  Resolver.extractPathname "https://host/authors/id/X/XX/XXX/Foo-2.1.tar.gz"
  = "X/XX/XXX/Foo-2.1.tar.gz" /\
  Resolver.extractPathname "https://host/files/Foo-2.1.tar.gz" = "Foo-2.1.tar.gz".
Proof. split; reflexivity. Qed.

Module ResolverFacts.
Import Resolver.

(** **** The binding step *)

Lemma bindKeys_lookup (d : Dist) (keys : list string) (res : gmap string Dist) k :
  fold_left (fun acc mod_ => match acc !! mod_ with
                             | Some _ => acc
                             | None => <[mod_ := d]> acc
                             end) keys res !! k
  = match res !! k with
    | Some x => Some x
    | None => if decide (k ∈ keys) then Some d else None
    end.
Proof.
  revert res. induction keys as [|a keys IH]; intros res.
  - cbn [fold_left]. destruct (res !! k); [done|].
    destruct (decide (k ∈ [])) as [H|_]; [by apply elem_of_nil in H|done].
  - cbn [fold_left]. rewrite IH. clear IH.
    assert (forall (o : option Dist),
              k <> a ->
              (if decide (k ∈ keys) then o else None)
              = (if decide (k ∈ a :: keys) then o else None)) as Hother.
    { intros o Hne. destruct (decide (k ∈ keys)), (decide (k ∈ a :: keys)); try done.
      - exfalso. match goal with H : k ∉ a :: keys |- _ => apply H end. by right.
      - exfalso. match goal with H : k ∈ a :: keys |- _ =>
                   apply elem_of_cons in H as [?|?] end; done. }
    destruct (res !! a) as [y|] eqn:Ea.
    + destruct (res !! k) as [x|] eqn:Ek; [done|].
      apply Hother. congruence.
    + destruct (decide (k = a)) as [->|Hne].
      * rewrite lookup_insert_eq, Ea.
        destruct (decide (a ∈ a :: keys)) as [_|H]; [done|].
        exfalso. apply H. by left.
      * rewrite lookup_insert_ne by done. destruct (res !! k); [done|].
        by apply Hother.
Qed.

Lemma elem_of_keys (m : gmap string string) k :
  k ∈ map fst (map_to_list m) <-> is_Some (m !! k).
Proof.
  change (map fst (map_to_list m)) with ((map_to_list m).*1).
  rewrite list_elem_of_fmap. split.
  - intros ([k' v] & -> & H%elem_of_map_to_list). eauto.
  - intros [v H]. exists (k, v). split; [done|]. by apply elem_of_map_to_list.
Qed.

(** Step 9 in one equation: the main module is bound to [d], every other
    bound module keeps its record, and the modules [d] provides that were
    unbound get [d]. *)
Lemma bindRecord_lookup module (d : Dist) (res : gmap string Dist) k :
  bindRecord module d res !! k
  = if decide (k = module) then Some d
    else match res !! k with
         | Some x => Some x
         | None => match Provides d !! k with
                   | Some _ => Some d
                   | None => None
                   end
         end.
Proof.
  unfold bindRecord, bindProvided. rewrite bindKeys_lookup.
  destruct (decide (k = module)) as [->|Hne].
  - by rewrite lookup_insert_eq.
  - rewrite lookup_insert_ne by done. destruct (res !! k); [done|].
    destruct (decide (k ∈ map fst (map_to_list (Provides d)))) as [Hin|Hnin].
    + apply elem_of_keys in Hin as [v ->]. done.
    + destruct (Provides d !! k) eqn:E; [|done].
      exfalso. apply Hnin, elem_of_keys. eauto.
Qed.

(** The record built for [module] provides [module]. *)
Lemma buildDist_provides_main module sel meta :
  is_Some (Provides (buildDist module sel meta) !! module).
Proof.
  unfold buildDist. simpl.
  destruct ((Extractor.EntryVersion <$> Extractor.Provides meta) !! module) eqn:E.
  - rewrite E. eauto.
  - rewrite lookup_insert_eq. eauto.
Qed.

Lemma buildDist_provides_added module sel meta :
  Extractor.Provides meta !! module = None ->
  Provides (buildDist module sel meta) !! module = Some (Extractor.Version meta).
Proof.
  intros H. unfold buildDist. simpl. rewrite lookup_fmap, H. simpl.
  by rewrite lookup_insert_eq.
Qed.

(** The other provided modules are those of the metadata. *)
Lemma buildDist_provides_other module sel meta k :
  k <> module ->
  Provides (buildDist module sel meta) !! k
  = Extractor.EntryVersion <$> Extractor.Provides meta !! k.
Proof.
  intros Hne. unfold buildDist. simpl.
  destruct ((Extractor.EntryVersion <$> Extractor.Provides meta) !! module);
    rewrite ?lookup_insert_ne by done; by rewrite lookup_fmap.
Qed.

(** **** Induction over the calls *)

Section Invariant.
Variable w : World.
Variable P : gmap string Dist -> Prop.
(** [P] survives every binding step the resolver can take. *)
Hypothesis P_bind :
  forall res module call version sel,
    P res -> isCore module = false ->
    P (bindRecord module
         (buildDist module sel (metaOf w call module version sel)) res).

Lemma resolveEach_invariant rec :
  (forall st m v out st', P (resolved st) -> rec st m v = Some (out, st') ->
                          P (resolved st')) ->
  forall reqs st out st',
    P (resolved st) -> resolveEach rec reqs st = Some (out, st') -> P (resolved st').
Proof.
  intros Hrec. induction reqs as [|[m v] reqs IH]; intros st out st' HP H; simpl in H.
  - by injection H as <- <-.
  - destruct (rec st m v) as [[[|msg] st1]|] eqn:E; [|  |done].
    + eapply IH; [|exact H]. eapply Hrec; eauto.
    + injection H as <- <-. eapply Hrec; eauto.
Qed.

Lemma resolveOne_invariant fuel :
  forall st m v out st',
    P (resolved st) -> resolveOne fuel w st m v = Some (out, st') -> P (resolved st').
Proof.
  induction fuel as [|fuel IH]; intros st m v out st' HP H; [done|].
  simpl in H.
  destruct (isCore m) eqn:Hcore; [by injection H as <- <-|].
  destruct (alreadyResolved st m v); [by injection H as <- <-|].
  destruct (bool_decide (m ∈ resolving st)); [by injection H as <- <-|].
  destruct (selectSource w (calls st) m v) as [sel|]; [|by injection H as <- <-].
  destruct (negb (download w (calls st) (jobOf w sel))); [by injection H as <- <-|].
  match type of H with
  | match resolveEach _ ?l ?s with _ => _ end = _ =>
      destruct (resolveEach (resolveOne fuel w) l s) as [[out1 st1]|] eqn:E; [|done]
  end.
  injection H as <- <-. simpl.
  eapply (resolveEach_invariant _ IH); [|exact E]. simpl.
  by apply P_bind.
Qed.
End Invariant.

(** **** Modules on the stack keep their record *)

Definition framed (st st' : State) : Prop :=
  resolving st' = resolving st /\
  forall k, k ∈ resolving st -> is_Some (resolved st !! k) ->
            resolved st' !! k = resolved st !! k.

Lemma framed_refl st : framed st st.
Proof. by split. Qed.

Lemma framed_trans st1 st2 st3 : framed st1 st2 -> framed st2 st3 -> framed st1 st3.
Proof.
  intros [R1 K1] [R2 K2]. split; [congruence|].
  intros k Hk Hb. rewrite K2.
  - by apply K1.
  - by rewrite R1.
  - by rewrite K1.
Qed.

Lemma resolveEach_framed rec :
  (forall st m v out st', rec st m v = Some (out, st') -> framed st st') ->
  forall reqs st out st', resolveEach rec reqs st = Some (out, st') -> framed st st'.
Proof.
  intros Hrec. induction reqs as [|[m v] reqs IH]; intros st out st' H; simpl in H.
  - injection H as <- <-. apply framed_refl.
  - destruct (rec st m v) as [[[|msg] st1]|] eqn:E; [|  |done].
    + eapply framed_trans; [by eapply Hrec|by eapply IH].
    + injection H as <- <-. by eapply Hrec.
Qed.

Lemma resolveOne_framed w fuel :
  forall st m v out st', resolveOne fuel w st m v = Some (out, st') -> framed st st'.
Proof.
  induction fuel as [|fuel IH]; intros st m v out st' H; [done|].
  simpl in H.
  destruct (isCore m) eqn:Hcore; [injection H as <- <-; apply framed_refl|].
  destruct (alreadyResolved st m v); [injection H as <- <-; apply framed_refl|].
  destruct (bool_decide (m ∈ resolving st)) eqn:Hin;
    [injection H as <- <-; apply framed_refl|].
  apply bool_decide_eq_false in Hin.
  assert (({[m]} ∪ resolving st) ∖ {[m]} = resolving st) as Hrel.
  { apply set_eq. intros x.
    rewrite elem_of_difference, elem_of_union, !elem_of_singleton.
    split; [by intros [[?|?] ?]|].
    intros Hx. split; [by right|]. by intros ->. }
  destruct (selectSource w (calls st) m v) as [sel|].
  2: { injection H as <- <-. split; [done|]. intros k Hk Hb. done. }
  destruct (negb (download w (calls st) (jobOf w sel))).
  { injection H as <- <-. split; [done|]. intros k Hk Hb. done. }
  match type of H with
  | match resolveEach _ ?l ?s with _ => _ end = _ =>
      destruct (resolveEach (resolveOne fuel w) l s) as [[out1 st1]|] eqn:E; [|done]
  end.
  injection H as <- <-.
  apply (resolveEach_framed _ IH) in E. destruct E as [R K]. simpl in R, K.
  split; simpl.
  - rewrite R. exact Hrel.
  - intros k Hk Hb. rewrite K.
    + rewrite bindRecord_lookup. assert (k <> m) by (intros ->; done).
      rewrite decide_False by done. by destruct Hb as [x ->].
    + by apply elem_of_union_r.
    + rewrite bindRecord_lookup. assert (k <> m) by (intros ->; done).
      rewrite decide_False by done. by destruct Hb as [x ->].
Qed.

(** Once past the download, the main module ends up bound to the record
    built in this call. *)
Lemma resolveEach_keeps_main w fuel module d reqs st out st' :
  module ∈ resolving st -> resolved st !! module = Some d ->
  resolveEach (resolveOne fuel w) reqs st = Some (out, st') ->
  resolved st' !! module = Some d.
Proof.
  intros Hin Hb H.
  apply (resolveEach_framed _ (resolveOne_framed w fuel)) in H as [_ K].
  rewrite K; [done|done|]. by rewrite Hb.
Qed.

End ResolverFacts.

Module InvariantFacts.
Import Resolver ResolverFacts.

Lemma keysProvided_empty : keysProvided ∅.
Proof. intros M R H. by rewrite lookup_empty in H. Qed.

Lemma keysProvided_bind res module sel meta :
  keysProvided res -> keysProvided (bindRecord module (buildDist module sel meta) res).
Proof.
  intros Hinv M R. rewrite bindRecord_lookup.
  destruct (decide (M = module)) as [->|Hne].
  - intros [= <-]. apply buildDist_provides_main.
  - destruct (res !! M) as [x|] eqn:E.
    + intros [= <-]. by apply Hinv.
    + destruct (Provides (buildDist module sel meta) !! M) eqn:Ep; [|done].
      intros [= <-]. by rewrite Ep.
Qed.

Lemma noCoreKey_empty : noCoreKey ∅.
Proof. intros M _. apply lookup_empty. Qed.

Lemma metaOf_no_core w call module version sel M :
  providesNoCore w -> isCore module = false -> isCore M = true ->
  Extractor.Provides (metaOf w call module version sel) !! M = None.
Proof.
  intros Hw Hm HM. unfold metaOf.
  destruct (extractWithConfigure w call (destPathOf w sel)) as [meta|] eqn:E.
  - by apply (Hw call _ meta M E).
  - simpl. apply lookup_singleton_ne. intros ->. congruence.
Qed.

Lemma noCoreKey_bind w res module call version sel :
  providesNoCore w -> noCoreKey res -> isCore module = false ->
  noCoreKey (bindRecord module (buildDist module sel (metaOf w call module version sel)) res).
Proof.
  intros Hw Hinv Hm M HM. rewrite bindRecord_lookup.
  assert (M <> module) as Hne by (intros ->; congruence).
  rewrite decide_False by done. rewrite (Hinv M HM).
  rewrite buildDist_provides_other by done.
  by rewrite (metaOf_no_core w call module version sel M Hw Hm HM).
Qed.

Lemma resolveOne_core fuel w st M C :
  isCore M = true -> resolveOne (S fuel) w st M C = Some (Success, st).
Proof. intros H. simpl. by rewrite H. Qed.

Lemma resolveEach_core fuel w (reqs : list (string * string)) st :
  Forall (fun r => isCore r.1 = true) reqs ->
  resolveEach (resolveOne (S fuel) w) reqs st = Some (Success, st).
Proof.
  induction 1 as [|[m v] reqs Hm _ IH]; [done|].
  simpl in Hm. cbn [resolveEach]. by rewrite (resolveOne_core fuel w st m v Hm).
Qed.

Lemma Resolve_state fuel w reqs r st' :
  Resolve fuel w reqs = Some (r, st') ->
  exists out, resolveEach (resolveOne fuel w)
                (map (fun r => (Module_ r, Version_ r)) reqs) newState = Some (out, st').
Proof.
  unfold Resolve. destruct (resolveEach _ _ _) as [[[|msg] st1]|]; [| |done].
  - intros [= <- <-]. eauto.
  - intros [= <- <-]. eauto.
Qed.

End InvariantFacts.

(** C10: the empty map of a new resolver has every key provided by its
    record; every [resolveOne] call that returns keeps it so; the record
    built for a module provides that module, with the meta-level version
    when the metadata does not list it; hence it holds after [Resolve]. *)
Theorem resolved_keys_are_provided :
  Resolver.keysProvided (Resolver.resolved Resolver.newState) /\
  (forall w fuel st m v out st',
      Resolver.keysProvided (Resolver.resolved st) ->
      Resolver.resolveOne fuel w st m v = Some (out, st') ->
      Resolver.keysProvided (Resolver.resolved st')) /\
  (forall module sel meta,
      is_Some (Provides (Resolver.buildDist module sel meta) !! module) /\
      (Extractor.Provides meta !! module = None ->
       Provides (Resolver.buildDist module sel meta) !! module
       = Some (Extractor.Version meta))) /\
  (forall w fuel reqs r st',
      Resolver.Resolve fuel w reqs = Some (r, st') ->
      Resolver.keysProvided (Resolver.resolved st')).
Proof.
  assert (forall w fuel st m v out st',
             Resolver.keysProvided (Resolver.resolved st) ->
             Resolver.resolveOne fuel w st m v = Some (out, st') ->
             Resolver.keysProvided (Resolver.resolved st')) as Hone.
  { intros w fuel. apply (ResolverFacts.resolveOne_invariant w Resolver.keysProvided).
    intros res module call version sel Hres _.
    by apply InvariantFacts.keysProvided_bind. }
  split; [apply InvariantFacts.keysProvided_empty|].
  split; [exact Hone|]. split.
  - intros module sel meta. split.
    + apply ResolverFacts.buildDist_provides_main.
    + apply ResolverFacts.buildDist_provides_added.
  - intros w fuel reqs r st' H.
    apply InvariantFacts.Resolve_state in H as [out H].
    apply (ResolverFacts.resolveEach_invariant Resolver.keysProvided
             (Resolver.resolveOne fuel w) (Hone w fuel) _ Resolver.newState _ _
             InvariantFacts.keysProvided_empty H).
Qed.

Lemma resolved_keys_are_provided_witness :
  Resolver.keysProvided (Resolver.resolved Examples.state_foo10).
Proof.
  apply (proj1 (proj2 resolved_keys_are_provided)
           Examples.world_foo 1%nat Resolver.newState "Foo" "1.0"
           Resolver.Success Examples.state_foo10).
  - exact InvariantFacts.keysProvided_empty.
  - vm_compute. reflexivity.
Defined.

(** C2, as the claim puts it, fails: resolving the non-core module
    [Encode::JP] binds the record of its distribution also to the core
    module [Encode], which that distribution provides, and the record is
    part of the output. *)
Lemma core_key_counterexample :
  Resolver.isCore "Encode" = true /\
  exists dists st',
    Resolver.Resolve 1 Examples.world_foo [mkReq "Encode::JP" "0"] = Some (Some dists, st') /\
    Resolver.resolved st' !! "Encode" = Some Examples.dist_encode /\
    Examples.dist_encode ∈ dists.
Proof.
  split; [reflexivity|].
  exists [Examples.dist_encode; Examples.dist_encode],
         (Resolver.mkState {[ "Encode::JP" := Examples.dist_encode;
                              "Encode" := Examples.dist_encode ]} ∅ 1).
  split; [vm_compute; reflexivity|].
  split; [vm_compute; reflexivity|]. by left.
Qed.

(** Scenario S5: a manifest that requires only [strict] resolves to no
    record, and the snapshot is the two header lines. *)
Example core_only_manifest :
  Resolver.Resolve 1 Examples.world_json [mkReq "strict" "0"]
  = Some (Some [], Resolver.newState) /\
  Snapshot.Emit [] = "# carton snapshot format: version 1.0" +:+ Snapshot.nl
                     +:+ "DISTRIBUTIONS" +:+ Snapshot.nl.
Proof. split; vm_compute; reflexivity. Qed.

(** C2 (amended): a request for a core module succeeds at once and leaves
    the resolver as it is, so no record is created for it; requirement
    lists of core modules alone give an empty result; and when the
    extractor never lists a core module among the provides of a
    distribution, no key of the resolved map is a core module after
    [Resolve], whose output holds exactly the records bound in that map. *)
Theorem core_modules_elided :
  (forall w fuel st M C,
      Resolver.isCore M = true ->
      Resolver.resolveOne (S fuel) w st M C = Some (Resolver.Success, st)) /\
  (forall w fuel reqs,
      Forall (fun r => Resolver.isCore (Module_ r) = true) reqs ->
      Resolver.Resolve (S fuel) w reqs = Some (Some [], Resolver.newState)) /\
  (forall w fuel reqs r st',
      Resolver.providesNoCore w ->
      Resolver.Resolve fuel w reqs = Some (r, st') ->
      Resolver.noCoreKey (Resolver.resolved st') /\
      (forall dists, r = Some dists ->
                     dists = map snd (map_to_list (Resolver.resolved st')))).
Proof.
  split; [intros w fuel st M C; apply InvariantFacts.resolveOne_core|].
  split.
  - intros w fuel reqs Hcore. unfold Resolver.Resolve.
    rewrite InvariantFacts.resolveEach_core.
    + simpl. by rewrite map_to_list_empty.
    + apply Forall_fmap. by apply (Forall_impl _ _ _ Hcore).
  - intros w fuel reqs r st' Hw H. split.
    + apply InvariantFacts.Resolve_state in H as [out H].
      refine (ResolverFacts.resolveEach_invariant Resolver.noCoreKey
                (Resolver.resolveOne fuel w) _ _ Resolver.newState _ _
                InvariantFacts.noCoreKey_empty H).
      apply (ResolverFacts.resolveOne_invariant w Resolver.noCoreKey).
      intros res module call version sel Hres Hm.
      by apply InvariantFacts.noCoreKey_bind.
    + intros dists ->. unfold Resolver.Resolve in H.
      destruct (Resolver.resolveEach _ _ _) as [[[|msg] st1]|]; [| |done].
      * by injection H as <- <-.
      * discriminate H.
Qed.

Lemma core_modules_elided_witness :
  Resolver.noCoreKey (Resolver.resolved Examples.state_json).
Proof.
  refine (proj1 (proj2 (proj2 core_modules_elided)
                   Examples.world_json 1%nat [mkReq "strict" "0"; mkReq "JSON" "0"]
                   (Some [Examples.dist_json; Examples.dist_json]) Examples.state_json
                   _ _)).
  - intros call path meta M H Hcore. injection H as <-.
    destruct (decide (M = "JSON")) as [->|H1]; [discriminate Hcore|].
    destruct (decide (M = "JSON::PP")) as [->|H2]; [discriminate Hcore|].
    simpl. rewrite !lookup_insert_ne by done. apply lookup_empty.
  - vm_compute. reflexivity.
Defined.

(** C1, as the claim puts it, fails: with [Foo] bound to the record of
    Foo-1.0, whose version does not satisfy [>= 2.0], the call
    [resolveOne("Foo", ">= 2.0")] goes on to source selection, finds
    Foo-2.1 on BackPAN and binds [Foo] to the new record. *)
Lemma rebinding_counterexample :
  Resolver.resolveOne 1 Examples.world_foo Resolver.newState "Foo" "1.0"
  = Some (Resolver.Success, Examples.state_foo10) /\
  Resolver.resolved Examples.state_foo10 !! "Foo" = Some Examples.dist_foo10 /\
  satisfies (goIndex (Provides Examples.dist_foo10) "Foo") ">= 2.0" = false /\
  Resolver.resolveOne 1 Examples.world_foo Examples.state_foo10 "Foo" ">= 2.0"
  = Some (Resolver.Success, Examples.state_foo21) /\
  Resolver.resolved Examples.state_foo21 !! "Foo" = Some Examples.dist_foo21 /\
  Resolver.resolved Examples.state_foo21 !! "Foo"
  <> Resolver.resolved Examples.state_foo10 !! "Foo".
Proof.
  split; [vm_compute; reflexivity|].
  split; [vm_compute; reflexivity|].
  split; [vm_compute; reflexivity|].
  split; [vm_compute; reflexivity|].
  split; [vm_compute; reflexivity|].
  intros H.
  assert (Some Examples.dist_foo21 = Some Examples.dist_foo10) as E.
  { transitivity (Resolver.resolved Examples.state_foo21 !! "Foo");
      [symmetry; vm_compute; reflexivity|].
    rewrite H. vm_compute. reflexivity. }
  apply (f_equal (fun o => match o with Some d => Name d | None => "" end)) in E.
  discriminate E.
Qed.

(* ===================================================================== *)
(** ** The downloader                                                    *)
(* ===================================================================== *)

(** A download into an empty cache issues one request and stores the
    body under the destination. *)
Example download_writes_file :
  Downloader.downloadOne Examples.server_ok (Downloader.mkState ∅ [])
    (Downloader.mkJob "http://host/test.tar.gz" "cache/test.tar.gz" "cpan")
  = (None, Downloader.mkState {[ "cache/test.tar.gz" := "new content" ]}
                              ["http://host/test.tar.gz"]).
Proof. vm_compute. reflexivity. Qed.

(** C9: when the destination path of a job holds a file, [downloadOne]
    returns no error, the list of HTTP requests is the same as before and
    so is every file on disk. *)
Theorem cached_download_is_noop
        (w : Downloader.World) (st : Downloader.State) (job : Downloader.Job)
        (content : string) :
  Downloader.files st !! Downloader.DestPath job = Some content ->
  Downloader.downloadOne w st job = (None, st) /\
  Downloader.requests (Downloader.downloadOne w st job).2 = Downloader.requests st /\
  Downloader.files (Downloader.downloadOne w st job).2 !! Downloader.DestPath job
  = Some content.
Proof.
  intros Hfile.
  assert (Downloader.downloadOne w st job = (None, st)) as E.
  { unfold Downloader.downloadOne, Downloader.statOK. by rewrite Hfile. }
  rewrite E. simpl. auto.
Qed.

Lemma cached_download_is_noop_witness :
  Downloader.downloadOne Examples.server_ok
    (Downloader.mkState {[ "cache/cached.tar.gz" := "cached" ]} [])
    (Downloader.mkJob "http://host/cached.tar.gz" "cache/cached.tar.gz" "cpan")
  = (None, Downloader.mkState {[ "cache/cached.tar.gz" := "cached" ]} []).
Proof.
  refine (proj1 (cached_download_is_noop Examples.server_ok
                   (Downloader.mkState {[ "cache/cached.tar.gz" := "cached" ]} [])
                   (Downloader.mkJob "http://host/cached.tar.gz" "cache/cached.tar.gz" "cpan")
                   "cached" _)).
  vm_compute. reflexivity.
Defined.

(* ===================================================================== *)
(** ** The cpanfile parser                                               *)
(* ===================================================================== *)

(** The cases of [TestParser_Parse]. *)
Example TestParser_Parse_simple :
  Cpanfile.parseLines ["requires 'JSON';"]
  = {[ Cpanfile.PhaseRuntime := [mkReq "JSON" "0"] ]}.
Proof. vm_compute. reflexivity. Qed.

Example TestParser_Parse_constraint :
  Cpanfile.parseLines ["requires 'Moo', '>= 2.0, < 3.0';"]
  = {[ Cpanfile.PhaseRuntime := [mkReq "Moo" ">= 2.0, < 3.0"] ]}.
Proof. vm_compute. reflexivity. Qed.

Example TestParser_Parse_block :
  Cpanfile.Parse (fun _ => Some ("requires 'JSON';" +:+ Snapshot.nl
                                 +:+ "on 'test' => sub {" +:+ Snapshot.nl
                                 +:+ "    requires 'Test::More';" +:+ Snapshot.nl
                                 +:+ "};")) "cpanfile"
  = Extractor.Ok {[ Cpanfile.PhaseRuntime := [mkReq "JSON" "0"];
                    Cpanfile.PhaseTest := [mkReq "Test::More" "0"] ]}.
Proof. vm_compute. reflexivity. Qed.

Example TestParser_Parse_comments :
  Cpanfile.parseLines
    ["# This is a comment";
     "requires 'JSON';  # inline comment not supported but line works"]
  = {[ Cpanfile.PhaseRuntime := [mkReq "JSON" "0"] ]}.
Proof. vm_compute. reflexivity. Qed.

Example TestParser_Parse_double_quotes :
  let q := String "034" "" in
  Cpanfile.parseLines ["requires " +:+ q +:+ "JSON" +:+ q +:+ ", " +:+ q +:+ "2.0" +:+ q +:+ ";"]
  = {[ Cpanfile.PhaseRuntime := [mkReq "JSON" "2.0"] ]}.
Proof. vm_compute. reflexivity. Qed.

(** A phase the parser does not know is recorded as runtime, and a
    missing file is an error. *)
Example Parse_unknown_phase :
  Cpanfile.parseLines ["on 'configure' => sub {"; "  requires 'ExtUtils::MakeMaker', '6.30';"; "};"]
  = {[ Cpanfile.PhaseRuntime := [mkReq "ExtUtils::MakeMaker" "6.30"] ]} /\
  Cpanfile.Parse (fun _ => None) "cpanfile" = Extractor.Err "opening cpanfile".
Proof. split; vm_compute; reflexivity. Qed.

(* ===================================================================== *)
(** ** The CPAN index                                                    *)
(* ===================================================================== *)

Example Fields_examples :
  Index.Fields "  a  b c " = ["a"; "b"; "c"] /\
  Index.Fields "" = [] /\
  Index.Fields (String "009" (String "194" (String "160" "x"))) = ["x"].
Proof. repeat split; vm_compute; reflexivity. Qed.

(** [TestCPANIndex_ParseCache] *)
Example TestCPANIndex_ParseCache :
  let idx := (Index.parseCache (Index.NewCPANIndex "https://cpan.metacpan.org")
                (Some Samples.index_text)) in
  idx.2 = None /\
  Index.Lookup idx.1 "JSON"
  = Some (Resolver.mkCPANIndex "JSON" "2.97001" "M/MA/MAKAMAKA/JSON-2.97001.tar.gz") /\
  Index.Lookup idx.1 "Moo"
  = Some (Resolver.mkCPANIndex "Moo" "2.005005" "H/HA/HAARG/Moo-2.005005.tar.gz") /\
  Index.Lookup idx.1 "Module::With::Undef"
  = Some (Resolver.mkCPANIndex "Module::With::Undef" "undef"
            "A/AU/AUTHOR/Module-With-Undef-1.0.tar.gz") /\
  Index.Lookup idx.1 "NonExistent" = None.
Proof. repeat split; vm_compute; reflexivity. Qed.

(** [TestCPANIndex_Lookup_NotLoaded] and [TestCPANIndex_Mirror]. *)
Example TestCPANIndex_Mirror :
  Index.Lookup (Index.NewCPANIndex "https://cpan.metacpan.org") "JSON" = None /\
  Index.Mirror (Index.NewCPANIndex "https://cpan.metacpan.org") = "https://cpan.metacpan.org" /\
  Index.Mirror (Index.NewCPANIndex "https://cpan.metacpan.org/") = "https://cpan.metacpan.org".
Proof. repeat split; vm_compute; reflexivity. Qed.

(* ===================================================================== *)
(** ** The version order                                                 *)
(* ===================================================================== *)

Module OrderFacts.
Import StringFacts VersionFacts.

Lemma length_padTo (n : nat) (l : list Z) :
  (length l <= n)%nat -> length (padTo n l) = n.
Proof. intros H. unfold padTo. rewrite length_app, repeat_length. lia. Qed.

Lemma padTo_more (n N : nat) (l : list Z) :
  (length l <= n)%nat -> (n <= N)%nat ->
  padTo N l = padTo n l ++ repeat 0 (N - n).
Proof.
  intros Hl Hn. unfold padTo. rewrite <- app_assoc, <- repeat_app.
  do 2 f_equal. lia.
Qed.

Lemma lexCompare_refl (x : list Z) : lexCompare x x = 0.
Proof. induction x as [|a x IH]; [done|]. simpl. by rewrite Z.ltb_irrefl. Qed.

(** Zeros appended to both sequences do not change the comparison. *)
Lemma lexCompare_pad (x y : list Z) (k : nat) :
  length x = length y ->
  lexCompare (x ++ repeat 0 k) (y ++ repeat 0 k) = lexCompare x y.
Proof.
  revert y. induction x as [|a x IH]; intros [|b y] H; try discriminate.
  - simpl. apply lexCompare_refl.
  - simpl. repeat case_match; try done. apply IH. simpl in H. lia.
Qed.

(** The comparator reads both versions padded to any common length. *)
Lemma compareVersions_at (N : nat) (a b : string) :
  (length (normalizeVersion a) <= N)%nat -> (length (normalizeVersion b) <= N)%nat ->
  compareVersions a b
  = lexCompare (padTo N (normalizeVersion a)) (padTo N (normalizeVersion b)).
Proof.
  intros Ha Hb. rewrite compareVersions_lex.
  set (n := Nat.max _ _).
  rewrite (padTo_more n N (normalizeVersion a)), (padTo_more n N (normalizeVersion b))
    by (subst n; lia).
  rewrite lexCompare_pad; [done|].
  rewrite !length_padTo by (subst n; lia). done.
Qed.

Lemma lexCompare_trans (x y z : list Z) :
  length x = length y -> length y = length z ->
  lexCompare x y <= 0 -> lexCompare y z <= 0 -> lexCompare x z <= 0.
Proof.
  revert y z. induction x as [|a x IH]; intros [|b y] [|c z] H1 H2;
    try discriminate H1; try discriminate H2; simpl; [lia|].
  destruct (Z.ltb_spec a b), (Z.ltb_spec b a), (Z.ltb_spec b c), (Z.ltb_spec c b),
    (Z.ltb_spec a c), (Z.ltb_spec c a); try lia.
  apply IH; simpl in *; lia.
Qed.

Lemma lexCompare_eq (x y : list Z) :
  length x = length y -> lexCompare x y = 0 -> x = y.
Proof.
  revert y. induction x as [|a x IH]; intros [|b y] H; try discriminate; [done|].
  simpl. destruct (Z.ltb_spec a b), (Z.ltb_spec b a); try lia.
  intros E. f_equal; [lia|]. apply IH; [simpl in H; lia|done].
Qed.

(** Versions that compare equal compare alike with every third one. *)
Lemma compareVersions_congr (a b c : string) :
  compareVersions a b = 0 -> compareVersions a c = compareVersions b c.
Proof.
  intros H.
  set (N := Nat.max (length (normalizeVersion a))
              (Nat.max (length (normalizeVersion b)) (length (normalizeVersion c)))).
  rewrite (compareVersions_at N a b) in H by (subst N; lia).
  apply lexCompare_eq in H; [|rewrite !length_padTo by (subst N; lia); done].
  rewrite (compareVersions_at N a c), (compareVersions_at N b c) by (subst N; lia).
  by rewrite H.
Qed.

Lemma satisfiesOne_congr (a b w : string) :
  (forall c, compareVersions a c = compareVersions b c) ->
  satisfiesOne a w = satisfiesOne b w.
Proof. intros H. unfold satisfiesOne. by rewrite !H. Qed.

Lemma splitGo_app_sep sep cur (s t : string) :
  splitGo sep cur (s +:+ String sep t) = splitGo sep cur s ++ splitGo sep "" t.
Proof.
  revert cur. induction s as [|d s IH]; intros cur.
  - rewrite sapp_nil_l. simpl. by rewrite Ascii.eqb_refl.
  - rewrite sapp_cons. simpl. destruct (Ascii.eqb d sep); [|apply IH].
    by rewrite IH.
Qed.

(** Past the two shortcuts, [satisfies] is the conjunction of its
    clauses; the shortcuts agree with it. *)
Lemma satisfies_clauses (V C : string) :
  V <> "undef" ->
  satisfies V C
  = forallb (fun c => satisfiesOne (if String.eqb V "" then "0" else V) (TrimSpace c))
            (Split C ",").
Proof.
  intros HV. unfold satisfies.
  destruct (String.eqb_spec V "undef") as [?|_]; [done|].
  destruct (String.eqb_spec C "") as [->|_]; [by destruct (String.eqb V "")|].
  destruct (String.eqb_spec C "0") as [->|_]; [by destruct (String.eqb V "")|].
  reflexivity.
Qed.

End OrderFacts.

(** X1: the comparator is transitive: if [a] is at most [b] and [b] is at
    most [c], then [a] is at most [c]. *)
Theorem compareVersions_transitive (a b c : string) :
  compareVersions a b <= 0 -> compareVersions b c <= 0 -> compareVersions a c <= 0.
Proof.
  intros Hab Hbc.
  set (N := Nat.max (length (normalizeVersion a))
              (Nat.max (length (normalizeVersion b)) (length (normalizeVersion c)))).
  rewrite (OrderFacts.compareVersions_at N) in Hab, Hbc |- * by (subst N; lia).
  eapply OrderFacts.lexCompare_trans; [| |exact Hab|exact Hbc];
    rewrite !OrderFacts.length_padTo by (subst N; lia); done.
Qed.

Lemma compareVersions_transitive_witness :
  compareVersions "1.9" "1.10" <= 0 /\ compareVersions "1.10" "2.005005" <= 0 /\
  compareVersions "1.9" "2.005005" <= 0.
Proof.
  assert (compareVersions "1.9" "1.10" <= 0) as H1 by (vm_compute; discriminate).
  assert (compareVersions "1.10" "2.005005" <= 0) as H2 by (vm_compute; discriminate).
  exact (conj H1 (conj H2 (compareVersions_transitive "1.9" "1.10" "2.005005" H1 H2))).
Defined.

(** X2: two versions that compare equal, neither of them [undef], satisfy
    the same constraints. *)
Theorem equal_versions_satisfy_alike (a b C : string) :
  compareVersions a b = 0 -> a <> "undef" -> b <> "undef" ->
  satisfies a C = satisfies b C.
Proof.
  intros H Ha Hb.
  rewrite !OrderFacts.satisfies_clauses by done.
  induction (Split C ",") as [|c l IH]; [done|]. simpl. rewrite IH. f_equal.
  apply OrderFacts.satisfiesOne_congr. intros x.
  assert (forall v, compareVersions (if String.eqb v "" then "0" else v) x
                    = compareVersions v x) as Hz.
  { intros v. destruct (String.eqb_spec v "") as [->|_]; reflexivity. }
  rewrite !Hz. by apply OrderFacts.compareVersions_congr.
Qed.

Lemma equal_versions_satisfy_alike_witness :
  satisfies "v1.2" ">= 1.1, != 1.3" = satisfies "1.2.0" ">= 1.1, != 1.3".
Proof.
  apply (equal_versions_satisfy_alike "v1.2" "1.2.0" ">= 1.1, != 1.3");
    [vm_compute; reflexivity|discriminate|discriminate].
Defined.

(** X3: a constraint joined from two parts by a comma holds exactly when
    both parts hold. *)
Theorem satisfies_conjunction (V C1 C2 : string) :
  satisfies V (C1 +:+ "," +:+ C2) = satisfies V C1 && satisfies V C2.
Proof.
  destruct (decide (V = "undef")) as [->|HV].
  - by rewrite !SatisfiesFacts.satisfies_undef.
  - rewrite !OrderFacts.satisfies_clauses by done.
    unfold Split. change ("," +:+ C2) with (String "," C2).
    rewrite OrderFacts.splitGo_app_sep. apply forallb_app.
Qed.

(* ===================================================================== *)
(** ** Pathnames and distribution names                                  *)
(* ===================================================================== *)

Module PathFacts.
Import StringFacts.

Lemma Index_here (s sub : string) : HasPrefix s sub = true -> Index s sub = Some O.
Proof. intros H. destruct s; simpl; by rewrite H. Qed.

Lemma Index_cons c (s sub : string) :
  HasPrefix (String c s) sub = false -> Index (String c s) sub = S <$> Index s sub.
Proof. intros H. simpl Index. by rewrite H. Qed.

(** No suffix of a string without [sub] starts with [sub]. *)
Lemma Index_None_suffix (a b sub : string) :
  Index (a +:+ b) sub = None -> HasPrefix b sub = false.
Proof.
  induction a as [|c a IH]; intros H.
  - rewrite sapp_nil_l in H. destruct (HasPrefix b sub) eqn:E; [|done].
    by rewrite Index_here in H.
  - rewrite sapp_cons in H. destruct (HasPrefix (String c (a +:+ b)) sub) eqn:E.
    + by rewrite Index_here in H.
    + rewrite Index_cons in H by done. apply IH.
      by destruct (Index (a +:+ b) sub).
Qed.

(** The first occurrence of [sub] in [m ++ sub ++ rest] is at [|m|] when
    no proper suffix of [m] completes to an occurrence. *)
Lemma Index_app_first (m sub rest : string) :
  (forall a c b, m = a +:+ String c b ->
                 HasPrefix (String c b +:+ sub +:+ rest) sub = false) ->
  Index (m +:+ sub +:+ rest) sub = Some (String.length m).
Proof.
  induction m as [|c m IH]; intros H.
  - rewrite sapp_nil_l. apply Index_here, HasPrefix_app.
  - rewrite sapp_cons, Index_cons.
    + rewrite IH; [done|]. intros a d b ->. apply (H (String c a) d b). by rewrite sapp_cons.
    + rewrite <- sapp_cons. apply (H "" c m). by rewrite sapp_nil_l.
Qed.

(** A string that does not start with ["/authors/id"] does not start an
    occurrence of ["/authors/id/"] that runs into one placed behind it. *)
Lemma HasPrefix_cons c a (s p : string) :
  HasPrefix (String c s) (String a p) = Ascii.eqb a c && HasPrefix s p.
Proof. reflexivity. Qed.

Ltac straddle_step H :=
  rewrite sapp_cons, HasPrefix_cons; rewrite HasPrefix_cons in H;
  match goal with
  | |- Ascii.eqb ?x ?c && _ = false =>
      destruct (Ascii.eqb_spec x c) as [<-|_]; [|reflexivity]
  end;
  cbn [andb] in H |- *.

Lemma no_straddle (b rest : string) :
  b <> "" -> HasPrefix b "/authors/id" = false ->
  HasPrefix (b +:+ "/authors/id/" +:+ rest) "/authors/id/" = false.
Proof.
  intros Hne H.
  destruct b as [|c b]; [done|]. clear Hne.
  do 10 (straddle_step H; destruct b as [|c b]; [reflexivity|]).
  straddle_step H. discriminate H.
Qed.

Lemma splitGo_nonempty sep cur (s : string) : splitGo sep cur s <> [].
Proof.
  revert cur. induction s as [|d s IH]; intros cur; simpl; [done|].
  destruct (Ascii.eqb d sep); [done|apply IH].
Qed.

Lemma last_cons_nonempty {A} (x : A) (l : list A) (d : A) :
  l <> [] -> List.last (x :: l) d = List.last l d.
Proof. by destruct l. Qed.

(** The last piece of a split is free of the separator and ends the
    string; what precedes it is empty or ends with the separator. *)
Lemma splitGo_last sep cur (s : string) :
  free sep (String.rev cur) = true ->
  exists pre,
    String.rev cur +:+ s = pre +:+ List.last (splitGo sep cur s) "" /\
    free sep (List.last (splitGo sep cur s) "") = true /\
    (pre = "" \/ exists p, pre = p +:+ String sep "").
Proof.
  revert cur. induction s as [|d s IH]; intros cur Hcur.
  - simpl. exists "". rewrite sapp_nil_r, sapp_nil_l. auto.
  - simpl splitGo. destruct (Ascii.eqb_spec d sep) as [->|Hne].
    + destruct (IH "" eq_refl) as (pre & E & F & Hpre).
      rewrite last_cons_nonempty by apply splitGo_nonempty.
      change (String.rev "" +:+ s) with s in E.
      exists (String.rev cur +:+ String sep pre). split; [|split; [done|right]].
      * rewrite sapp_assoc, sapp_cons, <- E. reflexivity.
      * destruct Hpre as [-> | [p ->]].
        -- by exists (String.rev cur).
        -- exists (String.rev cur +:+ String sep p).
           by rewrite sapp_assoc, sapp_cons.
    + assert (free sep (String.rev (String d cur)) = true) as Hcur'.
      { rewrite srev_cons, SatisfiesFacts.free_app, Hcur. simpl.
        destruct (Ascii.eqb_spec d sep); [done|reflexivity]. }
      destruct (IH _ Hcur') as (pre & E & F & Hpre).
      exists pre. split; [|done].
      rewrite <- E, srev_cons, sapp_assoc. reflexivity.
Qed.

Lemma HasSuffix_app (s p : string) : HasSuffix (s +:+ p) p = true.
Proof. unfold HasSuffix. rewrite srev_app. apply HasPrefix_app. Qed.

Lemma TrimSuffix_app (s p : string) : TrimSuffix (s +:+ p) p = s.
Proof.
  unfold TrimSuffix. rewrite HasSuffix_app, slength_app.
  replace (String.length s + String.length p - String.length p)%nat
    with (String.length s) by lia.
  apply sliceTo_app.
Qed.

Lemma lastElementRev_app (f rest : string) :
  free "/" f = true -> lastElementRev (f +:+ String "/" rest) = f.
Proof.
  induction f as [|c f IH]; intros H; [reflexivity|].
  simpl in H. apply andb_true_iff in H as [Hc Hf]. apply negb_true_iff in Hc.
  rewrite sapp_cons. simpl. rewrite Hc. by rewrite IH.
Qed.

Lemma free_rev c (s : string) : free c (String.rev s) = free c s.
Proof.
  induction s as [|d s IH]; [reflexivity|].
  rewrite srev_cons, SatisfiesFacts.free_app, IH. simpl.
  rewrite andb_true_r. apply andb_comm.
Qed.

(** [filepath.Base] of a path that ends with a file name. *)
Lemma Base_file (dir f : string) :
  f <> "" -> free "/" f = true -> Base (dir +:+ "/" +:+ f) = f.
Proof.
  intros Hne Hf. unfold Base.
  destruct (dir +:+ "/" +:+ f) eqn:E.
  { destruct dir; discriminate E. }
  rewrite <- E. clear E.
  change ("/" +:+ f) with (String "/" f).
  rewrite srev_app, srev_cons, sapp_assoc. change (String "/" "" +:+ ?x) with (String "/" x).
  assert (stripTrailingSlashesRev (String.rev f +:+ String "/" (String.rev dir))
          = String.rev f +:+ String "/" (String.rev dir)) as ->.
  { destruct (String.rev f) as [|c r] eqn:Er.
    - apply (f_equal String.rev) in Er. rewrite srev_involutive in Er. done.
    - rewrite sapp_cons. simpl.
      assert (free "/" (String c r) = true) as Hc by (rewrite <- Er, free_rev; done).
      simpl in Hc. apply andb_true_iff in Hc as [Hc _]. apply negb_true_iff in Hc.
      by rewrite Hc. }
  rewrite lastElementRev_app by (by rewrite free_rev).
  rewrite srev_involutive. by destruct f.
Qed.

End PathFacts.

(** X4: a download URL made of a base without [/authors/id], then
    [/authors/id/], then a pathname, gives that pathname back. *)
Theorem extractPathname_of_mirror_url (base pathname : string) :
  Index base "/authors/id" = None ->
  Resolver.extractPathname (base +:+ "/authors/id/" +:+ pathname) = pathname.
Proof.
  intros H. unfold Resolver.extractPathname.
  rewrite PathFacts.Index_app_first.
  - change (String.length "/authors/id/") with 12%nat.
    rewrite <- (StringFacts.sapp_assoc base "/authors/id/" pathname).
    replace (String.length base + 12)%nat
      with (String.length (base +:+ "/authors/id/"))
      by (by rewrite StringFacts.slength_app).
    apply StringFacts.sliceFrom_app.
  - intros a c b ->. apply PathFacts.no_straddle; [done|].
    by apply (PathFacts.Index_None_suffix a).
Qed.

Lemma extractPathname_of_mirror_url_witness :
  Resolver.extractPathname
    ("https://cpan.metacpan.org" +:+ "/authors/id/" +:+ "I/IS/ISHIGAKI/JSON-4.10.tar.gz")
  = "I/IS/ISHIGAKI/JSON-4.10.tar.gz".
Proof.
  apply (extractPathname_of_mirror_url "https://cpan.metacpan.org"
           "I/IS/ISHIGAKI/JSON-4.10.tar.gz").
  vm_compute. reflexivity.
Defined.

(** X5: for a URL without [/authors/id/], the pathname is what follows
    the last slash: it contains no slash, it ends the URL, and what
    precedes it is empty or ends with a slash. *)
Theorem extractPathname_fallback (url : string) :
  Index url "/authors/id/" = None ->
  exists pre,
    url = pre +:+ Resolver.extractPathname url /\
    free "/" (Resolver.extractPathname url) = true /\
    (pre = "" \/ exists p, pre = p +:+ "/").
Proof.
  intros H. unfold Resolver.extractPathname. rewrite H.
  destruct (PathFacts.splitGo_last "/" "" url eq_refl) as (pre & E & F & Hpre).
  exists pre. split; [exact E|]. split; [exact F|exact Hpre].
Qed.

Lemma extractPathname_fallback_witness :
  exists pre,
    "https://backpan.perl.org/modules/JSON-2.0.tar.gz"
    = pre +:+ Resolver.extractPathname "https://backpan.perl.org/modules/JSON-2.0.tar.gz" /\
    free "/" (Resolver.extractPathname "https://backpan.perl.org/modules/JSON-2.0.tar.gz")
    = true /\
    (pre = "" \/ exists p, pre = p +:+ "/").
Proof.
  apply (extractPathname_fallback "https://backpan.perl.org/modules/JSON-2.0.tar.gz").
  vm_compute. reflexivity.
Defined.

(** X6: the name of a distribution is the file name of its pathname
    without the archive suffix, [.tar.gz] or [.tgz]. *)
Theorem distNameFromPath_strips_archive_suffix (dir stem : string) :
  free "/" stem = true -> HasSuffix stem ".tgz" = false ->
  Resolver.distNameFromPath (dir +:+ "/" +:+ stem +:+ ".tar.gz") = stem /\
  Resolver.distNameFromPath (dir +:+ "/" +:+ stem +:+ ".tgz") = stem.
Proof.
  intros Hf Hs. unfold Resolver.distNameFromPath. split.
  - rewrite PathFacts.Base_file.
    + rewrite PathFacts.TrimSuffix_app. unfold TrimSuffix. by rewrite Hs.
    + by destruct stem.
    + by rewrite SatisfiesFacts.free_app, Hf.
  - rewrite PathFacts.Base_file.
    + assert (TrimSuffix (stem +:+ ".tgz") ".tar.gz" = stem +:+ ".tgz") as ->.
      { unfold TrimSuffix, HasSuffix. rewrite StringFacts.srev_app. reflexivity. }
      apply PathFacts.TrimSuffix_app.
    + by destruct stem.
    + by rewrite SatisfiesFacts.free_app, Hf.
Qed.

Lemma distNameFromPath_strips_archive_suffix_witness :
  Resolver.distNameFromPath ("S/SH/SHAY" +:+ "/" +:+ "Perl-Dist-1.23" +:+ ".tar.gz")
  = "Perl-Dist-1.23" /\
  Resolver.distNameFromPath ("S/SH/SHAY" +:+ "/" +:+ "Perl-Dist-1.23" +:+ ".tgz")
  = "Perl-Dist-1.23".
Proof.
  apply (distNameFromPath_strips_archive_suffix "S/SH/SHAY" "Perl-Dist-1.23");
    vm_compute; reflexivity.
Defined.

(* ===================================================================== *)
(** ** The resolver: what every run keeps                                *)
(* ===================================================================== *)

Module RunFacts.
Import Resolver ResolverFacts InvariantFacts Runs.

Lemma keeps_bind res0 res module d :
  keeps res0 res -> keeps res0 (bindRecord module d res).
Proof.
  intros H k Hk. rewrite bindRecord_lookup.
  destruct (decide (k = module)); [eauto|].
  destruct (H k Hk) as [x ->]. eauto.
Qed.

Lemma resolveOne_keeps w fuel st m v out st' :
  resolveOne fuel w st m v = Some (out, st') -> keeps (resolved st) (resolved st').
Proof.
  apply (resolveOne_invariant w (keeps (resolved st))).
  - intros. by apply keeps_bind.
  - by intros k Hk.
Qed.




(** **** Termination *)

Section Termination.
Variable w : World.
Variable U : gset string.
(** Every module a distribution requires is in [U]. *)
Hypothesis requirements_in_U :
  forall call path meta k,
    extractWithConfigure w call path = Some meta ->
    is_Some (Extractor.Requirements meta !! k) -> k ∈ U.
(** [range] yields entries of the map it ranges over. *)
Hypothesis range_entries :
  forall call (m : gmap string string) k v,
    (k, v) ∈ rangeRequirements w call m -> m !! k = Some v.

Lemma requirements_of_record call module version sel k v :
  (k, v) ∈ rangeRequirements w call
             (Requirements (buildDist module sel (metaOf w call module version sel))) ->
  k ∈ U.
Proof.
  intros H%range_entries. simpl in H. unfold metaOf in H.
  destruct (extractWithConfigure w call (destPathOf w sel)) as [meta|] eqn:E.
  - apply (requirements_in_U call _ meta k E). eauto.
  - simpl in H. by rewrite lookup_empty in H.
Qed.

Lemma resolveEach_returns rec (R : gset string) :
  (forall st m v, resolving st = R -> m ∈ U -> is_Some (rec st m v)) ->
  (forall st m v out st', rec st m v = Some (out, st') -> resolving st' = resolving st) ->
  forall reqs st,
    resolving st = R -> (forall m v, (m, v) ∈ reqs -> m ∈ U) ->
    is_Some (resolveEach rec reqs st).
Proof.
  intros Hrec Hkeep. induction reqs as [|[m v] reqs IH]; intros st HR HU.
  - simpl. eauto.
  - cbn [resolveEach].
    destruct (Hrec st m v HR) as [[out st1] E]; [apply (HU m v); by left|].
    rewrite E. destruct out; [|eauto].
    apply IH.
    + by rewrite (Hkeep _ _ _ _ _ E).
    + intros m' v' Hin. apply (HU m' v'). by right.
Qed.

Lemma resolveOne_returns fuel :
  forall st m v,
    m ∈ U -> (size (U ∖ resolving st) < fuel)%nat ->
    is_Some (resolveOne fuel w st m v).
Proof.
  induction fuel as [|fuel IH]; intros st m v Hm Hsize; [lia|].
  simpl.
  destruct (isCore m); [eauto|].
  destruct (alreadyResolved st m v); [eauto|].
  destruct (bool_decide (m ∈ resolving st)) eqn:Hin; [eauto|].
  apply bool_decide_eq_false in Hin.
  destruct (selectSource w (calls st) m v) as [sel|]; [|eauto].
  destruct (negb (download w (calls st) (jobOf w sel))); [eauto|].
  match goal with
  | |- is_Some (match resolveEach _ ?l ?s with _ => _ end) =>
      assert (is_Some (resolveEach (resolveOne fuel w) l s)) as [[out1 st1] ->]; [|eauto]
  end.
  apply (resolveEach_returns _ ({[m]} ∪ resolving st)).
  - intros st1 m1 v1 HR Hm1. apply IH; [done|]. rewrite HR.
    assert (U ∖ ({[m]} ∪ resolving st) ⊂ U ∖ resolving st) as Hsub.
    { split.
      - intros x. rewrite !elem_of_difference, elem_of_union. tauto.
      - intros Hc. specialize (Hc m).
        rewrite !elem_of_difference, elem_of_union, elem_of_singleton in Hc.
        tauto. }
    apply subset_size in Hsub. lia.
  - intros st1 m1 v1 out st2 E. by apply resolveOne_framed in E as [R _].
  - done.
  - intros k v'. apply requirements_of_record.
Qed.
End Termination.

(** **** The two sources of failure *)

Section Failures.
Variable w : World.
Hypothesis lookup_answers : forall call m v, is_Some (backpanLookup w call m v).

Lemma selectSource_answers call m v : is_Some (selectSource w call m v).
Proof.
  unfold selectSource. destruct (lookup_answers call m v) as [r ->].
  destruct (cpanModules w !! m) as [entry|]; [|eauto].
  destruct (satisfies _ _); eauto.
Qed.

Lemma resolveEach_succeeds rec :
  (forall st m v out st', rec st m v = Some (out, st') -> out = Success) ->
  forall reqs st out st', resolveEach rec reqs st = Some (out, st') -> out = Success.
Proof.
  intros Hrec. induction reqs as [|[m v] reqs IH]; intros st out st' H; simpl in H.
  - by injection H as <- _.
  - destruct (rec st m v) as [[[|msg] st1]|] eqn:E; [by eapply IH| |done].
    by apply Hrec in E.
Qed.

End Failures.

(** **** Names follow pathnames *)

Lemma named_bind res module sel meta :
  named res -> named (bindRecord module (buildDist module sel meta) res).
Proof.
  intros H M R. rewrite bindRecord_lookup.
  destruct (decide (M = module)); [by intros [= <-]|].
  destruct (res !! M) eqn:E; [intros [= <-]; by apply (H M)|].
  destruct (Provides _ !! M); [by intros [= <-]|done].
Qed.

End RunFacts.

(** C1 (amended): let every module that a distribution requires lie in a
    finite set [U], so that a budget of more than [size U] nested calls
    is never used up.  For a module [M] that is bound to a record whose
    provided version does not satisfy [C], the call [resolveOne(M, C)]
    returns, and it leaves the resolver unchanged when [M] is a core
    module or on the resolving stack, and leaves the resolved map
    unchanged, returning an error, when no source is found or the
    download fails; otherwise it re-resolves [M] and the call ends with
    [M] bound to the record built from the newly selected source.  Only
    the other provided modules are first-writer-wins: binding a record
    never replaces the record of a bound module other than the main
    one. *)
Theorem rebinding_on_unsatisfied_constraint
        (w : Resolver.World) (U : gset string) (fuel : nat) (st : Resolver.State)
        (M C : string) (d0 : Dist) :
  (forall call path meta k,
      Resolver.extractWithConfigure w call path = Some meta ->
      is_Some (Extractor.Requirements meta !! k) -> k ∈ U) ->
  (forall call (m : gmap string string) k v,
      (k, v) ∈ Resolver.rangeRequirements w call m -> m !! k = Some v) ->
  M ∈ U ->
  (size (U ∖ Resolver.resolving st) < fuel)%nat ->
  Resolver.resolved st !! M = Some d0 ->
  satisfies (goIndex (Provides d0) M) C = false ->
  (exists out st',
      Resolver.resolveOne fuel w st M C = Some (out, st') /\
      if Resolver.isCore M || bool_decide (M ∈ Resolver.resolving st)
      then st' = st /\ out = Resolver.Success
      else match Resolver.selectSource w (Resolver.calls st) M C with
           | None =>
               Resolver.resolved st' = Resolver.resolved st /\ out <> Resolver.Success
           | Some sel =>
               if Resolver.download w (Resolver.calls st) (Resolver.jobOf w sel)
               then Resolver.resolved st' !! M
                    = Some (Resolver.buildDist M sel
                              (Resolver.metaOf w (Resolver.calls st) M C sel))
               else Resolver.resolved st' = Resolver.resolved st /\
                    out <> Resolver.Success
           end) /\
  (forall module d (res : gmap string Dist) k x,
      k <> module -> res !! k = Some x ->
      Resolver.bindRecord module d res !! k = Some x).
Proof.
  intros HU HR HM Hfuel Hb Hunsat. split.
  - destruct (RunFacts.resolveOne_returns w U HU HR fuel st M C HM Hfuel)
      as [[out st'] H].
    exists out, st'. split; [exact H|].
    destruct fuel as [|fuel]; [done|]. simpl in H.
    destruct (Resolver.isCore M); [by injection H as <- <-|].
    unfold Resolver.alreadyResolved in H. rewrite Hb, Hunsat in H.
    destruct (bool_decide (M ∈ Resolver.resolving st)); [by injection H as <- <-|].
    simpl.
    destruct (Resolver.selectSource w (Resolver.calls st) M C) as [sel|].
    2: { by injection H as <- <-. }
    destruct (Resolver.download w (Resolver.calls st) (Resolver.jobOf w sel)); simpl in H.
    2: { by injection H as <- <-. }
    match type of H with
    | match Resolver.resolveEach _ ?l ?s with _ => _ end = _ =>
        destruct (Resolver.resolveEach (Resolver.resolveOne fuel w) l s)
          as [[out1 st1]|] eqn:E; [|done]
    end.
    injection H as <- <-. simpl.
    eapply ResolverFacts.resolveEach_keeps_main; [| |exact E]; simpl.
    + apply elem_of_union_l. by apply elem_of_singleton.
    + rewrite ResolverFacts.bindRecord_lookup. by rewrite decide_True.
  - intros module d res k x Hne Hk.
    rewrite ResolverFacts.bindRecord_lookup, decide_False by done. by rewrite Hk.
Qed.

Lemma rebinding_on_unsatisfied_constraint_witness :
  exists out st',
    Resolver.resolveOne 2 Examples.world_foo Examples.state_foo10 "Foo" ">= 2.0"
    = Some (out, st') /\
    Resolver.resolved st' !! "Foo"
    = Some (Resolver.buildDist "Foo"
              (Resolver.mkSelection
                 "https://cpan.metacpan.org/authors/id/X/XX/XXX/Foo-2.1.tar.gz"
                 "X/XX/XXX/Foo-2.1.tar.gz" "backpan")
              (Resolver.metaOf Examples.world_foo 1 "Foo" ">= 2.0"
                 (Resolver.mkSelection
                    "https://cpan.metacpan.org/authors/id/X/XX/XXX/Foo-2.1.tar.gz"
                    "X/XX/XXX/Foo-2.1.tar.gz" "backpan"))).
Proof.
  refine (proj1 (rebinding_on_unsatisfied_constraint
                   Examples.world_foo {[ "Foo" ]} 2%nat Examples.state_foo10
                   "Foo" ">= 2.0" Examples.dist_foo10 _ _ _ _ _ _)).
  - intros call path meta k H Hk. simpl in H.
    repeat (destruct (String.eqb path _);
            [injection H as <-; simpl in Hk; destruct Hk as [x Hk];
             by rewrite lookup_empty in Hk|]).
    done.
  - intros call m k v H. by apply elem_of_map_to_list.
  - by apply elem_of_singleton.
  - vm_compute. lia.
  - vm_compute. reflexivity.
  - vm_compute. reflexivity.
Defined.

(** X7: a [resolveOne] call that returns leaves the set of modules under
    way as it found it, and every module that was bound is still bound. *)
Theorem resolveOne_restores_resolving fuel w st m v out st' :
  Resolver.resolveOne fuel w st m v = Some (out, st') ->
  Resolver.resolving st' = Resolver.resolving st /\
  forall k, is_Some (Resolver.resolved st !! k) -> is_Some (Resolver.resolved st' !! k).
Proof.
  intros H. split.
  - by apply ResolverFacts.resolveOne_framed in H as [R _].
  - by apply RunFacts.resolveOne_keeps in H.
Qed.

Lemma resolveOne_restores_resolving_witness :
  Resolver.resolving Examples.state_foo21 = Resolver.resolving Examples.state_foo10 /\
  forall k, is_Some (Resolver.resolved Examples.state_foo10 !! k) ->
            is_Some (Resolver.resolved Examples.state_foo21 !! k).
Proof.
  apply (resolveOne_restores_resolving 1 Examples.world_foo Examples.state_foo10
           "Foo" ">= 2.0" Resolver.Success Examples.state_foo21).
  vm_compute. reflexivity.
Defined.



(** With the minimal metadata of a tarball that could not be read, the
    version recorded for the module is the text of the constraint. *)
Example minimal_metadata_records_the_constraint :
  match Resolver.Resolve 2 Samples.world_bare [mkReq "Acme::Thing" ">= 2.0"] with
  | Some (Some [d], _) => Provides d !! "Acme::Thing"
  | _ => None
  end = Some ">= 2.0" /\
  satisfies ">= 2.0" ">= 2.0" = false.
Proof. split; vm_compute; reflexivity. Qed.

(** X9: when BackPAN answers every lookup and every download works, no
    [resolveOne] call fails: a tarball whose metadata cannot be extracted
    is not an error. *)
Theorem resolution_fails_only_on_lookup_or_download w fuel st m v out st' :
  (forall call m v, is_Some (Resolver.backpanLookup w call m v)) ->
  (forall call job, Resolver.download w call job = true) ->
  Resolver.resolveOne fuel w st m v = Some (out, st') ->
  out = Resolver.Success.
Proof.
  intros Hl Hd. revert st m v out st'.
  induction fuel as [|fuel IH]; intros st m v out st' H; [done|].
  simpl in H.
  destruct (Resolver.isCore m); [by injection H as <- _|].
  destruct (Resolver.alreadyResolved st m v); [by injection H as <- _|].
  destruct (bool_decide (m ∈ Resolver.resolving st)); [by injection H as <- _|].
  destruct (RunFacts.selectSource_answers w Hl (Resolver.calls st) m v) as [sel Hsel].
  rewrite Hsel, Hd in H. simpl in H.
  match type of H with
  | match Resolver.resolveEach _ ?l ?s with _ => _ end = _ =>
      destruct (Resolver.resolveEach (Resolver.resolveOne fuel w) l s)
        as [[out1 st1]|] eqn:E; [|done]
  end.
  injection H as <- _. by apply (RunFacts.resolveEach_succeeds _ IH) in E.
Qed.

(** X10: the recursion of the resolver ends.  If every module that a
    manifest or a distribution requires lies in a finite set [U], a
    budget of more than [size U] nested calls is never used up, whether
    or not the requirements form cycles. *)
Theorem Resolve_terminates w (U : gset string) fuel reqs :
  (forall call path meta k,
      Resolver.extractWithConfigure w call path = Some meta ->
      is_Some (Extractor.Requirements meta !! k) -> k ∈ U) ->
  (forall call (m : gmap string string) k v,
      (k, v) ∈ Resolver.rangeRequirements w call m -> m !! k = Some v) ->
  (forall r, r ∈ reqs -> Module_ r ∈ U) ->
  (size U < fuel)%nat ->
  is_Some (Resolver.Resolve fuel w reqs).
Proof.
  intros HU HR Hreqs Hfuel. unfold Resolver.Resolve.
  assert (is_Some (Resolver.resolveEach (Resolver.resolveOne fuel w)
                     (map (fun r => (Module_ r, Version_ r)) reqs) Resolver.newState))
    as [[[|msg] st] ->]; [|eauto|eauto].
  apply (RunFacts.resolveEach_returns U _ ∅); [| |done|].
  - intros st m v Hst Hm. apply (RunFacts.resolveOne_returns w U HU HR); [done|].
    rewrite Hst. replace (U ∖ ∅) with U; [done|].
    apply set_eq. intros x. rewrite elem_of_difference.
    split; [intros ?; split; [done|apply not_elem_of_empty]|by intros [? _]].
  - intros st m v out st1 E. by apply ResolverFacts.resolveOne_framed in E as [R _].
  - intros m v Hin. apply list_elem_of_fmap in Hin as (r & [= -> ->] & Hr). by apply Hreqs.
Qed.

Lemma Resolve_terminates_witness :
  is_Some (Resolver.Resolve 3 Samples.world_ring [mkReq "Ring::A" "0"]).
Proof.
  apply (Resolve_terminates Samples.world_ring Samples.ring 3 [mkReq "Ring::A" "0"]).
  - intros call path meta k H Hk. simpl in H.
    destruct (String.eqb path _); [|destruct (String.eqb path _); [|done]];
      injection H as <-; simpl in Hk; destruct Hk as [x Hk];
      apply lookup_singleton_Some in Hk as [<- _]; unfold Samples.ring.
    + apply elem_of_union_r. by apply elem_of_singleton.
    + apply elem_of_union_l. by apply elem_of_singleton.
  - intros call m k v H. by apply elem_of_map_to_list.
  - intros r Hr. apply list_elem_of_singleton in Hr as ->. simpl.
    apply elem_of_union_l. by apply elem_of_singleton.
  - vm_compute. lia.
Defined.

Lemma resolution_fails_only_on_lookup_or_download_witness :
  exists out st',
    Resolver.resolveOne 1 Samples.world_bare Resolver.newState "Acme::Thing" "1.0"
    = Some (out, st') /\ out = Resolver.Success.
Proof.
  eexists _, _. split; [vm_compute; reflexivity|].
  eapply (resolution_fails_only_on_lookup_or_download Samples.world_bare 1
            Resolver.newState "Acme::Thing" "1.0").
  - intros. simpl. eauto.
  - reflexivity.
  - vm_compute. reflexivity.
Defined.

(** X11: after [Resolve], the name of every bound record is the name
    derived from its pathname. *)
Theorem resolved_names_follow_pathnames fuel w reqs r st' :
  Resolver.Resolve fuel w reqs = Some (r, st') ->
  forall M R, Resolver.resolved st' !! M = Some R ->
              Name R = Resolver.distNameFromPath (Pathname R).
Proof.
  intros H. apply InvariantFacts.Resolve_state in H as [out H].
  apply (ResolverFacts.resolveEach_invariant Runs.named
           (Resolver.resolveOne fuel w)) in H; [done| |].
  - intros st m v out1 st2 HP. apply ResolverFacts.resolveOne_invariant; [|done].
    intros. by apply RunFacts.named_bind.
  - intros M R HR. simpl in HR. by rewrite lookup_empty in HR.
Qed.

Lemma resolved_names_follow_pathnames_witness :
  Name Examples.dist_json = Resolver.distNameFromPath (Pathname Examples.dist_json).
Proof.
  apply (resolved_names_follow_pathnames 1 Examples.world_json
           [mkReq "strict" "0"; mkReq "JSON" "0"]
           (Some [Examples.dist_json; Examples.dist_json]) Examples.state_json
           ltac:(vm_compute; reflexivity) "JSON" Examples.dist_json).
  vm_compute. reflexivity.
Defined.

(* ===================================================================== *)
(** ** The snapshot: order, limits and the shape of parsed records       *)
(* ===================================================================== *)

Module SortFacts.
Import Snapshot RoundTrip Parsed.

Lemma compare_ge_trans (a b c : string) :
  String.compare a b <> Lt -> String.compare b c <> Lt -> String.compare a c <> Lt.
Proof.
  revert b c. induction a as [|x a IH]; intros [|y b] [|z c]; simpl; try done.
  unfold Ascii.compare.
  destruct (N.compare_spec (N_of_ascii x) (N_of_ascii y)),
           (N.compare_spec (N_of_ascii y) (N_of_ascii z)),
           (N.compare_spec (N_of_ascii x) (N_of_ascii z));
    try done; try lia.
  apply IH.
Qed.

Lemma strLt_false (a b : string) : strLt a b = false <-> String.compare a b <> Lt.
Proof. unfold strLt, String.ltb. destruct (String.compare a b); split; done. Qed.

Lemma strLt_ge_trans (a b c : string) :
  strLt a b = false -> strLt b c = false -> strLt a c = false.
Proof. rewrite !strLt_false. apply compare_ge_trans. Qed.

Lemma strLt_asym (a b : string) : strLt a b = true -> strLt b a = false.
Proof.
  unfold strLt, String.ltb. rewrite (String.compare_antisym a b).
  by destruct (String.compare b a).
Qed.

Lemma strLt_antisym (a b : string) : strLt a b = false -> strLt b a = false -> a = b.
Proof.
  unfold strLt, String.ltb. rewrite (String.compare_antisym a b).
  destruct (String.compare b a) eqn:E; try done.
  intros _ _. symmetry. by apply String.compare_eq_iff.
Qed.

Lemma insertRev_head x (racc : list Dist) y :
  geName y x -> HdRel geName y racc -> HdRel geName y (insertRev byName x racc).
Proof.
  intros Hx Hr. destruct racc as [|z r]; simpl; [by constructor|].
  destruct (byName x z); constructor; [|done].
  by apply HdRel_inv in Hr.
Qed.

Lemma insertRev_Sorted x (racc : list Dist) :
  Sorted geName racc -> Sorted geName (insertRev byName x racc).
Proof.
  induction racc as [|y r IH]; intros Hs; simpl.
  - by repeat constructor.
  - apply Sorted_inv in Hs as [Hr Hy].
    destruct (byName x y) eqn:E.
    + constructor; [by apply IH|]. apply insertRev_head; [|done].
      by apply strLt_asym.
    + constructor; [by constructor|]. constructor. exact E.
Qed.

Lemma fold_insertRev_Sorted (l racc : list Dist) :
  Sorted geName racc ->
  Sorted geName (fold_left (fun racc x => insertRev byName x racc) l racc).
Proof.
  revert racc. induction l as [|x l IH]; intros racc Hs; [done|].
  simpl. by apply IH, insertRev_Sorted.
Qed.

Lemma fold_insertRev_perm (l : list Dist) :
  fold_left (fun racc x => insertRev byName x racc) l [] ≡ₚ l.
Proof.
  rewrite <- (insertionSort_perm byName l) at 2. unfold insertionSort.
  apply Permutation_rev.
Qed.

Lemma NoDup_names_inj (l : list Dist) x y :
  NoDup (map Name l) -> x ∈ l -> y ∈ l -> Name x = Name y -> x = y.
Proof.
  induction l as [|a l IH]; intros Hn Hx Hy E; [by apply elem_of_nil in Hx|].
  simpl in Hn. apply NoDup_cons in Hn as [Ha Hn].
  apply elem_of_cons in Hx as [->|Hx], Hy as [->|Hy]; [done| | |by apply IH].
  - exfalso. apply Ha. rewrite E. apply list_elem_of_fmap. by exists y.
  - exfalso. apply Ha. rewrite <- E. apply list_elem_of_fmap. by exists x.
Qed.

Lemma geName_refl (a : Dist) : geName a a.
Proof.
  unfold geName, strLt, String.ltb.
  destruct (String.compare (Name a) (Name a)) eqn:E; try done.
  pose proof (String.compare_antisym (Name a) (Name a)) as H. rewrite E in H. done.
Qed.

Lemma geName_head (x : Dist) (l : list Dist) y :
  StronglySorted geName (x :: l) -> y ∈ x :: l -> geName x y.
Proof.
  intros Hs Hy. apply StronglySorted_inv in Hs as [_ Hall].
  apply elem_of_cons in Hy as [->|Hy]; [apply geName_refl|].
  rewrite Forall_forall in Hall. by apply Hall.
Qed.

(** Two descending lists with the same elements, on which equal names
    mean equal records, are the same list. *)
Lemma descending_unique (l1 l2 : list Dist) :
  StronglySorted geName l1 -> StronglySorted geName l2 -> l1 ≡ₚ l2 ->
  (forall x y, x ∈ l1 -> y ∈ l1 -> Name x = Name y -> x = y) ->
  l1 = l2.
Proof.
  revert l2. induction l1 as [|x l1 IH]; intros l2 H1 H2 Hp Hinj.
  - by apply Permutation_nil_l in Hp.
  - destruct l2 as [|y l2]; [by apply Permutation_nil_r in Hp|].
    assert (x = y) as ->.
    { apply Hinj; [by left| |].
      - rewrite Hp. by left.
      - apply strLt_antisym.
        + apply (geName_head x l1 y H1). rewrite Hp. by left.
        + apply (geName_head y l2 x H2). rewrite <- Hp. by left. }
    f_equal. apply IH.
    + by apply StronglySorted_inv in H1 as [? _].
    + by apply StronglySorted_inv in H2 as [? _].
    + by apply Permutation_cons_inv in Hp.
    + intros a b Ha Hb. apply Hinj; by right.
Qed.

Lemma insertionSort_perm_eq (l l' : list Dist) :
  l ≡ₚ l' -> NoDup (map Name l) ->
  insertionSort byName l = insertionSort byName l'.
Proof.
  intros Hp Hn. unfold insertionSort. f_equal.
  assert (Transitive geName) as Htrans by (intros a b c; apply strLt_ge_trans).
  apply descending_unique.
  - apply Sorted_StronglySorted; [done|]. apply fold_insertRev_Sorted. constructor.
  - apply Sorted_StronglySorted; [done|]. apply fold_insertRev_Sorted. constructor.
  - by rewrite !fold_insertRev_perm.
  - intros x y Hx Hy. rewrite fold_insertRev_perm in Hx, Hy.
    by apply (NoDup_names_inj l).
Qed.

End SortFacts.

(** X12: the emitted snapshot does not depend on the order in which the
    records are handed to the emitter, provided their names are pairwise
    distinct. *)
Theorem Emit_order_independent (l l' : list Dist) :
  l ≡ₚ l' -> NoDup (map Name l) -> Snapshot.Emit l = Snapshot.Emit l'.
Proof.
  intros Hp Hn. unfold Snapshot.Emit.
  pose proof (SortFacts.insertionSort_perm_eq l l' Hp Hn) as E.
  unfold Parsed.byName in E. by rewrite E.
Qed.

Lemma Emit_order_independent_witness :
  Snapshot.Emit [Examples.dist_moo; Examples.dist_alpha]
  = Snapshot.Emit [Examples.dist_alpha; Examples.dist_moo].
Proof.
  apply (Emit_order_independent [Examples.dist_moo; Examples.dist_alpha]
           [Examples.dist_alpha; Examples.dist_moo]).
  - apply Permutation_swap.
  - simpl. apply NoDup_cons. split.
    + intros H. apply list_elem_of_singleton in H. discriminate H.
    + apply NoDup_singleton.
Defined.

Module ScanFacts.
Import StringFacts Snapshot Parsed.

(** The scanner gives up exactly when one of the pieces between line
    feeds does not fit its buffer. *)
Lemma scanGo_None cur (s : string) :
  scanGo cur s = None <-> Exists tooLong (splitGo "010" cur s).
Proof.
  revert cur. induction s as [|c s IH]; intros cur.
  - simpl. destruct cur as [|d cur].
    + split; [done|]. intros H. apply Exists_cons in H as [H|H].
      * unfold tooLong, maxLine in H. simpl in H. lia.
      * by apply Exists_nil in H.
    + destruct (Z.ltb_spec maxLine (Z.of_nat (String.length (String d cur)))) as [Hl|Hl].
      * split; [|done]. intros _. apply Exists_cons. left.
        unfold tooLong. by rewrite slength_rev.
      * split; [done|]. intros H. apply Exists_cons in H as [H|H].
        -- unfold tooLong in H. rewrite slength_rev in H. lia.
        -- by apply Exists_nil in H.
  - simpl. destruct (Ascii.eqb c "010"); [|apply IH].
    destruct (Z.ltb_spec maxLine (Z.of_nat (String.length cur))) as [Hl|Hl].
    + split; [|done]. intros _. apply Exists_cons. left.
      unfold tooLong. by rewrite slength_rev.
    + rewrite Exists_cons, <- IH.
      destruct (scanGo "" s); simpl; split; try done.
      * intros [H|H]; [|done]. unfold tooLong in H. rewrite slength_rev in H. lia.
      * auto.
Qed.

End ScanFacts.

(** X13: the snapshot parser fails exactly when some line of the input,
    counted between line feeds, is longer than 65535 bytes; on every
    other input it returns a list of records. *)
Theorem Parse_fails_only_on_long_line (input : string) :
  Snapshot.Parse input = None <->
  exists l, l ∈ Split input "010" /\ Snapshot.maxLine < Z.of_nat (String.length l).
Proof.
  unfold Snapshot.Parse, Snapshot.scanLines, Split.
  rewrite <- Exists_exists, <- ScanFacts.scanGo_None.
  destruct (Snapshot.scanGo "" input); split; done.
Qed.

Module ShapeFacts.
Import StringFacts Snapshot Parsed RoundTrip.

Lemma mapAll_insert P (m : gmap string string) k v :
  mapAll P m = true -> P k v = true -> mapAll P (<[k := v]> m) = true.
Proof.
  intros Hm Hkv. apply mapAll_intro. intros k' v' H.
  apply lookup_insert_Some in H as [[<- <-]|[_ H]]; [done|].
  by apply (mapAll_lookup P m k' v').
Qed.

Lemma spanNonSpace_all (s a b : string) :
  spanNonSpace s = (a, b) -> allNonSpace a = true.
Proof.
  revert a b. induction s as [|c s IH]; intros a b H; simpl in H.
  - by injection H as <- _.
  - destruct (nonSpace c) eqn:E; [|by injection H as <- _].
    destruct (spanNonSpace s) as [a' b']. injection H as <- _.
    simpl. rewrite E. by apply (IH a' b').
Qed.

Lemma moduleVerRe_entry line k v :
  moduleVerRe line = Some (k, v) -> entryOK k v = true.
Proof.
  unfold moduleVerRe, entryOK, tokenOK. destruct (HasPrefix line "      "); [|done].
  destruct (spanNonSpace (sliceFrom 6 line)) as [a b] eqn:E.
  destruct a as [|c a]; [done|]. destruct b as [|d b]; [done|].
  destruct (Ascii.eqb d " " && dotPlus b) eqn:Hd; [|done].
  intros [= <- <-]. apply andb_true_iff in Hd as [_ ->].
  by rewrite (spanNonSpace_all _ _ _ E).
Qed.

Lemma distNameRe_token line name :
  distNameRe line = Some name -> tokenOK name = true.
Proof.
  unfold distNameRe, tokenOK. destruct (HasPrefix line "  "); [|done].
  destruct (_ && _) eqn:E; [|done]. by intros [= <-].
Qed.

Lemma pathnameRe_value line p :
  pathnameRe line = Some p -> dotPlus p = true.
Proof.
  unfold pathnameRe. destruct (HasPrefix line _); [|done].
  destruct (dotPlus _) eqn:E; [|done]. by intros [= <-].
Qed.

Lemma recordOK_fields d :
  recordOK d = true <->
  tokenOK (Name d) = true /\ String.eqb (Source d) "" = true /\
  (String.eqb (Pathname d) "" || dotPlus (Pathname d)) = true /\
  mapAll entryOK (Provides d) = true /\ mapAll entryOK (Requirements d) = true.
Proof. unfold recordOK. rewrite !andb_true_iff. tauto. Qed.

Lemma flush_ok st : stateOK st -> Forall (fun d => recordOK d = true) (flush st).
Proof.
  intros [Hd Hc]. unfold flush. destruct (current st) as [c|]; [|done].
  apply Forall_app. split; [done|]. constructor; [by apply Hc|constructor].
Qed.

Lemma parseLine_ok st line : stateOK st -> stateOK (parseLine st line).
Proof.
  intros Hst. unfold parseLine.
  destruct (_ || _); [done|]. destruct (String.eqb line ""); [done|].
  destruct (distNameRe line) as [name|] eqn:En.
  { split; simpl; [by apply flush_ok|].
    intros c [= <-]. apply recordOK_fields. simpl.
    rewrite (distNameRe_token _ _ En). repeat split; by apply mapAll_intro. }
  destruct (current st) as [cur|] eqn:Ec; [|done].
  destruct Hst as [Hd Hc]. specialize (Hc cur Ec).
  apply recordOK_fields in Hc as (H1 & H2 & H3 & H4 & H5).
  destruct (pathnameRe line) as [p|] eqn:Ep.
  { split; simpl; [done|]. intros c [= <-]. apply recordOK_fields. simpl.
    rewrite (pathnameRe_value _ _ Ep), orb_true_r. done. }
  assert (recordOK cur = true) as Hcur by (by apply recordOK_fields).
  assert (stateOK st) as Hst.
  { split; [done|]. intros c Hc. rewrite Ec in Hc. by injection Hc as <-. }
  destruct (providesRe line).
  { split; simpl; [done|]. intros c [= <-]. done. }
  destruct (requiresRe line).
  { split; simpl; [done|]. intros c [= <-]. done. }
  destruct (moduleVerRe line) as [[k v]|] eqn:Em; [|done].
  apply moduleVerRe_entry in Em.
  destruct (inProvides st).
  { split; simpl; [done|]. intros c [= <-]. apply recordOK_fields. simpl.
    repeat split; try done. by apply mapAll_insert. }
  destruct (inRequirements st); [|done].
  split; simpl; [done|]. intros c [= <-]. apply recordOK_fields. simpl.
  repeat split; try done. by apply mapAll_insert.
Qed.

Lemma parseLines_ok lines st :
  stateOK st -> stateOK (fold_left parseLine lines st).
Proof.
  revert st. induction lines as [|l lines IH]; intros st H; [done|].
  simpl. by apply IH, parseLine_ok.
Qed.

Lemma recordOK_shape d : recordOK d = true -> shapeOK d = true.
Proof.
  intros (Hn & _ & Hp & Hpr & Hrq)%recordOK_fields.
  apply shapeOK_fields. repeat split; try done.
  apply orb_true_iff in Hp as [->%String.eqb_eq|Hp]; [done|].
  unfold dotPlus in Hp. by apply andb_true_iff in Hp as [_ ?].
Qed.

End ShapeFacts.

(** X14: whatever the input, every record the snapshot parser returns has
    a name that is a non-empty token, no source tag, a pathname that is
    missing or a non-empty rest of a line, and sections whose keys are
    tokens and whose values are not empty. *)
Theorem Parse_records_shape (input : string) (ds : list Dist) :
  Snapshot.Parse input = Some ds ->
  Forall (fun d => Parsed.recordOK d = true) ds.
Proof.
  unfold Snapshot.Parse. destruct (Snapshot.scanLines input) as [lines|]; [|done].
  intros [= <-]. apply ShapeFacts.flush_ok, ShapeFacts.parseLines_ok.
  split; [constructor|done].
Qed.

Lemma Parse_records_shape_witness :
  Forall (fun d => Parsed.recordOK d = true) [Examples.dist_alpha; Examples.dist_moo].
Proof.
  apply (Parse_records_shape (Snapshot.Emit [Examples.dist_alpha; Examples.dist_moo])).
  vm_compute. reflexivity.
Defined.

(* ===================================================================== *)
(** ** Snapshot round trip                                               *)
(* ===================================================================== *)

(** C3, as the claim puts it, fails for a sorted list whose record holds
    a constraint with an operator: the emitter writes the normalised
    constraint, and the parser reads that one back. *)
Lemma round_trip_counterexample :
  Snapshot.sortedByName [Examples.dist_with_operator] = true /\
  Snapshot.Parse (Snapshot.Emit [Examples.dist_with_operator])
  <> Some [Examples.dist_with_operator].
Proof.
  split; [reflexivity|]. intros H.
  apply (f_equal (fun r => match r with
                           | Some [d] => Requirements d !! "Role::Tiny"
                           | _ => None
                           end)) in H.
  vm_compute in H. discriminate.
Qed.

(** The source tag is not part of the format, and an empty provided
    version comes back as [undef]. *)
Example round_trip_drops_source :
  (fun r => match r with Some [d] => Some (Source d) | _ => None end)
    (Snapshot.Parse (Snapshot.Emit [Examples.dist_from_cpan])) = Some "".
Proof. vm_compute. reflexivity. Qed.

Example round_trip_empty_version :
  (fun r => match r with Some [d] => Provides d !! "JSON" | _ => None end)
    (Snapshot.Parse (Snapshot.Emit [Examples.dist_empty_version])) = Some "undef".
Proof. vm_compute. reflexivity. Qed.

(** An empty pathname is no obstacle: no pattern of the parser matches
    its line, and the field stays empty. *)
Example round_trip_empty_pathname :
  Snapshot.Parse (Snapshot.Emit [mkDist "Alpha-1.0" "" {[ "Alpha" := "1.0" ]} ∅ ""])
  = Some [mkDist "Alpha-1.0" "" {[ "Alpha" := "1.0" ]} ∅ ""].
Proof. vm_compute. reflexivity. Qed.

(** C3 (amended): let [S] be a list of records sorted by name.  Parsing
    the emitted text returns [S] exactly when every record passes
    [distOK] and has an empty source tag.  [distOK] asks for a name and
    module keys that are non-empty and free of white space; a pathname
    without a line feed inside or a carriage return at its end (it may
    be empty); provided versions and requirement constraints that are
    non-empty, without a line feed inside or a carriage return at their
    end; requirement constraints that the emitter's [normalizeVersion]
    leaves as they are; and emitted lines within the scanner's 65535
    bytes.  When the records pass [distOK] but carry source tags, as the
    records of the resolver do, the parser returns [S] with the source
    tags cleared. *)
Theorem snapshot_round_trip (S : list Dist) :
  Snapshot.sortedByName S = true ->
  (forallb Snapshot.distOK S = true ->
   Snapshot.Parse (Snapshot.Emit S) = Some (map Snapshot.clearSource S)) /\
  (Snapshot.Parse (Snapshot.Emit S) = Some S <->
   forallb Snapshot.distOK S = true /\ Forall (fun d => Source d = "") S).
Proof.
  intros Hs.
  assert (forallb Snapshot.distOK S = true ->
          Snapshot.Parse (Snapshot.Emit S) = Some (map Snapshot.clearSource S)) as Hclear.
  { intros Hok. rewrite forallb_forall in Hok.
    rewrite RoundTrip.Parse_Emit; [|done|].
    - assert (forallb Snapshot.fits (concat (map Snapshot.distLines S)) = true) as ->.
      { apply forallb_forall. intros l (ls & (d & <- & Hd)%in_map_iff & Hl)%in_concat.
        pose proof (RoundTrip.distOK_fits d (Hok d Hd)) as Hf.
        rewrite forallb_forall in Hf. by apply Hf. }
      f_equal. apply map_ext_in. intros d Hd. by apply RoundTrip.readBack_clear, Hok.
    - apply Forall_forall. intros d Hd%list_elem_of_In. by apply RoundTrip.distOK_shape, Hok. }
  split; [exact Hclear|]. split.
  - intros H.
    assert (Forall (fun d => Parsed.shapeOK d = true) S) as Hshape.
    { assert (Forall (fun d => Parsed.recordOK d = true) S) as Hrec.
      { unfold Snapshot.Parse in H.
        destruct (Snapshot.scanLines (Snapshot.Emit S)) as [lines|]; [|done].
        injection H as <-. apply ShapeFacts.flush_ok, ShapeFacts.parseLines_ok.
        split; [constructor|done]. }
      apply (Forall_impl _ _ _ Hrec). apply ShapeFacts.recordOK_shape. }
    rewrite RoundTrip.Parse_Emit in H by done.
    destruct (forallb Snapshot.fits (concat (map Snapshot.distLines S))) eqn:Hfit; [|done].
    injection H as H. apply RoundTrip.map_fixed in H.
    rewrite forallb_forall in Hfit.
    assert (Forall (fun d => Snapshot.distOK d = true /\ Source d = "") S) as Hall.
    { apply Forall_forall. intros d Hd.
      apply RoundTrip.readBack_fixed.
      - by apply (proj1 (Forall_forall _ _) Hshape).
      - apply forallb_forall. intros l Hl. apply Hfit, in_concat.
        exists (Snapshot.distLines d). split; [|done].
        apply in_map, list_elem_of_In, Hd.
      - by apply (proj1 (Forall_forall _ _) H). }
    split.
    + apply forallb_forall. intros d Hd%list_elem_of_In.
      by apply (proj1 (Forall_forall _ _) Hall).
    + apply (Forall_impl _ _ _ Hall). by intros d [_ ?].
  - intros [Hok Hsrc]. rewrite (Hclear Hok). f_equal.
    apply RoundTrip.map_fixed. apply (Forall_impl _ _ _ Hsrc).
    intros [n p pr rq src]. unfold Snapshot.clearSource. simpl. by intros ->.
Qed.

Lemma snapshot_round_trip_witness :
  Snapshot.Parse (Snapshot.Emit [Examples.dist_alpha; Examples.dist_moo])
  = Some [Examples.dist_alpha; Examples.dist_moo].
Proof.
  apply (proj2 (proj2 (snapshot_round_trip [Examples.dist_alpha; Examples.dist_moo]
                         ltac:(vm_compute; reflexivity)))).
  split; [vm_compute; reflexivity|].
  repeat constructor.
Defined.

(* ===================================================================== *)
(** ** The extractor: commands, precedence and what the scan ignores     *)
(* ===================================================================== *)

Module ArchiveFacts.
Import Extractor Archive ConfigureFacts.

Lemma runConfigure_length w e path hasMakefile :
  (length (runConfigure w e path hasMakefile).2 <= 1)%nat.
Proof.
  unfold runConfigure.
  destruct (mkdirTemp w) as [tmp|]; [|simpl; lia].
  destruct (extractTarball w path tmp) as [dist|]; [|simpl; lia].
  destruct (negb (run w _)); [simpl; lia|].
  destruct (readFile w dist "MYMETA.json"); [simpl; lia|].
  destruct (readFile w dist "MYMETA.yml"); simpl; lia.
Qed.

Lemma Extract_cmds w e path : (Extract w e path).2 = [].
Proof.
  unfold Extract, extractMeta.
  destruct (openTarball w path) as [[entries fin]|]; [|done].
  by destruct (scanEntries emptyScan entries fin).
Qed.

Lemma ExtractWithConfigure_length w e path :
  (length (ExtractWithConfigure w e path).2 <= 1)%nat.
Proof.
  unfold ExtractWithConfigure, extractMeta.
  destruct (openTarball w path) as [[entries fin]|]; [|simpl; lia].
  destruct (scanEntries emptyScan entries fin) as [sc|]; [|simpl; lia].
  destruct (mymetaJSON sc); [simpl; lia|]. destruct (mymetaYML sc); [simpl; lia|].
  destruct (hasMakefilePL sc || hasBuildPL sc); [|simpl; lia].
  pose proof (runConfigure_length w e path (hasMakefilePL sc)) as H.
  by destruct (runConfigure w e path (hasMakefilePL sc)) as [[meta|msg] cmds].
Qed.

(** An entry the scan does not act on leaves the scan as it is. *)
Lemma scanEntry_irrelevant sc e : relevant e = false -> scanEntry sc e = Ok sc.
Proof.
  unfold relevant, scanned, topLevel, scanEntry. simpl.
  destruct (length (Split (EntryName e) "/") =? 2)%nat; [|done]. simpl.
  rewrite !orb_false_iff. intros (-> & -> & -> & -> & -> & -> & _). done.
Qed.

(** The two static files after one round of the scan. *)
Lemma scanEntry_static sc e sc' :
  scanEntry sc e = Ok sc' ->
  metaJSON sc' = (if topLevel "META.json" e then EntryData e else metaJSON sc) /\
  metaYML sc' = (if topLevel "META.yml" e then EntryData e else metaYML sc).
Proof.
  unfold scanEntry, topLevel.
  destruct (length (Split (EntryName e) "/") =? 2)%nat; simpl; [|by intros [= <-]].
  generalize (Base (EntryName e)). intros name.
  destruct (String.eqb_spec name "META.json") as [->|_].
  { destruct (EntryData e); [|done]. by intros [= <-]. }
  destruct (String.eqb_spec name "META.yml") as [->|_].
  { destruct (EntryData e); [|done]. by intros [= <-]. }
  destruct (String.eqb name "MYMETA.json").
  { destruct (EntryData e); [|done]. by intros [= <-]. }
  destruct (String.eqb name "MYMETA.yml").
  { destruct (EntryData e); [|done]. by intros [= <-]. }
  destruct (String.eqb name "Makefile.PL"); [by intros [= <-]|].
  destruct (String.eqb name "Build.PL"); by intros [= <-].
Qed.

Lemma scanEntries_static entries fin sc sc' :
  scanEntries sc entries fin = Ok sc' ->
  metaJSON sc'
  = fold_left (fun acc e => if topLevel "META.json" e then EntryData e else acc)
              entries (metaJSON sc) /\
  metaYML sc'
  = fold_left (fun acc e => if topLevel "META.yml" e then EntryData e else acc)
              entries (metaYML sc).
Proof.
  revert sc. induction entries as [|e entries IH]; intros sc H; simpl in H.
  - destruct fin; [|done]. by injection H as <-.
  - destruct (scanEntry sc e) as [sc1|] eqn:E; [|done].
    destruct (scanEntry_static _ _ _ E) as [H1 H2].
    destruct (IH _ H) as [G1 G2]. simpl. by rewrite G1, G2, H1, H2.
Qed.

Lemma prereqMaps_insert meta phase x :
  phase ∉ phases ->
  prereqMaps (withPrereqs meta (<[phase := x]> (Prereqs meta))) = prereqMaps meta.
Proof.
  intros H. unfold prereqMaps, phases in *. simpl.
  rewrite !lookup_insert_ne; [done| | |]; intros ->; apply H.
  - do 2 right. by left.
  - right. by left.
  - by left.
Qed.

End ArchiveFacts.

(** X15: [Extract] never runs a command; [ExtractWithConfigure] runs at
    most one, and none when the tarball ships a MYMETA file. *)
Theorem extraction_runs_at_most_one_command w e path :
  (Extractor.Extract w e path).2 = [] /\
  (length (Extractor.ExtractWithConfigure w e path).2 <= 1)%nat /\
  forall entries fin,
    Extractor.openTarball w path = Extractor.Ok (entries, fin) ->
    Extractor.contains entries "MYMETA.json" || Extractor.contains entries "MYMETA.yml"
    = true ->
    (Extractor.ExtractWithConfigure w e path).2 = [].
Proof.
  split; [apply ArchiveFacts.Extract_cmds|].
  split; [apply ArchiveFacts.ExtractWithConfigure_length|].
  intros entries fin Ho Hc. unfold Extractor.ExtractWithConfigure, Extractor.extractMeta.
  rewrite Ho. destruct (Extractor.scanEntries _ entries fin) as [sc|] eqn:Hs; [|done].
  destruct (ConfigureFacts.scanEntries_flags _ _ _ _ Hs) as (_ & _ & H3 & H4).
  simpl in H3, H4.
  destruct (Extractor.mymetaJSON sc); [done|]. destruct (Extractor.mymetaYML sc); [done|].
  simpl in H3, H4. rewrite <- H3, <- H4 in Hc. done.
Qed.

(** X16: the scan of a tarball looks only at entries one directory deep
    that carry one of its six file names; dropping all other entries from
    the archive changes nothing. *)
Theorem scan_ignores_other_entries sc entries fin :
  Extractor.scanEntries sc (List.filter Archive.relevant entries) fin
  = Extractor.scanEntries sc entries fin.
Proof.
  revert sc. induction entries as [|e entries IH]; intros sc; [done|].
  simpl. destruct (Archive.relevant e) eqn:E.
  - simpl. destruct (Extractor.scanEntry sc e); [apply IH|done].
  - rewrite (ArchiveFacts.scanEntry_irrelevant sc e E). apply IH.
Qed.

(** X17: static extraction prefers META.json to META.yml, and of several
    top-level files with the same name the last one in the archive
    counts. *)
Theorem Extract_prefers_last_META_json w e path entries sc :
  Extractor.openTarball w path = Extractor.Ok (entries, Extractor.TarEOF) ->
  Extractor.scanEntries Extractor.emptyScan entries Extractor.TarEOF = Extractor.Ok sc ->
  (Extractor.Extract w e path).1
  = match Archive.lastTop "META.json" entries with
    | Some data => Extractor.parseJSON w data
    | None =>
        match Archive.lastTop "META.yml" entries with
        | Some data => Extractor.parseYAML w data
        | None => Extractor.Err "no META.json or META.yml found in tarball"
        end
    end.
Proof.
  intros Ho Hs. unfold Extractor.Extract, Extractor.extractMeta. rewrite Ho, Hs. simpl.
  destruct (ArchiveFacts.scanEntries_static _ _ _ _ Hs) as [H1 H2].
  unfold Extractor.staticMeta, Archive.lastTop. by rewrite H1, H2.
Qed.

Lemma Extract_prefers_last_META_json_witness :
  (Extractor.Extract Samples.world_static Examples.host "Dist-1.0.tar.gz").1
  = Extractor.Ok (Samples.meta_named "second").
Proof.
  rewrite (Extract_prefers_last_META_json Samples.world_static Examples.host
             "Dist-1.0.tar.gz" Samples.tarball_meta_twice
             (Extractor.mkScan (Some "second") (Some "yaml") None None false false)
             eq_refl ltac:(vm_compute; reflexivity)).
  vm_compute. reflexivity.
Defined.

(** X18: prerequisites filed under a phase other than runtime, configure
    and build (test, develop, ...) never reach the flattened
    requirements. *)
Theorem flatten_ignores_other_phases range meta phase x :
  phase ∉ Extractor.phases ->
  Extractor.Requirements
    (Extractor.flattenPrereqs range
       (Archive.withPrereqs meta (<[phase := x]> (Extractor.Prereqs meta))))
  = Extractor.Requirements (Extractor.flattenPrereqs range meta).
Proof.
  intros H. unfold Extractor.flattenPrereqs, Extractor.sources. simpl.
  by rewrite (ArchiveFacts.prereqMaps_insert meta phase x H).
Qed.

Lemma flatten_ignores_other_phases_witness :
  Extractor.Requirements
    (Extractor.flattenPrereqs map_to_list
       (Archive.withPrereqs Examples.meta_two_phases
          (<["test" := {[ "requires" :=
                            Extractor.DepMap {[ "Test::More" := Extractor.VString "0.98" ]} ]}]>
             (Extractor.Prereqs Examples.meta_two_phases))))
  = Extractor.Requirements (Extractor.flattenPrereqs map_to_list Examples.meta_two_phases).
Proof.
  apply (flatten_ignores_other_phases map_to_list Examples.meta_two_phases "test").
  unfold Extractor.phases. intros H.
  repeat (apply elem_of_cons in H as [H|H]; [discriminate H|]).
  by apply elem_of_nil in H.
Defined.

(** X19: when the tarball ships no MYMETA file and the configure step
    does not produce metadata, [ExtractWithConfigure] returns what
    [Extract] returns. *)
Theorem configure_failure_falls_back w e path entries fin msg :
  Extractor.openTarball w path = Extractor.Ok (entries, fin) ->
  Extractor.contains entries "MYMETA.json" = false ->
  Extractor.contains entries "MYMETA.yml" = false ->
  (Extractor.runConfigure w e path (Extractor.contains entries "Makefile.PL")).1
  = Extractor.Err msg ->
  (Extractor.ExtractWithConfigure w e path).1 = (Extractor.Extract w e path).1.
Proof.
  intros Ho Hj Hy Hr. unfold Extractor.ExtractWithConfigure, Extractor.Extract,
    Extractor.extractMeta. rewrite Ho.
  destruct (Extractor.scanEntries _ entries fin) as [sc|] eqn:Hs; [|done].
  destruct (ConfigureFacts.scanEntries_flags _ _ _ _ Hs) as (H1 & _ & H3 & H4).
  simpl in H1, H3, H4. rewrite Hj in H3. rewrite Hy in H4.
  destruct (Extractor.mymetaJSON sc); [done|]. destruct (Extractor.mymetaYML sc); [done|].
  destruct (Extractor.hasMakefilePL sc || Extractor.hasBuildPL sc); [|done].
  rewrite H1.
  destruct (Extractor.runConfigure w e path _) as [[meta|m] cmds]; [done|done].
Qed.

Lemma configure_failure_falls_back_witness :
  (Extractor.ExtractWithConfigure Samples.world_configure_fails Examples.host
     "Dist-1.0.tar.gz").1
  = (Extractor.Extract Samples.world_configure_fails Examples.host "Dist-1.0.tar.gz").1.
Proof.
  apply (configure_failure_falls_back Samples.world_configure_fails Examples.host
           "Dist-1.0.tar.gz" Examples.tarball_both_scripts Extractor.TarEOF
           "running configure"); vm_compute; reflexivity.
Defined.

(* ===================================================================== *)
(** ** The downloader: what a download leaves behind                     *)
(* ===================================================================== *)

Module DownloadFacts.
Import Downloader.

Lemma tmp_differs (dest : string) : dest <> dest +:+ ".tmp".
Proof.
  intros H. apply (f_equal String.length) in H.
  rewrite StringFacts.slength_app in H. simpl in H. lia.
Qed.

End DownloadFacts.

(** X20: after a download that reports success the destination exists,
    and downloading the same job again is a cache hit: success once more,
    with no further request and no change on disk. *)
Theorem download_success_is_cached w st job st' :
  Downloader.downloadOne w st job = (None, st') ->
  Downloader.statOK w st' (Downloader.DestPath job) = true /\
  Downloader.downloadOne w st' job = (None, st').
Proof.
  intros H.
  assert (Downloader.statOK w st' (Downloader.DestPath job) = true) as Hs.
  { unfold Downloader.downloadOne in H.
    destruct (Downloader.statOK w st _) eqn:E; [by injection H as <-|].
    destruct (negb (Downloader.mkdirAllParent w _)); [done|].
    destruct (Downloader.get w _ _) as [|status body copied]; [done|].
    destruct (negb (status =? 200)); [done|].
    destruct (negb (Downloader.create w _)); [done|].
    destruct (negb copied); [done|].
    destruct (negb (Downloader.rename w _ _)); [done|].
    injection H as <-. unfold Downloader.statOK. simpl.
    by rewrite lookup_insert_eq. }
  split; [done|]. unfold Downloader.downloadOne. by rewrite Hs.
Qed.

Lemma download_success_is_cached_witness :
  Downloader.statOK Examples.server_ok
    (Downloader.mkState {[ "cache/J/JSON-2.0.tar.gz" := "new content" ]}
                        ["https://cpan.metacpan.org/authors/id/J/JSON-2.0.tar.gz"])
    "cache/J/JSON-2.0.tar.gz" = true /\
  Downloader.downloadOne Examples.server_ok
    (Downloader.mkState {[ "cache/J/JSON-2.0.tar.gz" := "new content" ]}
                        ["https://cpan.metacpan.org/authors/id/J/JSON-2.0.tar.gz"])
    (Downloader.mkJob "https://cpan.metacpan.org/authors/id/J/JSON-2.0.tar.gz"
                      "cache/J/JSON-2.0.tar.gz" "cpan")
  = (None,
     Downloader.mkState {[ "cache/J/JSON-2.0.tar.gz" := "new content" ]}
                        ["https://cpan.metacpan.org/authors/id/J/JSON-2.0.tar.gz"]).
Proof.
  apply (download_success_is_cached Examples.server_ok (Downloader.mkState ∅ [])
           (Downloader.mkJob "https://cpan.metacpan.org/authors/id/J/JSON-2.0.tar.gz"
                             "cache/J/JSON-2.0.tar.gz" "cpan")).
  vm_compute. reflexivity.
Defined.

(** X21: a download that reports an error leaves every file other than
    its temporary file as it was, the destination included, and has issued
    at most one request. *)
Theorem download_failure_leaves_files w st job err st' :
  Downloader.downloadOne w st job = (Some err, st') ->
  (forall p, p <> Downloader.DestPath job +:+ ".tmp" ->
             Downloader.files st' !! p = Downloader.files st !! p) /\
  Downloader.files st' !! Downloader.DestPath job = None /\
  (Downloader.requests st' = Downloader.requests st \/
   Downloader.requests st' = Downloader.requests st ++ [Downloader.URL job]).
Proof.
  intros H. unfold Downloader.downloadOne in H.
  destruct (Downloader.statOK w st _) eqn:E; [done|].
  assert (Downloader.files st !! Downloader.DestPath job = None) as Hn.
  { unfold Downloader.statOK in E. by destruct (Downloader.files st !! _). }
  assert (forall p, p <> Downloader.DestPath job +:+ ".tmp" ->
            delete (Downloader.DestPath job +:+ ".tmp") (Downloader.files st) !! p
            = Downloader.files st !! p) as Hd.
  { intros p Hp. by rewrite lookup_delete_ne. }
  pose proof (DownloadFacts.tmp_differs (Downloader.DestPath job)) as Ht.
  destruct (negb (Downloader.mkdirAllParent w _)); [injection H as _ <-; auto|].
  destruct (Downloader.get w _ _) as [|status body copied];
    [injection H as _ <-; simpl; auto|].
  destruct (negb (status =? 200)); [injection H as _ <-; simpl; auto|].
  destruct (negb (Downloader.create w _)); [injection H as _ <-; simpl; auto|].
  destruct (negb copied).
  { injection H as _ <-. simpl. split; [done|]. split; [|auto]. by rewrite Hd. }
  destruct (negb (Downloader.rename w _ _)); [|done].
  injection H as _ <-. simpl. split; [done|]. split; [|auto]. by rewrite Hd.
Qed.

Lemma download_failure_leaves_files_witness :
  let st := Downloader.mkState {[ "cache/kept.tar.gz" := "kept" ]} [] in
  let job := Downloader.mkJob "http://host/gone.tar.gz" "cache/gone.tar.gz" "cpan" in
  let st' := Downloader.mkState {[ "cache/kept.tar.gz" := "kept" ]}
                                ["http://host/gone.tar.gz"] in
  Downloader.downloadOne Samples.server_missing st job
  = (Some "downloading: HTTP status", st') /\
  Downloader.files st' !! Downloader.DestPath job = None /\
  Downloader.files st' !! "cache/kept.tar.gz" = Downloader.files st !! "cache/kept.tar.gz".
Proof.
  intros st job st'.
  assert (Downloader.downloadOne Samples.server_missing st job
          = (Some "downloading: HTTP status", st')) as H by (vm_compute; reflexivity).
  split; [exact H|].
  destruct (download_failure_leaves_files Samples.server_missing st job _ st' H)
    as (Hp & Hd & _).
  split; [exact Hd|]. apply Hp. discriminate.
Defined.

Module CpanfileFacts.
Import StringFacts TrimFacts TrimRuns Cpanfile.

(** **** Runs of a class *)

Lemma span_app p (a b : string) :
  every p a = true ->
  match b with String c _ => p c = false | EmptyString => True end ->
  span p (a +:+ b) = (a, b).
Proof.
  intros Ha Hb. induction a as [|c a IH].
  - rewrite sapp_nil_l. destruct b as [|d b]; [done|]. simpl. by rewrite Hb.
  - simpl in Ha. apply andb_true_iff in Ha as [Hc Ha].
    rewrite sapp_cons. simpl. by rewrite Hc, (IH Ha).
Qed.

Lemma span_inv p (s a b : string) :
  span p s = (a, b) -> s = a +:+ b /\ every p a = true.
Proof.
  revert a b. induction s as [|c s IH]; intros a b H; simpl in H.
  - by injection H as <- <-.
  - destruct (p c) eqn:E; [|by injection H as <- <-].
    destruct (span p s) as [a' b']. injection H as <- <-.
    destruct (IH a' b' eq_refl) as [-> Ha]. split; [done|]. simpl. by rewrite E.
Qed.

Lemma star_inv p (s : string) : exists ws, s = ws +:+ star p s /\ every p ws = true.
Proof.
  unfold star. destruct (span p s) as [a b] eqn:E.
  exists a. by apply span_inv.
Qed.

Lemma star_app p (a b : string) :
  every p a = true ->
  match b with String c _ => p c = false | EmptyString => True end ->
  star p (a +:+ b) = b.
Proof. intros Ha Hb. unfold star. by rewrite span_app. Qed.

Lemma lit_inv l (s r : string) : lit l s = Some r -> s = l +:+ r.
Proof.
  unfold lit. destruct (HasPrefix s l) eqn:E; [|done]. intros [= <-].
  apply HasPrefix_spec in E as [r ->]. by rewrite sliceFrom_app.
Qed.

Lemma lit_app l (r : string) : lit l (l +:+ r) = Some r.
Proof. unfold lit. by rewrite HasPrefix_app, sliceFrom_app. Qed.

(** **** Lines that start with a word are not skipped *)

Lemma reSpace_ascii c : reSpace c = true -> asciiSpace c = true.
Proof.
  unfold reSpace, asciiSpace. intros H.
  bool_cases; match goal with E : byte c = _ |- _ => rewrite E end; reflexivity.
Qed.

Lemma trimLoop_ascii_run fuel (ws x : string) :
  (String.length ws <= fuel)%nat -> every reSpace ws = true -> leadingSpace x = None ->
  trimLoop leadingSpace fuel (ws +:+ x) = x.
Proof.
  revert fuel. induction ws as [|c ws IH]; intros fuel Hf Hw Hx.
  - rewrite sapp_nil_l. by apply trimLoop_stuck.
  - simpl in Hw. apply andb_true_iff in Hw as [Hc Hw]. apply reSpace_ascii in Hc.
    destruct fuel as [|fuel]; [simpl in Hf; lia|].
    rewrite sapp_cons, trimLoop_S.
    assert (leadingSpace (String c (ws +:+ x)) = Some (ws +:+ x)) as ->.
    { unfold leadingSpace. by rewrite Hc. }
    apply IH; [simpl in Hf; lia|done|done].
Qed.

(** A line whose first byte after the indentation is an ASCII byte
    other than white space and [#] passes the guard of the loop. *)
Lemma word_not_skipped (ws : string) c (r : string) :
  every reSpace ws = true -> byte c < 128 -> asciiSpace c = false ->
  c <> "#"%char ->
  skipped (ws +:+ String c r) = false.
Proof.
  intros Hw Hc Hs Hh. unfold skipped, TrimSpace.
  assert (leadingSpace (String c r) = None) as Hl by (by apply leadingSpace_ascii).
  assert (TrimLeftSpace (ws +:+ String c r) = String c r) as ->.
  { unfold TrimLeftSpace. apply trimLoop_ascii_run; [|done|done].
    rewrite slength_app. lia. }
  destruct (TrimRightSpace_run (String c r)) as (w & Hrun & E).
  destruct (TrimRightSpace (String c r)) as [|d t] eqn:Et.
  - exfalso. rewrite sapp_nil_l in E. subst w.
    inversion Hrun as [|q w' Hq Hw' Eq]. destruct Hq as [Hlead _ _].
    pose proof (Hlead w') as Hl'. rewrite Eq in Hl'. by rewrite Hl in Hl'.
  - rewrite sapp_cons in E. injection E as <- _.
    change (String.eqb (String c t) "") with false.
    rewrite PathFacts.HasPrefix_cons. by destruct (Ascii.eqb_spec "#" c) as [<-|_].
Qed.

(** **** What a match of each expression says about the line *)

Lemma requiresRe_start line x :
  requiresRe line = Some x ->
  exists ws r, line = ws +:+ "requires" +:+ r /\ every reSpace ws = true.
Proof.
  unfold requiresRe. intros H.
  destruct (lit "requires" (star reSpace line)) as [s|] eqn:E; [|done].
  apply lit_inv in E. destruct (star_inv reSpace line) as (ws & Hl & Hw).
  exists ws, s. by rewrite <- E.
Qed.

Lemma onBlockRe_start line x :
  onBlockRe line = Some x ->
  exists ws r, line = ws +:+ "on" +:+ r /\ every reSpace ws = true.
Proof.
  unfold onBlockRe. intros H.
  destruct (lit "on" (star reSpace line)) as [s|] eqn:E; [|done].
  apply lit_inv in E. destruct (star_inv reSpace line) as (ws & Hl & Hw).
  exists ws, s. by rewrite <- E.
Qed.

Lemma closeRe_start line :
  closeRe line = true ->
  exists ws r, line = ws +:+ "}" +:+ r /\ every reSpace ws = true.
Proof.
  unfold closeRe. intros H. apply HasPrefix_spec in H as [r E].
  destruct (star_inv reSpace line) as (ws & Hl & Hw).
  exists ws, r. by rewrite <- E.
Qed.

Lemma star_word (ws : string) c (r : string) :
  every reSpace ws = true -> reSpace c = false ->
  star reSpace (ws +:+ String c r) = String c r.
Proof. intros Hw Hc. by apply star_app. Qed.

(** A [requires] statement is no comment, opens no block and closes
    none. *)
Lemma requirementOf_line line req :
  requirementOf line = Some req ->
  skipped line = false /\ onBlockRe line = None /\ closeRe line = false.
Proof.
  unfold requirementOf. destruct (requiresRe line) as [[m v]|] eqn:E; [|done].
  intros _. apply requiresRe_start in E as (ws & r & -> & Hw).
  change ("requires" +:+ r) with (String "r" ("equires" +:+ r)).
  split; [by apply word_not_skipped|].
  unfold onBlockRe, closeRe. by rewrite star_word.
Qed.

Lemma onBlockRe_not_skipped line x : onBlockRe line = Some x -> skipped line = false.
Proof.
  intros (ws & r & -> & Hw)%onBlockRe_start.
  change ("on" +:+ r) with (String "o" ("n" +:+ r)). by apply word_not_skipped.
Qed.

Lemma closeRe_line line :
  closeRe line = true -> skipped line = false /\ onBlockRe line = None.
Proof.
  intros (ws & r & -> & Hw)%closeRe_start.
  change ("}" +:+ r) with (String "}" r).
  split; [by apply word_not_skipped|].
  unfold onBlockRe. by rewrite star_word.
Qed.

(** **** A statement in its usual spelling *)

Lemma oneQuote_cons q (r : string) :
  reQuote q = true -> oneQuote (String q r) = Some r.
Proof. intros H. unfold oneQuote. by rewrite H. Qed.

Lemma quoted_app p q1 q2 (M rest : string) :
  reQuote q1 = true -> reQuote q2 = true -> M <> "" -> every p M = true ->
  p q2 = false ->
  quoted p (String q1 (M +:+ String q2 rest)) = Some (M, rest).
Proof.
  intros H1 H2 Hne HM Hq. unfold quoted. rewrite oneQuote_cons by done. simpl.
  unfold plus. rewrite span_app by done.
  destruct M as [|c M]; [done|]. simpl. by rewrite H2.
Qed.

Ltac bind_step :=
  match goal with
  | |- context [Some ?x ≫= ?f] => change (Some x ≫= f) with (f x); cbv beta iota
  end.

Lemma requiresRe_versioned (ws M V : string) :
  every reSpace ws = true -> M <> "" -> every notQuote M = true ->
  V <> "" -> every notQuote V = true ->
  requiresRe (ws +:+ "requires '" +:+ M +:+ "', '" +:+ V +:+ "';") = Some (M, V).
Proof.
  intros Hw HM1 HM2 HV1 HV2. unfold requiresRe.
  change ("requires '" +:+ M +:+ "', '" +:+ V +:+ "';")
    with (String "r" ("equires" +:+ " '" +:+ M +:+ "', '" +:+ V +:+ "';")).
  rewrite star_word by done.
  change (String "r" ("equires" +:+ " '" +:+ M +:+ "', '" +:+ V +:+ "';"))
    with ("requires" +:+ " '" +:+ M +:+ "', '" +:+ V +:+ "';").
  rewrite lit_app. bind_step.
  change (plus reSpace (" '" +:+ M +:+ "', '" +:+ V +:+ "';"))
    with (Some (" ", String "'" (M +:+ String "'" (", '" +:+ V +:+ "';")))).
  bind_step. rewrite quoted_app by done. bind_step.
  change (star reSpace (", '" +:+ V +:+ "';")) with ("," +:+ " '" +:+ V +:+ "';").
  rewrite lit_app. bind_step.
  change (star reSpace (" '" +:+ V +:+ "';")) with (String "'" (V +:+ String "'" ";")).
  by rewrite quoted_app.
Qed.

Lemma requiresRe_bare (ws M : string) :
  every reSpace ws = true -> M <> "" -> every notQuote M = true ->
  requiresRe (ws +:+ "requires '" +:+ M +:+ "';") = Some (M, "").
Proof.
  intros Hw HM1 HM2. unfold requiresRe.
  change ("requires '" +:+ M +:+ "';")
    with (String "r" ("equires" +:+ " '" +:+ M +:+ "';")).
  rewrite star_word by done.
  change (String "r" ("equires" +:+ " '" +:+ M +:+ "';"))
    with ("requires" +:+ " '" +:+ M +:+ "';").
  rewrite lit_app. bind_step.
  change (plus reSpace (" '" +:+ M +:+ "';"))
    with (Some (" ", String "'" (M +:+ String "'" ";"))).
  bind_step. by rewrite quoted_app.
Qed.

(** What a line that states a requirement does to the state. *)
Lemma parseLine_requirement st line req :
  requirementOf line = Some req ->
  parseLine st line
  = mkPstate (<[currentPhase st := reqsOf (result st) (currentPhase st) ++ [req]]>
                (result st))
             (currentPhase st) (inBlock st).
Proof.
  intros H. destruct (requirementOf_line _ _ H) as (Hs & Ho & Hc).
  unfold parseLine. by rewrite Hs, Ho, Hc, andb_false_r, H.
Qed.

(** **** The loop over lines that neither open nor close a block *)

Lemma reqsOf_insert (m : gmap string (list VersionReq)) ph l q :
  reqsOf (<[ph := l]> m) q = if String.eqb q ph then l else reqsOf m q.
Proof.
  unfold reqsOf. destruct (String.eqb_spec q ph) as [->|Hne].
  - by rewrite lookup_insert_eq.
  - by rewrite lookup_insert_ne.
Qed.

Lemma parseLine_plain st line :
  plain line = true ->
  currentPhase (parseLine st line) = currentPhase st /\
  inBlock (parseLine st line) = inBlock st /\
  forall q, reqsOf (result (parseLine st line)) q
            = reqsOf (result st) q
              ++ (if String.eqb q (currentPhase st) then stated [line] else []).
Proof.
  unfold plain, stated. intros Hp. simpl.
  destruct (onBlockRe line) eqn:Eo; [done|]. apply negb_true_iff in Hp.
  unfold parseLine. rewrite Eo, Hp, andb_false_r.
  destruct (requirementOf line) as [req|] eqn:Er.
  - destruct (requirementOf_line _ _ Er) as (-> & _ & _). simpl.
    repeat split. intros q. rewrite reqsOf_insert.
    destruct (String.eqb_spec q (currentPhase st)) as [->|_]; [done|].
    by rewrite app_nil_r.
  - assert ((if skipped line then st else st) = st) as -> by (by destruct (skipped line)).
    repeat split. intros q. destruct (String.eqb q _); by rewrite app_nil_r.
Qed.

Lemma stated_app (a b : list string) : stated (a ++ b) = stated a ++ stated b.
Proof. unfold stated. apply omap_app. Qed.

Lemma parseLines_plain lines st :
  Forall (fun l => plain l = true) lines ->
  currentPhase (fold_left parseLine lines st) = currentPhase st /\
  inBlock (fold_left parseLine lines st) = inBlock st /\
  forall q, reqsOf (result (fold_left parseLine lines st)) q
            = reqsOf (result st) q
              ++ (if String.eqb q (currentPhase st) then stated lines else []).
Proof.
  intros H. revert st. induction H as [|l lines Hl _ IH]; intros st.
  - simpl. repeat split. intros q. destruct (String.eqb q _); by rewrite app_nil_r.
  - simpl fold_left.
    destruct (parseLine_plain st l Hl) as (H1 & H2 & H3).
    destruct (IH (parseLine st l)) as (G1 & G2 & G3).
    rewrite G1, G2, H1, H2. repeat split. intros q. rewrite G3, H3, H1.
    change (l :: lines) with ([l] ++ lines). rewrite stated_app.
    destruct (String.eqb q (currentPhase st)); by rewrite <- app_assoc.
Qed.

(** **** All requirements, whatever the phase *)

Lemma allReqs_concat (order : list (string * list VersionReq)) :
  Main.allReqs order = concat (map snd order).
Proof.
  unfold Main.allReqs.
  assert (forall acc, fold_left (fun acc pr => acc ++ pr.2) order acc
                      = acc ++ concat (map snd order)) as H.
  { induction order as [|[ph l] order IH]; intros acc; simpl.
    - by rewrite app_nil_r.
    - by rewrite IH, app_assoc. }
  apply (H []).
Qed.

Lemma total_append (m : gmap string (list VersionReq)) ph req :
  total (<[ph := reqsOf m ph ++ [req]]> m) ≡ₚ total m ++ [req].
Proof.
  unfold total, reqsOf. destruct (m !! ph) as [l|] eqn:E; simpl.
  - rewrite <- (insert_delete_eq m ph).
    rewrite map_to_list_insert by apply lookup_delete_eq.
    rewrite <- (map_to_list_delete m ph l E). simpl.
    rewrite <- !app_assoc. apply Permutation_app_head, Permutation_app_comm.
  - rewrite map_to_list_insert by done. simpl. apply Permutation_cons_append.
Qed.

Lemma parseLine_total st line :
  total (result (parseLine st line)) ≡ₚ total (result st) ++ stated [line].
Proof.
  unfold stated. simpl. unfold parseLine.
  destruct (requirementOf line) as [req|] eqn:Er.
  - destruct (requirementOf_line _ _ Er) as (-> & -> & ->).
    rewrite andb_false_r. simpl. apply total_append.
  - rewrite app_nil_r. destruct (skipped line); [done|].
    destruct (onBlockRe line); [done|]. by destruct (_ && _).
Qed.

Lemma parseLines_total lines st :
  total (result (fold_left parseLine lines st)) ≡ₚ total (result st) ++ stated lines.
Proof.
  revert st. induction lines as [|l lines IH]; intros st.
  - unfold stated. simpl. by rewrite app_nil_r.
  - simpl fold_left. rewrite IH, parseLine_total.
    change (l :: lines) with ([l] ++ lines). rewrite stated_app. by rewrite app_assoc.
Qed.

End CpanfileFacts.


(* ===================================================================== *)
(** ** The cpanfile parser: statements, blocks and the merged list       *)
(* ===================================================================== *)

(** X22: a [requires] statement in its usual spelling, with any
    indentation, adds the requirement it names to the end of the list of
    the current phase; without a version the requirement is on ["0"]. *)
Theorem requires_statement_is_recorded st (ws M V : string) :
  Cpanfile.every Cpanfile.reSpace ws = true ->
  M <> "" -> Cpanfile.every Cpanfile.notQuote M = true ->
  V <> "" -> Cpanfile.every Cpanfile.notQuote V = true ->
  let versioned := ws +:+ "requires '" +:+ M +:+ "', '" +:+ V +:+ "';" in
  let bare := ws +:+ "requires '" +:+ M +:+ "';" in
  Cpanfile.reqsOf (Cpanfile.result (Cpanfile.parseLine st versioned))
                  (Cpanfile.currentPhase st)
  = Cpanfile.reqsOf (Cpanfile.result st) (Cpanfile.currentPhase st) ++ [mkReq M V] /\
  Cpanfile.reqsOf (Cpanfile.result (Cpanfile.parseLine st bare))
                  (Cpanfile.currentPhase st)
  = Cpanfile.reqsOf (Cpanfile.result st) (Cpanfile.currentPhase st) ++ [mkReq M "0"].
Proof.
  intros Hw HM1 HM2 HV1 HV2 versioned bare.
  assert (Cpanfile.requirementOf versioned = Some (mkReq M V)) as E1.
  { unfold Cpanfile.requirementOf, versioned.
    rewrite CpanfileFacts.requiresRe_versioned by done.
    by destruct V. }
  assert (Cpanfile.requirementOf bare = Some (mkReq M "0")) as E2.
  { unfold Cpanfile.requirementOf, bare.
    by rewrite CpanfileFacts.requiresRe_bare. }
  rewrite (CpanfileFacts.parseLine_requirement st versioned _ E1).
  rewrite (CpanfileFacts.parseLine_requirement st bare _ E2). simpl.
  rewrite !CpanfileFacts.reqsOf_insert, String.eqb_refl. done.
Qed.

Lemma requires_statement_is_recorded_witness :
  let st := Cpanfile.mkPstate ∅ Cpanfile.PhaseTest true in
  Cpanfile.reqsOf
    (Cpanfile.result
       (Cpanfile.parseLine st
          ("    " +:+ "requires '" +:+ "Test::More" +:+ "', '" +:+ "0.98" +:+ "';")))
    (Cpanfile.currentPhase st)
  = Cpanfile.reqsOf (Cpanfile.result st) (Cpanfile.currentPhase st)
    ++ [mkReq "Test::More" "0.98"] /\
  Cpanfile.reqsOf
    (Cpanfile.result
       (Cpanfile.parseLine st ("    " +:+ "requires '" +:+ "Test::More" +:+ "';")))
    (Cpanfile.currentPhase st)
  = Cpanfile.reqsOf (Cpanfile.result st) (Cpanfile.currentPhase st)
    ++ [mkReq "Test::More" "0"].
Proof.
  intros st.
  apply (requires_statement_is_recorded st "    " "Test::More" "0.98");
    vm_compute; (reflexivity || discriminate).
Defined.

(** X23: the list of requirements [runSnapshot] hands to the resolver
    is, up to order, the list [stated lines]: one requirement for every
    line that [requiresRe] matches, that is a line that starts, after
    white space, with a [requires] statement; whatever block the line
    stands in, and in whatever order [range] visits the phases.  The
    list is empty exactly when [requiresRe] matches no line.  A
    [requires] that follows other text on its line is not read (see
    [one_line_block_states_nothing]). *)
Theorem allReqs_holds_every_statement lines order :
  order ≡ₚ map_to_list (Cpanfile.parseLines lines) ->
  Main.allReqs order ≡ₚ Cpanfile.stated lines /\
  (Main.allReqs order = [] <-> Cpanfile.stated lines = []).
Proof.
  intros Ho.
  assert (Main.allReqs order ≡ₚ Cpanfile.stated lines) as Hp.
  { rewrite CpanfileFacts.allReqs_concat, Ho. unfold Cpanfile.parseLines.
    etrans; [apply CpanfileFacts.parseLines_total|].
    unfold Cpanfile.total, Cpanfile.NewParseResult. simpl.
    by rewrite map_to_list_empty. }
  split; [done|]. split; intros E.
  - rewrite E in Hp. by apply Permutation_nil_l in Hp.
  - rewrite E in Hp. by apply Permutation_nil_r in Hp.
Qed.

Lemma allReqs_holds_every_statement_witness :
  Main.allReqs (map_to_list (Cpanfile.parseLines Samples.cpanfile_lines))
  ≡ₚ [mkReq "JSON" "2.0"; mkReq "Test::More" "0.98"; mkReq "Moo" "0"].
Proof.
  apply (allReqs_holds_every_statement Samples.cpanfile_lines
           (map_to_list (Cpanfile.parseLines Samples.cpanfile_lines))).
  reflexivity.
Defined.

(** A block written on one line: the line matches [onBlockRe], the loop
    goes on to the next line, and the [requires] in it is not read. *)
Example one_line_block_states_nothing :
  let lines := ["on 'test' => sub { requires 'Test::More', '0.98'; };"] in
  Cpanfile.stated lines = [] /\
  Main.allReqs (map_to_list (Cpanfile.parseLines lines)) = [].
Proof. split; vm_compute; reflexivity. Qed.

(** X24: requirements stated inside a block [on 'P' => sub { ... }] are
    recorded under the phase [parsePhase P], those before and after the
    block under runtime, each list in file order. *)
Theorem block_sets_the_phase pre opener P body closer post q :
  Forall (fun l => Cpanfile.plain l = true) pre ->
  Forall (fun l => Cpanfile.plain l = true) body ->
  Forall (fun l => Cpanfile.plain l = true) post ->
  Cpanfile.onBlockRe opener = Some P ->
  Cpanfile.closeRe closer = true ->
  Cpanfile.reqsOf
    (Cpanfile.parseLines (pre ++ opener :: body ++ closer :: post)) q
  = (if String.eqb q Cpanfile.PhaseRuntime then Cpanfile.stated pre else [])
    ++ (if String.eqb q (Cpanfile.parsePhase P) then Cpanfile.stated body else [])
    ++ (if String.eqb q Cpanfile.PhaseRuntime then Cpanfile.stated post else []).
Proof.
  intros Hpre Hbody Hpost Ho Hc. unfold Cpanfile.parseLines.
  rewrite fold_left_app. cbn [fold_left].
  set (st0 := Cpanfile.mkPstate Cpanfile.NewParseResult Cpanfile.PhaseRuntime false).
  destruct (CpanfileFacts.parseLines_plain pre st0 Hpre) as (A1 & A2 & A3).
  set (st1 := fold_left Cpanfile.parseLine pre st0) in *.
  assert (Cpanfile.parseLine st1 opener
          = Cpanfile.mkPstate (Cpanfile.result st1) (Cpanfile.parsePhase P) true) as ->.
  { unfold Cpanfile.parseLine.
    by rewrite (CpanfileFacts.onBlockRe_not_skipped _ _ Ho), Ho. }
  rewrite fold_left_app. cbn [fold_left].
  set (st2 := Cpanfile.mkPstate (Cpanfile.result st1) (Cpanfile.parsePhase P) true).
  destruct (CpanfileFacts.parseLines_plain body st2 Hbody) as (B1 & B2 & B3).
  set (st3 := fold_left Cpanfile.parseLine body st2) in *.
  assert (Cpanfile.parseLine st3 closer
          = Cpanfile.mkPstate (Cpanfile.result st3) Cpanfile.PhaseRuntime false) as ->.
  { destruct (CpanfileFacts.closeRe_line _ Hc) as [Hs Hn].
    unfold Cpanfile.parseLine. by rewrite Hs, Hn, B2, Hc. }
  set (st4 := Cpanfile.mkPstate (Cpanfile.result st3) Cpanfile.PhaseRuntime false).
  destruct (CpanfileFacts.parseLines_plain post st4 Hpost) as (C1 & C2 & C3).
  rewrite C3. simpl. rewrite B3. simpl. rewrite A3. simpl.
  unfold Cpanfile.reqsOf at 1. unfold Cpanfile.NewParseResult.
  rewrite lookup_empty. simpl. by rewrite <- !app_assoc.
Qed.

Lemma block_sets_the_phase_witness :
  Cpanfile.reqsOf
    (Cpanfile.parseLines
       (["# runtime"; "requires 'JSON', '2.0';"; ""]
        ++ "on 'test' => sub {"
        :: ["    requires 'Test::More', '0.98';"] ++ "};" :: ["requires 'Moo';"]))
    "test"
  = (if String.eqb "test" Cpanfile.PhaseRuntime
     then Cpanfile.stated ["# runtime"; "requires 'JSON', '2.0';"; ""] else [])
    ++ (if String.eqb "test" (Cpanfile.parsePhase "test")
        then Cpanfile.stated ["    requires 'Test::More', '0.98';"] else [])
    ++ (if String.eqb "test" Cpanfile.PhaseRuntime
        then Cpanfile.stated ["requires 'Moo';"] else []).
Proof.
  apply (block_sets_the_phase ["# runtime"; "requires 'JSON', '2.0';"; ""]
           "on 'test' => sub {" "test" ["    requires 'Test::More', '0.98';"]
           "};" ["requires 'Moo';"] "test");
    try (repeat constructor; vm_compute; reflexivity); vm_compute; reflexivity.
Defined.

Module IndexFacts.
Import StringFacts Index.

(** **** Fields *)

Lemma noAsciiSpace_app (a b : string) :
  noAsciiSpace (a +:+ b) = noAsciiSpace a && noAsciiSpace b.
Proof.
  induction a as [|c a IH]; [done|]. rewrite sapp_cons. simpl.
  by rewrite IH, andb_assoc.
Qed.

Lemma noAsciiSpace_rev (s : string) : noAsciiSpace (String.rev s) = noAsciiSpace s.
Proof.
  induction s as [|c s IH]; [done|].
  rewrite srev_cons, noAsciiSpace_app, IH. simpl.
  rewrite andb_true_r. apply andb_comm.
Qed.

Lemma flushField_ok cur rest :
  noAsciiSpace cur = true -> Forall (fun f => fieldOK f = true) rest ->
  Forall (fun f => fieldOK f = true) (flushField cur rest).
Proof.
  intros Hc Hr. unfold flushField. destruct cur as [|c cur]; [done|].
  constructor; [|done]. unfold fieldOK. rewrite noAsciiSpace_rev, Hc, andb_true_r.
  destruct (String.rev (String c cur)) eqn:E; [|done].
  apply (f_equal String.length) in E. rewrite slength_rev in E. done.
Qed.

Lemma leadingSpace_none_ascii c (r : string) :
  leadingSpace (String c r) = None -> asciiSpace c = false.
Proof. unfold leadingSpace. by destruct (asciiSpace c). Qed.

Lemma fieldsLoop_ok fuel cur (s : string) :
  noAsciiSpace cur = true ->
  Forall (fun f => fieldOK f = true) (fieldsLoop fuel cur s).
Proof.
  revert cur s. induction fuel as [|fuel IH]; intros cur s Hc; simpl.
  - by apply flushField_ok.
  - destruct s as [|c r]; [by apply flushField_ok|].
    destruct (leadingSpace (String c r)) as [r'|] eqn:E.
    + apply flushField_ok; [done|]. by apply IH.
    + apply IH. simpl. by rewrite (leadingSpace_none_ascii c r E).
Qed.

(** Every field is non-empty and free of ASCII white space. *)
Lemma Fields_ok (s : string) : Forall (fun f => fieldOK f = true) (Fields s).
Proof. by apply fieldsLoop_ok. Qed.

Lemma entryOf_ok line e :
  entryOf line = Some e ->
  fieldOK (Resolver.IndexModule e) = true /\
  fieldOK (Resolver.IndexVersion e) = true /\
  fieldOK (Resolver.IndexPathname e) = true.
Proof.
  unfold entryOf. pose proof (Fields_ok line) as H.
  destruct (Fields line) as [|m [|v [|p rest]]]; try done.
  intros [= <-]. simpl.
  apply Forall_cons in H as [Hm H]. apply Forall_cons in H as [Hv H].
  by apply Forall_cons in H as [Hp _].
Qed.

(** **** The table *)

Lemma cacheLine_ok st line : tableOK (table st) -> tableOK (table (cacheLine st line)).
Proof.
  intros H. unfold cacheLine. destruct (inHeader st).
  - by destruct (String.eqb line "").
  - destruct (entryOf line) as [e|] eqn:E; [|done]. simpl.
    intros k e' Hk. apply lookup_insert_Some in Hk as [[<- <-]|[_ Hk]].
    + split; [done|]. by apply (entryOf_ok line).
    + by apply H.
Qed.

Lemma cacheLines_ok lines st :
  tableOK (table st) -> tableOK (table (fold_left cacheLine lines st)).
Proof.
  revert st. induction lines as [|l lines IH]; intros st H; [done|].
  simpl. by apply IH, cacheLine_ok.
Qed.

(** The header: everything up to the first empty line. *)
Lemma cacheLines_header hdr rest st :
  Forall (fun l => l <> "") hdr -> inHeader st = true ->
  fold_left cacheLine (hdr ++ rest) st = fold_left cacheLine rest st.
Proof.
  intros H. revert st. induction H as [|l hdr Hl _ IH]; intros st Hst; [done|].
  simpl. rewrite IH.
  - f_equal. unfold cacheLine. rewrite Hst.
    by destruct (String.eqb_spec l "").
  - unfold cacheLine. rewrite Hst. by destruct (String.eqb_spec l "").
Qed.

Lemma cacheLine_body tbl line :
  cacheLine (mkCstate tbl false) line
  = mkCstate (match entryOf line with
              | Some e => <[Resolver.IndexModule e := e]> tbl
              | None => tbl
              end) false.
Proof. unfold cacheLine. simpl. by destruct (entryOf line). Qed.

Lemma last_map_Some {A} (y : A) (F : list A) d :
  exists z, List.last (map Some (y :: F)) d = Some z.
Proof.
  revert y. induction F as [|z F IH]; intros y; [by exists y|].
  destruct (IH z) as [z' E]. exists z'. exact E.
Qed.

Lemma lastWhere_cons {A} (p : A -> bool) x (l : list A) :
  lastWhere p (x :: l)
  = match lastWhere p l with
    | Some y => Some y
    | None => if p x then Some x else None
    end.
Proof.
  unfold lastWhere. simpl List.filter. destruct (p x).
  - destruct (List.filter p l) as [|y F]; [done|].
    change (List.last (map Some (x :: y :: F)) None)
      with (List.last (map Some (y :: F)) None).
    by destruct (last_map_Some y F None) as [z ->].
  - by destruct (List.last _ _).
Qed.

(** After the header, a module is bound to the last entry that names
    it. *)
Lemma cacheLines_body body tbl M :
  table (fold_left cacheLine body (mkCstate tbl false)) !! M
  = match lastWhere (isModule M) (omap entryOf body) with
    | Some e => Some e
    | None => tbl !! M
    end.
Proof.
  revert tbl. induction body as [|l body IH]; intros tbl; [done|].
  simpl fold_left. rewrite cacheLine_body, IH.
  assert (omap entryOf (l :: body)
          = match entryOf l with
            | Some e => e :: omap entryOf body
            | None => omap entryOf body
            end) as -> by reflexivity.
  destruct (entryOf l) as [e|] eqn:E; [|done].
  rewrite lastWhere_cons.
  destruct (lastWhere (isModule M) (omap entryOf body)); [done|].
  unfold isModule. destruct (String.eqb_spec (Resolver.IndexModule e) M) as [<-|Hne].
  - by rewrite lookup_insert_eq.
  - by rewrite lookup_insert_ne.
Qed.

End IndexFacts.

(* ===================================================================== *)
(** ** The CPAN index: what [parseCache] stores                          *)
(* ===================================================================== *)

(** X25: every entry [parseCache] puts into a new index is filed under
    its own module name, and its module, version and pathname are
    non-empty and free of white space. *)
Theorem index_entries_are_fields mirror file idx' err k e :
  Index.parseCache (Index.NewCPANIndex mirror) file = (idx', err) ->
  Index.Lookup idx' k = Some e ->
  Resolver.IndexModule e = k /\
  Index.fieldOK (Resolver.IndexModule e) = true /\
  Index.fieldOK (Resolver.IndexVersion e) = true /\
  Index.fieldOK (Resolver.IndexPathname e) = true.
Proof.
  unfold Index.parseCache, Index.Lookup. destruct file as [content|].
  - destruct (Index.scanPrefix "" content) as [lines tooLong]. intros [= <- _]. simpl.
    apply (IndexFacts.cacheLines_ok lines). simpl.
    intros k' e' H. by rewrite lookup_empty in H.
  - intros [= <- _]. simpl. by rewrite lookup_empty.
Qed.

Lemma index_entries_are_fields_witness :
  Resolver.IndexModule
    (Resolver.mkCPANIndex "Moo" "2.005005" "H/HA/HAARG/Moo-2.005005.tar.gz") = "Moo" /\
  Index.fieldOK "Moo" = true /\ Index.fieldOK "2.005005" = true /\
  Index.fieldOK "H/HA/HAARG/Moo-2.005005.tar.gz" = true.
Proof.
  apply (index_entries_are_fields "https://cpan.metacpan.org/" (Some Samples.index_text)
           (Index.parseCache (Index.NewCPANIndex "https://cpan.metacpan.org/")
              (Some Samples.index_text)).1 None "Moo"
           (Resolver.mkCPANIndex "Moo" "2.005005" "H/HA/HAARG/Moo-2.005005.tar.gz"));
    vm_compute; reflexivity.
Defined.

(** X26: the table starts after the first empty line of the file, and a
    module named by several lines is bound to the last of them; lines
    with fewer than three fields are passed over. *)
Theorem index_lookup_is_last_entry mirror content hdr body M :
  Index.scanPrefix "" content = (hdr ++ "" :: body, false) ->
  Forall (fun l => l <> "") hdr ->
  Index.parseCache (Index.NewCPANIndex mirror) (Some content)
  = (Index.mkIndex (TrimSuffix mirror "/") (Index.cacheLines ∅ (hdr ++ "" :: body)), None) /\
  Index.Lookup (Index.parseCache (Index.NewCPANIndex mirror) (Some content)).1 M
  = Index.lastWhere (Index.isModule M) (omap Index.entryOf body).
Proof.
  intros Hs Hh. unfold Index.parseCache. rewrite Hs. split; [done|].
  unfold Index.Lookup, Index.cacheLines. cbn [fst Index.modules].
  rewrite IndexFacts.cacheLines_header by done.
  change (fold_left Index.cacheLine ("" :: body)
            (Index.mkCstate (Index.modules (Index.NewCPANIndex mirror)) true))
    with (fold_left Index.cacheLine body (Index.mkCstate ∅ false)).
  rewrite IndexFacts.cacheLines_body.
  destruct (Index.lastWhere _ _); [done|apply lookup_empty].
Qed.

Lemma index_lookup_is_last_entry_witness :
  Index.Lookup (Index.parseCache (Index.NewCPANIndex "https://cpan.metacpan.org/")
                  (Some Samples.index_text)).1 "Module::With::Undef"
  = Some (Resolver.mkCPANIndex "Module::With::Undef" "undef"
            "A/AU/AUTHOR/Module-With-Undef-1.0.tar.gz").
Proof.
  etrans.
  - apply (index_lookup_is_last_entry "https://cpan.metacpan.org/" Samples.index_text
             (firstn 3 Samples.index_lines) (skipn 4 Samples.index_lines)
             "Module::With::Undef").
    + vm_compute. reflexivity.
    + repeat constructor; discriminate.
  - vm_compute. reflexivity.
Defined.

(** X27: an index file without an empty line has no table: the index
    stays as it was. *)
Theorem index_without_separator_is_empty mirror content lines :
  Index.scanPrefix "" content = (lines, false) ->
  Forall (fun l => l <> "") lines ->
  Index.parseCache (Index.NewCPANIndex mirror) (Some content)
  = (Index.NewCPANIndex mirror, None).
Proof.
  intros Hs Hh. unfold Index.parseCache. rewrite Hs. unfold Index.cacheLines.
  rewrite <- (app_nil_r lines).
  rewrite IndexFacts.cacheLines_header by done. reflexivity.
Qed.

Lemma index_without_separator_is_empty_witness :
  Index.parseCache (Index.NewCPANIndex "https://cpan.metacpan.org")
    (Some (Snapshot.unlines ["JSON 2.0 M/MA/MAKAMAKA/JSON-2.0.tar.gz"]))
  = (Index.NewCPANIndex "https://cpan.metacpan.org", None).
Proof.
  apply (index_without_separator_is_empty "https://cpan.metacpan.org" _
           ["JSON 2.0 M/MA/MAKAMAKA/JSON-2.0.tar.gz"]).
  - vm_compute. reflexivity.
  - repeat constructor. discriminate.
Defined.

Module DedupFacts.
Import Main.

Lemma fold_dedupStep l seen acc :
  (fold_left dedupStep l (seen, acc)).2 = acc ++ kept seen l.
Proof.
  revert seen acc. induction l as [|d l IH]; intros seen acc; simpl.
  - by rewrite app_nil_r.
  - unfold dedupStep at 2. simpl. destruct (bool_decide (Pathname d ∈ seen)).
    + apply IH.
    + rewrite IH. by rewrite <- app_assoc.
Qed.

Lemma uniqueDists_kept l : uniqueDists l = kept ∅ l.
Proof. unfold uniqueDists. by rewrite fold_dedupStep. Qed.

Lemma kept_unseen seen l d :
  d ∈ kept seen l -> (Pathname d ∉ seen) /\ (d ∈ l).
Proof.
  revert seen. induction l as [|x l IH]; intros seen H; simpl in H.
  - by apply elem_of_nil in H.
  - destruct (bool_decide (Pathname x ∈ seen)) eqn:E.
    + destruct (IH _ H) as [? ?]. split; [done|by right].
    + apply bool_decide_eq_false in E.
      apply elem_of_cons in H as [->|H]; [split; [done|by left]|].
      destruct (IH _ H) as [Hn ?]. split; [|by right].
      intros Hs. apply Hn. by apply elem_of_union_r.
Qed.

Lemma kept_NoDup seen l : NoDup (map Pathname (kept seen l)).
Proof.
  revert seen. induction l as [|x l IH]; intros seen; simpl; [constructor|].
  destruct (bool_decide (Pathname x ∈ seen)); [apply IH|].
  simpl. apply NoDup_cons. split; [|apply IH].
  intros H. apply list_elem_of_fmap in H as (d & E & Hd).
  apply kept_unseen in Hd as [Hn _]. apply Hn. rewrite <- E.
  apply elem_of_union_l. by apply elem_of_singleton.
Qed.

Lemma kept_sublist seen l : sublist (kept seen l) l.
Proof.
  revert seen. induction l as [|x l IH]; intros seen; simpl; [constructor|].
  destruct (bool_decide (Pathname x ∈ seen)).
  - apply sublist_cons, IH.
  - apply sublist_skip, IH.
Qed.

Lemma kept_covers seen l d :
  d ∈ l -> Pathname d ∉ seen ->
  exists d', d' ∈ kept seen l /\ Pathname d' = Pathname d.
Proof.
  revert seen. induction l as [|x l IH]; intros seen Hd Hn.
  - by apply elem_of_nil in Hd.
  - simpl. destruct (bool_decide (Pathname x ∈ seen)) eqn:E.
    + apply bool_decide_eq_true in E.
      apply elem_of_cons in Hd as [->|Hd]; [done|]. by apply IH.
    + destruct (decide (Pathname x = Pathname d)) as [Heq|Hne].
      * exists x. split; [by left|done].
      * apply elem_of_cons in Hd as [->|Hd]; [done|].
        destruct (IH ({[Pathname x]} ∪ seen) Hd) as (d' & H1 & H2).
        -- intros H. apply elem_of_union in H as [H|H]; [|done].
           apply elem_of_singleton in H. by apply Hne.
        -- exists d'. split; [by right|done].
Qed.

Lemma kept_first seen l d :
  d ∈ kept seen l -> firstWith (Pathname d) l = Some d.
Proof.
  revert seen. induction l as [|x l IH]; intros seen H; simpl in H.
  - by apply elem_of_nil in H.
  - unfold firstWith. simpl. destruct (bool_decide (Pathname x ∈ seen)) eqn:E.
    + apply bool_decide_eq_true in E.
      destruct (String.eqb_spec (Pathname x) (Pathname d)) as [Heq|_].
      * apply kept_unseen in H as [Hn _]. by rewrite <- Heq in Hn.
      * by apply (IH seen).
    + apply elem_of_cons in H as [->|H]; [by rewrite String.eqb_refl|].
      destruct (String.eqb_spec (Pathname x) (Pathname d)) as [Heq|_].
      * apply kept_unseen in H as [Hn _]. exfalso. apply Hn. rewrite Heq.
        apply elem_of_union_l. by apply elem_of_singleton.
      * by apply (IH _ H).
Qed.

End DedupFacts.

(* ===================================================================== *)
(** ** [runSnapshot]: one record per pathname                            *)
(* ===================================================================== *)

(** X28: the deduplication of [runSnapshot] keeps, in their order, the
    first record of every pathname: no pathname occurs twice in its
    result, every pathname of the input occurs in it, and each record it
    keeps is the first of the input with that pathname. *)
Theorem uniqueDists_keeps_first_of_each_pathname (dists : list Dist) :
  NoDup (map Pathname (Main.uniqueDists dists)) /\
  sublist (Main.uniqueDists dists) dists /\
  (forall d, d ∈ dists ->
             exists d', d' ∈ Main.uniqueDists dists /\ Pathname d' = Pathname d) /\
  (forall d, d ∈ Main.uniqueDists dists -> Main.firstWith (Pathname d) dists = Some d).
Proof.
  rewrite DedupFacts.uniqueDists_kept. split; [apply DedupFacts.kept_NoDup|].
  split; [apply DedupFacts.kept_sublist|]. split.
  - intros d Hd. apply DedupFacts.kept_covers; [done|apply not_elem_of_empty].
  - intros d. apply DedupFacts.kept_first.
Qed.

(* ===================================================================== *)
(** ** Two more edges                                                    *)
(* ===================================================================== *)

(** X29: a constraint that is a bare version, without operator or comma,
    asks for at least that version. *)
Theorem bare_version_is_a_minimum (V W : string) :
  V <> "undef" -> W <> "" -> W <> "0" ->
  free "," W = true -> TrimSpace W = W ->
  HasPrefix W ">" = false -> HasPrefix W "<" = false ->
  HasPrefix W "!=" = false -> HasPrefix W "==" = false ->
  satisfies V W = (0 <=? compareVersions V W).
Proof.
  intros HV H0 H1 Hc Ht Hgt Hlt Hne Heq.
  rewrite OrderFacts.satisfies_clauses by done.
  rewrite StringFacts.Split_free by done. cbn [forallb]. rewrite andb_true_r, Ht.
  unfold satisfiesOne. rewrite Ht.
  destruct (String.eqb_spec W "") as [?|_]; [done|].
  destruct (String.eqb_spec W "0") as [?|_]; [done|]. cbn [orb].
  assert (HasPrefix W ">=" = false) as ->.
  { destruct W as [|c W]; [done|]. rewrite PathFacts.HasPrefix_cons in Hgt |- *.
    apply andb_false_iff in Hgt as [->|Hg]; [done|]. by destruct W. }
  assert (HasPrefix W "<=" = false) as ->.
  { destruct W as [|c W]; [done|]. rewrite PathFacts.HasPrefix_cons in Hlt |- *.
    apply andb_false_iff in Hlt as [->|Hl]; [done|]. by destruct W. }
  rewrite Hne, Hgt, Hlt, Heq.
  by destruct (String.eqb_spec V "") as [->|_].
Qed.

Lemma bare_version_is_a_minimum_witness :
  satisfies "2.005005" "2.005" = (0 <=? compareVersions "2.005005" "2.005").
Proof.
  apply (bare_version_is_a_minimum "2.005005" "2.005");
    (discriminate || (vm_compute; reflexivity)).
Defined.

Module TruncatedFacts.
Import Extractor.

Lemma scanEntries_broken sc entries :
  exists msg, scanEntries sc entries TarBroken = Err msg.
Proof.
  revert sc. induction entries as [|e entries IH]; intros sc; simpl; [eauto|].
  destruct (scanEntry sc e) as [sc'|msg]; [apply IH|eauto].
Qed.

End TruncatedFacts.

(** X30: from a tarball whose reading breaks off before the end of the
    archive, extraction returns an error, with or without configure, and
    runs no command, whatever was read before the break. *)
Theorem broken_tarball_is_an_error w e path entries withConfigure :
  Extractor.openTarball w path = Extractor.Ok (entries, Extractor.TarBroken) ->
  exists msg,
    Extractor.extractMeta w e path withConfigure = (Extractor.Err msg, []).
Proof.
  intros Ho. unfold Extractor.extractMeta. rewrite Ho.
  destruct (TruncatedFacts.scanEntries_broken Extractor.emptyScan entries) as [msg ->].
  by exists msg.
Qed.

Lemma broken_tarball_is_an_error_witness :
  exists msg,
    Extractor.extractMeta Samples.world_truncated Examples.host "Dist-1.0.tar.gz" true
    = (Extractor.Err msg, []).
Proof.
  apply (broken_tarball_is_an_error Samples.world_truncated Examples.host
           "Dist-1.0.tar.gz"
           [Extractor.mkEntry "Dist-1.0/META.json" (Some "first")] true).
  reflexivity.
Defined.
